(** * yt-download: manifest resolution and signature descrambling

    A shallow embedding of the [youtube] package (parseMeta, decipherURL,
    decryptSignature, the fragment extractors, the descrambler locator,
    IndexByItag and Get) together with the properties its specification
    states about them.

    The second part adds the rest of the package (GetExtension, the
    older parseMeta of the same file, Download and DownloadWithYtDlp)
    and, of package main, downloadVideo and parseVTT, with further
    properties of the code.

    Go strings are byte sequences: they are [string] at the interfaces and
    [list ascii] inside the scanners.  Go's [int] is [Z].  A Go function
    returning [(T, error)] returns [result T]; an [error] is its message. *)

From Stdlib Require Import ZArith Ascii String DecimalString.
From stdpp Require Import base option list strings gmap.

Open Scope string_scope.
Open Scope list_scope.

(** ** Errors *)

Definition error := string.

Inductive result (A : Type) : Type :=
| Ok (a : A)
| Err (e : error).
Arguments Ok {A} a.
Arguments Err {A} e.

Definition is_ok {A} (r : result A) : bool :=
  match r with Ok _ => true | Err _ => false end.

(** [x, _ := f()] where every error path of [f] returns the zero value. *)
Definition or_empty (r : result string) : string :=
  match r with Ok s => s | Err _ => EmptyString end.

(** ** Go strings *)

Module GoStr.

Definition bytes (s : string) : list ascii := list_ascii_of_string s.
Definition of_bytes (l : list ascii) : string := string_of_list_ascii l.

(** The double quote, which a literal of this file cannot hold. *)
Definition dq : string := String (ascii_of_nat 34) EmptyString.
Definition quote_byte : ascii := ascii_of_nat 34.
Definition apostrophe_byte : ascii := ascii_of_nat 39.
Definition backslash_byte : ascii := ascii_of_nat 92.
Definition newline_byte : ascii := ascii_of_nat 10.

Definition is_empty (s : string) : bool :=
  match s with EmptyString => true | String _ _ => false end.

(** [has_prefix_b p l]: the byte list [l] starts with [p]. *)
Fixpoint has_prefix_b (p l : list ascii) : bool :=
  match p, l with
  | [], _ => true
  | a :: p', b :: l' => Ascii.eqb a b && has_prefix_b p' l'
  | _ :: _, [] => false
  end.

(** strings.Contains on bytes. *)
Fixpoint contains_b (l sub : list ascii) : bool :=
  has_prefix_b sub l ||
  match l with
  | [] => false
  | _ :: l' => contains_b l' sub
  end.

Definition Contains (s sub : string) : bool := contains_b (bytes s) (bytes sub).

(** strings.HasSuffix. *)
Definition HasSuffix (s suffix : string) : bool :=
  has_prefix_b (reverse (bytes suffix)) (reverse (bytes s)).

(** strings.ReplaceAll for a non-empty [old]: leftmost, non-overlapping. *)
Fixpoint replace_b (fuel : nat) (l old new : list ascii) : list ascii :=
  match fuel with
  | O => l
  | S fuel' =>
      match l with
      | [] => []
      | a :: l' =>
          if has_prefix_b old l
          then new ++ replace_b fuel' (drop (length old) l) old new
          else a :: replace_b fuel' l' old new
      end
  end.

Definition ReplaceAll (s old new : string) : string :=
  of_bytes (replace_b (S (String.length s)) (bytes s) (bytes old) (bytes new)).

(** [s[b:e]] for [b <= e <= len(s)]. *)
Definition slice (s : string) (b e : nat) : string := substring b (e - b) s.

(** [%d]. *)
Definition itoa (z : Z) : string := NilZero.string_of_int (Z.to_int z).

Definition is_digit (a : ascii) : bool :=
  let n := nat_of_ascii a in (48 <=? n)%nat && (n <=? 57)%nat.
Definition is_lower (a : ascii) : bool :=
  let n := nat_of_ascii a in (97 <=? n)%nat && (n <=? 122)%nat.
Definition is_upper (a : ascii) : bool :=
  let n := nat_of_ascii a in (65 <=? n)%nat && (n <=? 90)%nat.
Definition is_letter (a : ascii) : bool := is_lower a || is_upper a.
Definition is_alnum (a : ascii) : bool := is_letter a || is_digit a.

(** The [int] that strconv.Atoi returns, its error dropped as parseMeta
    drops it: zero on a syntax error, the nearest 64-bit bound on a range
    error. *)
Fixpoint digits_val (acc : Z) (l : list ascii) : option Z :=
  match l with
  | [] => Some acc
  | a :: l' =>
      if is_digit a
      then digits_val (10 * acc + (Z.of_nat (nat_of_ascii a) - 48)) l'
      else None
  end.

Definition clamp_int (z : Z) : Z :=
  Z.max (- 2 ^ 63) (Z.min (2 ^ 63 - 1) z).

Definition Atoi_value (s : string) : Z :=
  match bytes s with
  | [] => 0
  | a :: l =>
      if Ascii.eqb a "-" then
        match l with [] => 0 | _ => default 0 (clamp_int <$> (Z.opp <$> digits_val 0 l)) end
      else if Ascii.eqb a "+" then
        match l with [] => 0 | _ => default 0 (clamp_int <$> digits_val 0 l) end
      else default 0 (clamp_int <$> digits_val 0 (a :: l))
  end%Z.

End GoStr.

(** ** Regular expressions

    The fragment of Go's regexp syntax that the package's patterns use:
    literals, byte classes, repetition of a class (greedy or not, with a
    minimum count), an optional group, capture groups and the ASCII word
    boundary.  [run] lists the ways a pattern matches at a cursor in
    preference order, which is the order Go's leftmost-first matching
    explores them; [search] takes the first match at the leftmost start. *)

Module Regexp.
Import GoStr.

Inductive re : Type :=
| Lit (s : string)
| Cls (p : ascii -> bool)
| Rep (greedy : bool) (min : nat) (p : ascii -> bool)
| Opt (r : re)
| Seq (r1 r2 : re)
| Grp (i : nat) (r : re)
| WordB.

(** The reversed input before the position, and the input after it. *)
Definition cursor : Type := list ascii * list ascii.
Definition mstate : Type := cursor * list string.

(** Byte classes of the patterns. *)
Definition cls_ident (a : ascii) : bool := is_alnum a || Ascii.eqb a "$".
Definition cls_word (a : ascii) : bool := is_alnum a || Ascii.eqb a "_".
Definition cls_space (a : ascii) : bool :=
  let n := nat_of_ascii a in
  (n =? 9)%nat || (n =? 10)%nat || (n =? 12)%nat || (n =? 13)%nat || (n =? 32)%nat.
Definition cls_dot (a : ascii) : bool := negb (Ascii.eqb a newline_byte).
Definition cls_not (b : ascii) (a : ascii) : bool := negb (Ascii.eqb a b).

(** Cursors reached by consuming 0, 1, 2, ... bytes of class [p]. *)
Fixpoint spans (p : ascii -> bool) (pre rest : list ascii) : list cursor :=
  (pre, rest) ::
  match rest with
  | a :: rest' => if p a then spans p (a :: pre) rest' else []
  | [] => []
  end.

Definition at_word_boundary (c : cursor) : bool :=
  let before := match c.1 with a :: _ => cls_word a | [] => false end in
  let after := match c.2 with a :: _ => cls_word a | [] => false end in
  xorb before after.

(** The text between cursor [c] and a later cursor [c'] of the same input. *)
Definition consumed (c c' : cursor) : string :=
  of_bytes (reverse (take (length c'.1 - length c.1) c'.1)).

Fixpoint run (r : re) (st : mstate) : list mstate :=
  match r with
  | Lit s =>
      let l := bytes s in
      if has_prefix_b l st.1.2
      then [((reverse l ++ st.1.1, drop (length l) st.1.2), st.2)]
      else []
  | Cls p =>
      match st.1.2 with
      | a :: rest' => if p a then [((a :: st.1.1, rest'), st.2)] else []
      | [] => []
      end
  | Rep greedy min p =>
      let cs := drop min (spans p st.1.1 st.1.2) in
      (fun c => (c, st.2)) <$> (if greedy then reverse cs else cs)
  | Opt r1 => run r1 st ++ [st]
  | Seq r1 r2 => run r1 st ≫= run r2
  | Grp i r1 =>
      (fun st' : mstate => (st'.1, <[i := consumed st.1 st'.1]> st'.2)) <$> run r1 st
  | WordB => if at_word_boundary st.1 then [st] else []
  end.

(** Leftmost start, then the first match there: the bounds of the match
    and the text of its groups (group [i] in slot [i]; slot 0 is filled by
    the caller with the whole match). *)
Fixpoint search (r : re) (ngroups : nat) (pre rest : list ascii)
  : option (nat * nat * list string) :=
  match run r ((pre, rest), replicate (S ngroups) EmptyString) with
  | st :: _ => Some (length pre, length st.1.1, st.2)
  | [] =>
      match rest with
      | a :: rest' => search r ngroups (a :: pre) rest'
      | [] => None
      end
  end.

(** A compiled pattern: the expression and its number of groups. *)
Record Regexp : Type := MustCompile { expr : re; ngroups : nat }.

Definition find (re : Regexp) (s : string) : option (nat * nat * list string) :=
  search (expr re) (ngroups re) [] (bytes s).

(** FindStringIndex: [None] is the nil slice. *)
Definition FindStringIndex (re : Regexp) (s : string) : option (nat * nat) :=
  (fun m => m.1) <$> find re s.

(** FindString: the empty string when there is no match. *)
Definition FindString (re : Regexp) (s : string) : string :=
  match find re s with
  | Some (b, e, _) => slice s b e
  | None => EmptyString
  end.

(** FindStringSubmatch: the match followed by its groups; nil when there
    is no match. *)
Definition FindStringSubmatch (re : Regexp) (s : string) : list string :=
  match find re s with
  | Some (b, e, caps) => <[0%nat := slice s b e]> caps
  | None => []
  end.

(** [matches[i]] under a guard that has checked [len(matches) > i]. *)
Definition at_ (matches : list string) (i : nat) : string :=
  default EmptyString (matches !! i).

(** [st'] is [st] moved forward over the bytes [w]. *)
Definition advances (w : list ascii) (st st' : mstate) : Prop :=
  st.1.2 = w ++ st'.1.2 /\ st'.1.1 = reverse w ++ st.1.1.

(** The groups a pattern writes. *)
Fixpoint groups (r : re) : list nat :=
  match r with
  | Lit _ | Cls _ | Rep _ _ _ | WordB => []
  | Opt r1 => groups r1
  | Seq r1 r2 => groups r1 ++ groups r2
  | Grp i r1 => i :: groups r1
  end.

(** The texts a pattern describes, positions and groups aside. *)
Fixpoint lang (r : re) (w : list ascii) : Prop :=
  match r with
  | Lit s => w = bytes s
  | Cls p => exists a, w = [a] /\ p a = true
  | Rep _ min p => Forall (fun a => p a = true) w /\ (min <= length w)%nat
  | Opt r1 => lang r1 w \/ w = []
  | Seq r1 r2 => exists w1 w2, w = w1 ++ w2 /\ lang r1 w1 /\ lang r2 w2
  | Grp _ r1 => lang r1 w
  | WordB => w = []
  end.

Definition star (p : ascii -> bool) : re := Rep true 0 p.
Definition plus (p : ascii -> bool) : re := Rep true 1 p.

Declare Scope re_scope.
Delimit Scope re_scope with re.
Bind Scope re_scope with re.
Notation "r1 >>> r2" := (Seq r1 r2) (at level 60, right associativity) : re_scope.

End Regexp.

(** ** net/url

    The query functions of Go's net/url that the package calls, as the
    library documents them. *)

Module Url.
Import GoStr.

(** url.Values. *)
Abbreviation Values := (gmap string (list string)).

(** Values.Get: the first value of the key, or the empty string. *)
Definition Get (v : Values) (key : string) : string :=
  match v !! key with
  | Some (x :: _) => x
  | _ => EmptyString
  end.

Definition hex_val (a : ascii) : option nat :=
  let n := nat_of_ascii a in
  if is_digit a then Some (n - 48)
  else if (97 <=? n)%nat && (n <=? 102)%nat then Some (n - 87)
  else if (65 <=? n)%nat && (n <=? 70)%nat then Some (n - 55)
  else None.

(** The text of url.EscapeError, for bytes that strconv.Quote leaves as
    they are. *)
Definition invalid_escape (l : list ascii) : error :=
  "invalid URL escape " +:+ dq +:+ of_bytes (take 3 l) +:+ dq.

(** url.QueryUnescape. *)
Fixpoint unescape_b (l : list ascii) : result (list ascii) :=
  match l with
  | [] => Ok []
  | a :: l' =>
      if Ascii.eqb a "%" then
        match l' with
        | h1 :: h2 :: rest =>
            match hex_val h1, hex_val h2 with
            | Some x, Some y =>
                match unescape_b rest with
                | Ok r => Ok (ascii_of_nat (16 * x + y) :: r)
                | Err e => Err e
                end
            | _, _ => Err (invalid_escape l)
            end
        | _ => Err (invalid_escape l)
        end
      else
        match unescape_b l' with
        | Ok r => Ok ((if Ascii.eqb a "+" then " "%char else a) :: r)
        | Err e => Err e
        end
  end.


Definition unreserved (a : ascii) : bool :=
  is_alnum a || Ascii.eqb a "-" || Ascii.eqb a "_" || Ascii.eqb a "." || Ascii.eqb a "~".

Definition upperhex (n : nat) : ascii :=
  if (n <? 10)%nat then ascii_of_nat (48 + n) else ascii_of_nat (55 + n).

(** url.QueryEscape. *)
Definition escape_byte (a : ascii) : list ascii :=
  if unreserved a then [a]
  else if Ascii.eqb a " " then ["+"%char]
  else
    let n := nat_of_ascii a in
    ["%"%char; upperhex (n / 16); upperhex (n mod 16)].

Definition QueryEscape (s : string) : string :=
  of_bytes (bytes s ≫= escape_byte).

(** strings.Cut on bytes: the text before the first [sep] and the text
    after it; the whole text and nothing when [sep] is absent. *)
Fixpoint cut_b (sep : ascii) (l : list ascii) : list ascii * list ascii :=
  match l with
  | [] => ([], [])
  | a :: l' =>
      if Ascii.eqb a sep then ([], l')
      else let '(k, r) := cut_b sep l' in (a :: k, r)
  end.

(** The pairs of a query, split at the ampersands. *)
Fixpoint split_b (sep : ascii) (cur : list ascii) (l : list ascii) : list (list ascii) :=
  match l with
  | [] => [reverse cur]
  | a :: l' =>
      if Ascii.eqb a sep then reverse cur :: split_b sep [] l'
      else split_b sep (a :: cur) l'
  end.

Definition semicolon_error : error := "invalid semicolon separator in query".

(** One turn of parseQuery's loop on the pair [kv]; the error kept is the
    first one, except that a semicolon always overwrites it. *)
Definition parse_pair (acc : Values * option error) (kv : list ascii)
  : Values * option error :=
  let '(m, err) := acc in
  if contains_b kv [";"%char] then (m, Some semicolon_error)
  else
    match kv with
    | [] => (m, err)
    | _ =>
        let '(k, v) := cut_b "=" kv in
        match unescape_b k with
        | Err e1 => (m, Some (default e1 err))
        | Ok k' =>
            match unescape_b v with
            | Err e1 => (m, Some (default e1 err))
            | Ok v' =>
                let key := of_bytes k' in
                (<[key := default [] (m !! key) ++ [of_bytes v']]> m, err)
            end
        end
    end.

(** url.ParseQuery: the values always, and the first error met. *)
Definition parseQuery (query : string) : Values * option error :=
  match bytes query with
  | [] => (∅, None)
  | l => foldl parse_pair (∅, None) (split_b "&" [] l)
  end.

(** The caller's view [params, err := url.ParseQuery(q)] where a non-nil
    [err] is always acted upon before [params] is read. *)
Definition ParseQuery (query : string) : result Values :=
  match parseQuery query with
  | (m, None) => Ok m
  | (_, Some e) => Err e
  end.

(** url.URL, reduced to the field the package reads. *)
Record URL : Type := { RawQuery : string }.

(** URL.Query: the values of RawQuery, its error dropped. *)
Definition Query (u : URL) : Values := (parseQuery (RawQuery u)).1.

End Url.

(** ** encoding/json: valid texts

    What json.Unmarshal checks before it decodes: the text is one JSON
    value (an object, an array, a string, a number, true, false or
    null) between optional white space, and nothing else. The check is
    on bytes, as the library's scanner is. *)

Module Json.
Import GoStr.

Definition is_ws (a : ascii) : bool :=
  let n := nat_of_ascii a in
  (n =? 32)%nat || (n =? 9)%nat || (n =? 10)%nat || (n =? 13)%nat.

Fixpoint skip_ws (l : list ascii) : list ascii :=
  match l with
  | a :: l' => if is_ws a then skip_ws l' else l
  | [] => []
  end.

Definition is_hex (a : ascii) : bool :=
  match Url.hex_val a with Some _ => true | None => false end.

Definition is_simple_escape (a : ascii) : bool :=
  Ascii.eqb a quote_byte || Ascii.eqb a backslash_byte ||
  existsb (Ascii.eqb a) (bytes "/bfnrt").

(** A string after its opening quote: what follows its closing quote. *)
Fixpoint string_rest (l : list ascii) : option (list ascii) :=
  match l with
  | [] => None
  | a :: l' =>
      if Ascii.eqb a quote_byte then Some l'
      else if Ascii.eqb a backslash_byte then
        match l' with
        | [] => None
        | e :: l'' =>
            if Ascii.eqb e "u" then
              match l'' with
              | h1 :: h2 :: h3 :: h4 :: rest =>
                  if is_hex h1 && is_hex h2 && is_hex h3 && is_hex h4
                  then string_rest rest else None
              | _ => None
              end
            else if is_simple_escape e then string_rest l'' else None
        end
      else if (nat_of_ascii a <? 32)%nat then None
      else string_rest l'
  end.

Fixpoint skip_digits (l : list ascii) : list ascii :=
  match l with
  | a :: l' => if is_digit a then skip_digits l' else l
  | [] => []
  end.

(** One digit or more. *)
Definition digits (l : list ascii) : option (list ascii) :=
  match l with
  | a :: l' => if is_digit a then Some (skip_digits l') else None
  | [] => None
  end.

(** A number: an optional minus sign, zero or a run of digits not
    starting with zero, an optional fraction, an optional exponent. *)
Definition number_rest (l : list ascii) : option (list ascii) :=
  let l := match l with
           | a :: l' => if Ascii.eqb a "-" then l' else l
           | [] => l
           end in
  after_int ←
    match l with
    | a :: l' => if Ascii.eqb a "0" then Some l' else digits l
    | [] => None
    end;
  after_frac ←
    match after_int with
    | a :: l' => if Ascii.eqb a "." then digits l' else Some after_int
    | [] => Some after_int
    end;
  match after_frac with
  | a :: l' =>
      if Ascii.eqb a "e" || Ascii.eqb a "E" then
        match l' with
        | s :: l'' =>
            if Ascii.eqb s "+" || Ascii.eqb s "-" then digits l'' else digits l'
        | [] => None
        end
      else Some after_frac
  | [] => Some after_frac
  end.

Definition literal_rest (word : string) (l : list ascii) : option (list ascii) :=
  if has_prefix_b (bytes word) l then Some (drop (String.length word) l) else None.

(** What is read next: a value, the members of an object from a key
    on, or the elements of an array from a value on. *)
Inductive part : Type := AValue | Members | Elements.

Fixpoint read (fuel : nat) (what : part) (l : list ascii) : option (list ascii) :=
  match fuel with
  | O => None
  | S fuel' =>
      match what with
      | AValue =>
          match l with
          | [] => None
          | a :: l' =>
              if Ascii.eqb a "{" then
                match skip_ws l' with
                | c :: r => if Ascii.eqb c "}" then Some r
                            else read fuel' Members (c :: r)
                | [] => None
                end
              else if Ascii.eqb a "[" then
                match skip_ws l' with
                | c :: r => if Ascii.eqb c "]" then Some r
                            else read fuel' Elements (c :: r)
                | [] => None
                end
              else if Ascii.eqb a quote_byte then string_rest l'
              else if Ascii.eqb a "-" || is_digit a then number_rest l
              else if Ascii.eqb a "t" then literal_rest "true" l
              else if Ascii.eqb a "f" then literal_rest "false" l
              else if Ascii.eqb a "n" then literal_rest "null" l
              else None
          end
      | Members =>
          match l with
          | q :: l' =>
              if Ascii.eqb q quote_byte then
                after_key ← string_rest l';
                match skip_ws after_key with
                | c :: r =>
                    if Ascii.eqb c ":" then
                      after_value ← read fuel' AValue (skip_ws r);
                      match skip_ws after_value with
                      | d :: r' =>
                          if Ascii.eqb d "," then read fuel' Members (skip_ws r')
                          else if Ascii.eqb d "}" then Some r'
                          else None
                      | [] => None
                      end
                    else None
                | [] => None
                end
              else None
          | [] => None
          end
      | Elements =>
          after_value ← read fuel' AValue l;
          match skip_ws after_value with
          | d :: r' =>
              if Ascii.eqb d "," then read fuel' Elements (skip_ws r')
              else if Ascii.eqb d "]" then Some r'
              else None
          | [] => None
          end
      end
  end.

(** Valid JSON, as encoding/json checks it before decoding: one value
    between optional white space, and nothing else. *)
Definition valid_json (s : string) : bool :=
  match read (2 * String.length s + 2) AValue (skip_ws (bytes s)) with
  | Some rest => match skip_ws rest with [] => true | _ => false end
  | None => false
  end.

End Json.

(** ** The collaborators

    What the package reaches through libraries and the network: the goja
    script engine, the HTTP client, encoding/json and url.Parse. *)

(** goja: a runtime is a state that RunString transforms; a value has the
    text its String method returns, whatever its type. *)
Record Goja : Type := {
  VM : Type;
  Value : Type;
  goja_New : VM;
  RunString : VM -> string -> VM * result Value;
  Value_String : Value -> string;
  Value_is_string : Value -> bool
}.

Record Request : Type := { req_url : string; req_user_agent : string }.
Record Response : Type := { StatusCode : Z; Body : string }.

Record thumbnail : Type := { thumb_URL : string }.

Record streamFormat : Type := {
  sf_Itag : Z;
  sf_URL : string;
  sf_SignatureCipher : string;
  sf_MimeType : string;
  sf_Quality : string;
  sf_Width : Z;
  sf_Height : Z;
  sf_Bitrate : Z
}.

Record videoDetails : Type := {
  vd_VideoID : string;
  vd_Title : string;
  vd_LengthSeconds : string;
  vd_Keywords : list string;
  vd_ViewCount : string;
  vd_Author : string;
  vd_Thumbnails : list thumbnail
}.

Record streamingData : Type := {
  sd_Formats : list streamFormat;
  sd_AdaptiveFormats : list streamFormat
}.

Record playerResponse : Type := {
  VideoDetails : videoDetails;
  StreamingData : streamingData
}.

Record Env : Type := {
  goja : Goja;
  http_Do : Request -> result Response;
  json_Unmarshal : string -> result playerResponse;
  url_Parse : string -> result Url.URL
}.

(** ** The result monad *)

#[global] Instance result_ret : MRet result := fun _ a => Ok a.
#[global] Instance result_bind : MBind result :=
  fun _ _ f r => match r with Ok a => f a | Err e => Err e end.

(** [fmt.Errorf(prefix + "%v", err)] on the error path. *)
Definition wrap_err {A} (prefix : string) (r : result A) : result A :=
  match r with Ok a => Ok a | Err e => Err (prefix +:+ e) end.

(** ** Package youtube *)

Module Youtube.
Import GoStr Regexp.
Open Scope re_scope.

Definition URL_META : string := "https://www.youtube.com/watch?v=".

Record Format : Type := {
  Itag : Z;
  Video_type : string;
  Quality : string;
  Url : string
}.

(** The float field Avg_rating, which nothing here writes, is left out. *)
Record Video : Type := {
  Id : string;
  Title : string;
  Author : string;
  Keywords : string;
  Thumbnail_url : string;
  View_count : Z;
  Length_seconds : Z;
  Formats : list Format;
  Filename : string
}.

(** *** IndexByItag *)

(** A [*Format] into [v.Formats]: nil, or the address of a slot. *)
Inductive FormatPtr : Type :=
| nil_ptr
| slot_ptr (i : nat).

Definition deref (v : Video) (p : FormatPtr) : option Format :=
  match p with
  | nil_ptr => None
  | slot_ptr i => Formats v !! i
  end.

Fixpoint IndexByItag_from (i : nat) (fs : list Format) (itag : Z) : nat * FormatPtr :=
  match fs with
  | [] => (0%nat, nil_ptr)
  | f :: fs' =>
      if (Itag f =? itag)%Z then (i, slot_ptr i)
      else IndexByItag_from (S i) fs' itag
  end.

Definition IndexByItag (v : Video) (itag : Z) : nat * FormatPtr :=
  IndexByItag_from 0 (Formats v) itag.

(** *** The patterns, as the source compiles them *)

Definition ws : re := star cls_space.
Definition empty_literal : string := dq +:+ dq.

(** The four patterns of extractDecryptFunction, in order. *)
Definition decrypt_pattern1 : Regexp :=
  MustCompile
    (WordB >>> Grp 1 (Rep true 2 cls_ident) >>> ws >>> Lit "=" >>> ws >>>
     Lit "function(" >>> ws >>> Lit "a" >>> ws >>> Lit ")" >>> ws >>>
     Lit "{" >>> ws >>> Lit "a" >>> ws >>> Lit "=" >>> ws >>>
     Lit "a.split(" >>> ws >>> Lit empty_literal >>> ws >>> Lit ")") 1.

Definition decrypt_pattern2 : Regexp :=
  MustCompile
    (WordB >>> Grp 1 (Rep true 2 cls_ident) >>> ws >>> Lit "=" >>> ws >>>
     Lit "function(" >>> ws >>> Lit "a" >>> ws >>> Lit ")" >>> ws >>>
     Lit "{" >>> ws >>> Lit "a" >>> ws >>> Lit "=" >>> ws >>>
     Lit "a.split(" >>> ws >>> Lit empty_literal >>> ws >>> Lit ");") 1.

Definition decrypt_pattern3 : Regexp :=
  MustCompile
    (Grp 1 (plus cls_ident) >>>
     Lit ("=function(a){a=a.split(" +:+ empty_literal +:+ ");") >>>
     Grp 2 (plus cls_ident) >>> Lit ".") 2.

Definition decrypt_pattern4 : Regexp :=
  MustCompile
    (WordB >>> Grp 1 (plus cls_ident) >>> ws >>> Lit "=" >>> ws >>>
     Lit "function(" >>> Cls is_letter >>> Lit "){" >>> Cls is_letter >>>
     Lit "=" >>> Grp 2 (Cls is_letter) >>>
     Lit (".split(" +:+ empty_literal +:+ ")")) 2.

Definition decrypt_patterns : list Regexp :=
  [decrypt_pattern1; decrypt_pattern2; decrypt_pattern3; decrypt_pattern4].

(** The secondary pattern, built around the quoted function name. *)
Definition helper_name_pattern (funcName : string) : Regexp :=
  MustCompile
    (Lit funcName >>> Lit "=function(" >>> Cls is_letter >>> Lit "){" >>>
     Cls is_letter >>> Lit "=" >>> Cls is_letter >>>
     Lit (".split(" +:+ empty_literal +:+ ");") >>>
     Grp 1 (plus cls_ident) >>> Lit ".") 1.

(** The three patterns of extractHelperObject, in order, and its start
    pattern. *)
Definition helper_patterns (helperName : string) : list Regexp :=
  [ MustCompile (Lit "var " >>> Lit helperName >>> Lit "={" >>>
                 plus (cls_not "}") >>> Lit "}") 0;
    MustCompile (Lit helperName >>> Lit "={" >>>
                 plus (cls_not "}") >>> Lit "}") 0;
    MustCompile (Lit "var " >>> Lit helperName >>> Lit "={" >>>
                 plus (cls_not ";") >>> Lit "};") 0 ].

Definition helper_start_pattern (helperName : string) : Regexp :=
  MustCompile (Opt (Grp 1 (Lit "var ")) >>> Lit helperName >>> Lit "={") 1.

Definition function_start_pattern (funcName : string) : Regexp :=
  MustCompile (Lit funcName >>> Lit "=function(" >>> plus is_alnum >>> Lit "){") 0.

Definition player_url_pattern : Regexp :=
  MustCompile
    (Lit (dq +:+ "jsUrl" +:+ dq +:+ ":" +:+ dq) >>>
     Grp 1 (Lit "/s/player/" >>> plus (cls_not quote_byte)) >>> Lit dq) 1.

Definition player_response_pattern : Regexp :=
  MustCompile
    (Lit "var ytInitialPlayerResponse = " >>>
     Grp 1 (Lit "{" >>> Rep false 1 cls_dot >>> Lit "}") >>> Lit ";") 1.

(** *** The structural scans *)

Record scan_state : Type := {
  braceCount : Z;
  inString : bool;
  escapeNext : bool;
  stringChar : ascii
}.

Definition scan_init : scan_state :=
  {| braceCount := 0; inString := false; escapeNext := false;
     stringChar := zero |}.

(** One turn of a scanning loop: go on with a new state, or stop at the
    brace that closes the definition. *)
Inductive scan_next : Type :=
| Continue (st : scan_state)
| Closed.

Definition is_quote (c : ascii) : bool :=
  Ascii.eqb c quote_byte || Ascii.eqb c apostrophe_byte.

(** What both loops do with a byte outside the escape and quote cases. *)
Definition count_brace (st : scan_state) (c : ascii) : scan_next :=
  if negb (inString st) then
    if Ascii.eqb c "{" then
      Continue {| braceCount := braceCount st + 1; inString := inString st;
                  escapeNext := escapeNext st; stringChar := stringChar st |}
    else if Ascii.eqb c "}" then
      if (braceCount st - 1 =? 0)%Z then Closed
      else
        Continue {| braceCount := braceCount st - 1; inString := inString st;
                    escapeNext := escapeNext st; stringChar := stringChar st |}
    else Continue st
  else Continue st.

(** The loop body of extractFullDecryptFunction. *)
Definition function_scan_byte (st : scan_state) (c : ascii) : scan_next :=
  if escapeNext st then
    Continue {| braceCount := braceCount st; inString := inString st;
                escapeNext := false; stringChar := stringChar st |}
  else if Ascii.eqb c backslash_byte then
    Continue {| braceCount := braceCount st; inString := inString st;
                escapeNext := true; stringChar := stringChar st |}
  else if is_quote c then
    if negb (inString st) then
      Continue {| braceCount := braceCount st; inString := true;
                  escapeNext := escapeNext st; stringChar := c |}
    else if Ascii.eqb c (stringChar st) then
      Continue {| braceCount := braceCount st; inString := false;
                  escapeNext := escapeNext st; stringChar := stringChar st |}
    else Continue st
  else count_brace st c.

(** The loop body of extractHelperObject: any quote toggles the flag. *)
Definition helper_scan_byte (st : scan_state) (c : ascii) : scan_next :=
  if escapeNext st then
    Continue {| braceCount := braceCount st; inString := inString st;
                escapeNext := false; stringChar := stringChar st |}
  else if Ascii.eqb c backslash_byte then
    Continue {| braceCount := braceCount st; inString := inString st;
                escapeNext := true; stringChar := stringChar st |}
  else if is_quote c then
    Continue {| braceCount := braceCount st; inString := negb (inString st);
                escapeNext := escapeNext st; stringChar := stringChar st |}
  else count_brace st c.

(** [for i := start; i < len(playerCode); i++] over the bytes from [i]
    on: the index of the closing brace, if the loop reaches one. *)
Fixpoint scan_loop (step : scan_state -> ascii -> scan_next)
    (st : scan_state) (i : nat) (l : list ascii) : option nat :=
  match l with
  | [] => None
  | c :: l' =>
      match step st c with
      | Closed => Some i
      | Continue st' => scan_loop step st' (S i) l'
      end
  end.

Definition scan_from (step : scan_state -> ascii -> scan_next)
    (playerCode : string) (start : nat) : option nat :=
  scan_loop step scan_init start (drop start (bytes playerCode)).

(** *** extractFullDecryptFunction *)

Definition extractFullDecryptFunction (playerCode funcName : string) : result string :=
  match FindStringIndex (function_start_pattern funcName) playerCode with
  | None => Err ("could not find function definition: " +:+ funcName)
  | Some (b, e) =>
      match scan_from function_scan_byte playerCode (e - 1) with
      | Some i => Ok ("var " +:+ slice playerCode b (i + 1) +:+ ";")
      | None => Err ("could not find complete function definition: " +:+ funcName)
      end
  end.

(** *** extractHelperObject *)

(** The first non-empty FindString over the patterns, else empty. *)
Fixpoint first_match (patterns : list Regexp) (playerCode : string) : string :=
  match patterns with
  | [] => EmptyString
  | re :: rest =>
      let m := FindString re playerCode in
      if is_empty m then first_match rest playerCode else m
  end.

Definition helper_manual_match (playerCode helperName : string) : string :=
  match FindStringIndex (helper_start_pattern helperName) playerCode with
  | None => EmptyString
  | Some (b, e) =>
      match scan_from helper_scan_byte playerCode (e - 1) with
      | Some i => slice playerCode b (i + 1)
      | None => EmptyString
      end
  end.

Definition extractHelperObject (playerCode helperName : string) : result string :=
  if is_empty helperName then Ok EmptyString
  else
    let m := first_match (helper_patterns helperName) playerCode in
    let m := if is_empty m then helper_manual_match playerCode helperName else m in
    if is_empty m then Err ("could not find helper object: " +:+ helperName)
    else if negb (HasSuffix m ";") then Ok (m +:+ ";")
    else Ok m.

(** *** extractDecryptFunction *)

(** The loop over the patterns: the names taken from the first pattern
    whose match has at least two entries. *)
Fixpoint first_names (patterns : list Regexp) (playerCode : string) : string * string :=
  match patterns with
  | [] => (EmptyString, EmptyString)
  | re :: rest =>
      let matches := FindStringSubmatch re playerCode in
      if (2 <=? length matches)%nat then
        (at_ matches 1,
         if (3 <=? length matches)%nat then at_ matches 2 else EmptyString)
      else first_names rest playerCode
  end.

Definition extractDecryptFunction (playerCode : string) : result (string * string) :=
  let '(funcName, helperName) := first_names decrypt_patterns playerCode in
  if is_empty funcName then Err "could not find decryption function"
  else
    let helperName :=
      if is_empty helperName then
        let helperMatches :=
          FindStringSubmatch (helper_name_pattern funcName) playerCode in
        if (2 <=? length helperMatches)%nat then at_ helperMatches 1
        else helperName
      else helperName in
    Ok (funcName, helperName).

(** *** extractPlayerURL *)

Definition extractPlayerURL (htmlContent : string) : result string :=
  let matches := FindStringSubmatch player_url_pattern htmlContent in
  if (length matches <? 2)%nat then Err "could not find player URL in page"
  else
    let playerURL :=
      ReplaceAll (at_ matches 1) (String backslash_byte "/") "/" in
    Ok ("https://www.youtube.com" +:+ playerURL).

Section WithCollaborators.

Variable env : Env.

Definition USER_AGENT : string :=
  "Mozilla/5.0 (Macintosh; Intel Mac OS X 10_15_7) AppleWebKit/537.36 (KHTML, like Gecko) Chrome/120.0.0.0 Safari/537.36".

(** *** decryptSignature *)

Definition call_source (funcName signature : string) : string :=
  funcName +:+ "(" +:+ dq +:+ signature +:+ dq +:+ ")".

Definition decryptSignature (signature playerCode : string) : result string :=
  '(funcName, helperName) ← extractDecryptFunction playerCode;
  let helperCode := or_empty (extractHelperObject playerCode helperName) in
  funcCode ← extractFullDecryptFunction playerCode funcName;
  let vm := goja_New (goja env) in
  vm ←
    (if negb (is_empty helperCode) then
       let '(vm, r) := RunString (goja env) vm helperCode in
       _ ← wrap_err "failed to execute helper code: " r; Ok vm
     else Ok vm);
  let '(vm, r) := RunString (goja env) vm funcCode in
  _ ← wrap_err "failed to execute function code: " r;
  let '(vm, r) := RunString (goja env) vm (call_source funcName signature) in
  result ← wrap_err "failed to decrypt signature: " r;
  Ok (Value_String (goja env) result).

(** *** decipherURL *)

Definition decipherURL (signatureCipher playerCode : string) : result string :=
  params ← Url.ParseQuery signatureCipher;
  let baseURL := Url.Get params "url" in
  let signature := Url.Get params "s" in
  if is_empty baseURL then Err "no URL in signature cipher"
  else if is_empty signature then Ok baseURL
  else
    decryptedSig ← decryptSignature signature playerCode;
    let sigParam := Url.Get params "sp" in
    let sigParam := if is_empty sigParam then "signature" else sigParam in
    if Contains baseURL "?" then
      Ok (baseURL +:+ "&" +:+ sigParam +:+ "=" +:+ Url.QueryEscape decryptedSig)
    else
      Ok (baseURL +:+ "?" +:+ sigParam +:+ "=" +:+ Url.QueryEscape decryptedSig).

(** *** fetchMeta and fetchPlayerCode *)

Definition fetchMeta (video_id : string) : result string :=
  resp ← http_Do env {| req_url := URL_META +:+ video_id;
                        req_user_agent := USER_AGENT |};
  if negb (StatusCode resp =? 200)%Z then
    Err ("failed to fetch video page: status " +:+ itoa (StatusCode resp))
  else Ok (Body resp).

Definition fetchPlayerCode (playerURL : string) : result string :=
  resp ← http_Do env {| req_url := playerURL; req_user_agent := USER_AGENT |};
  if negb (StatusCode resp =? 200)%Z then
    Err ("failed to fetch player code: status " +:+ itoa (StatusCode resp))
  else Ok (Body resp).

(** *** parseMeta *)

(** The URL the loop body settles on for one descriptor. *)
Definition resolveURL (playerCode : string) (f : streamFormat) : string :=
  let videoURL := sf_URL f in
  if is_empty videoURL && negb (is_empty (sf_SignatureCipher f)) then
    match Url.ParseQuery (sf_SignatureCipher f) with
    | Ok cipherParams =>
        let videoURL := Url.Get cipherParams "url" in
        if negb (is_empty playerCode) then
          let signature := Url.Get cipherParams "s" in
          if negb (is_empty signature) then
            match decipherURL (sf_SignatureCipher f) playerCode with
            | Ok decipheredURL => decipheredURL
            | Err _ => videoURL
            end
          else videoURL
        else videoURL
    | Err _ => videoURL
    end
  else videoURL.

Definition quality_label (f : streamFormat) : string :=
  if is_empty (sf_Quality f) then
    if (0 <? sf_Height f)%Z then itoa (sf_Height f) +:+ "p" else "unknown"
  else sf_Quality f.

(** One turn of the loop over allFormats: the formats so far, with the
    descriptor's format appended unless it has no URL. *)
Definition add_format (playerCode : string) (formats : list Format)
    (f : streamFormat) : list Format :=
  let videoURL := resolveURL playerCode f in
  if is_empty videoURL then formats
  else
    formats ++ [ {| Itag := sf_Itag f; Video_type := sf_MimeType f;
                    Quality := quality_label f; Url := videoURL |} ].

(** fmt.Sprint of a string slice. *)
Fixpoint join_space (l : list string) : string :=
  match l with
  | [] => EmptyString
  | [x] => x
  | x :: rest => x +:+ " " +:+ join_space rest
  end.
Definition Sprint_strings (l : list string) : string :=
  "[" +:+ join_space l +:+ "]".

(** The player code parseMeta works with: empty unless the page names a
    player URL and fetching it succeeds. *)
Definition fetched_playerCode (htmlContent : string) : string :=
  match extractPlayerURL htmlContent with
  | Ok playerURL => or_empty (fetchPlayerCode playerURL)
  | Err _ => EmptyString
  end.

Definition parseMeta (video_id htmlContent : string) : result Video :=
  let matches := FindStringSubmatch player_response_pattern htmlContent in
  if (length matches <? 2)%nat then
    Err "could not find player response in page"
  else
    pr ← wrap_err "failed to parse player response: "
           (json_Unmarshal env (at_ matches 1));
    let thumbnailURL :=
      match vd_Thumbnails (VideoDetails pr) with
      | t :: _ => thumb_URL t
      | [] => EmptyString
      end in
    let playerCode := fetched_playerCode htmlContent in
    let allFormats :=
      sd_Formats (StreamingData pr) ++ sd_AdaptiveFormats (StreamingData pr) in
    let formats := foldl (add_format playerCode) [] allFormats in
    if (length formats =? 0)%nat then Err "no formats available"
    else
      Ok {| Id := video_id;
            Title := vd_Title (VideoDetails pr);
            Author := vd_Author (VideoDetails pr);
            Keywords := Sprint_strings (vd_Keywords (VideoDetails pr));
            Thumbnail_url := thumbnailURL;
            View_count := Atoi_value (vd_ViewCount (VideoDetails pr));
            Length_seconds := Atoi_value (vd_LengthSeconds (VideoDetails pr));
            Formats := formats;
            Filename := EmptyString |}.

(** *** extractId and Get *)

Definition extractId (input : string) : result string :=
  u ← url_Parse env input;
  let q := Url.Query u in
  let v := Url.Get q "v" in
  if negb (is_empty v) then Ok v else Err "no video ID".

Definition Get (video_id : string) : result Video :=
  let video_id :=
    if Contains video_id "youtube.com/watch?"
    then or_empty (extractId video_id)
    else video_id in
  query ← fetchMeta video_id;
  meta ← parseMeta video_id query;
  Ok meta.

End WithCollaborators.

End Youtube.

(** ** Package youtube, the rest *)

Module YoutubeRest.
Import GoStr Regexp Youtube.

(** [v.Formats[index]] for an int index: [None] is the run-time panic
    of an index below zero or past the end. *)
Definition at_index {A} (l : list A) (index : Z) : option A :=
  if (index <? 0)%Z then None else l !! Z.to_nat index.

(** *** GetExtension *)

(** The package variable Formats. *)
Definition Formats_var : list string := ["3gp"; "mp4"; "flv"; "webm"; "avi"].

(** [for _, f := range Formats] with its return inside, then the default. *)
Fixpoint first_contained (formats : list string) (video_type : string) : string :=
  match formats with
  | [] => "avi"
  | f :: rest =>
      if Contains video_type f then f else first_contained rest video_type
  end.

Definition GetExtension (v : Video) (index : Z) : option string :=
  match at_index (Formats v) index with
  | None => None
  | Some format => Some (first_contained Formats_var (Video_type format))
  end.

(** *** parseMeta in the older revision of the file *)

Section Older.

Variable env : Env.

(** The URL the loop body of the older parseMeta settles on. *)
Definition resolveURL_older (f : streamFormat) : string :=
  let videoURL := sf_URL f in
  if is_empty videoURL && negb (is_empty (sf_SignatureCipher f)) then
    match Url.ParseQuery (sf_SignatureCipher f) with
    | Ok cipherParams => Url.Get cipherParams "url"
    | Err _ => videoURL
    end
  else videoURL.

Definition add_format_older (formats : list Format) (f : streamFormat) : list Format :=
  let videoURL := resolveURL_older f in
  if is_empty videoURL then formats
  else
    formats ++ [ {| Itag := sf_Itag f; Video_type := sf_MimeType f;
                    Quality := quality_label f; Url := videoURL |} ].

(** parseMeta as the older revision of the file has it. *)
Definition parseMeta_older (video_id htmlContent : string) : result Video :=
  let matches := FindStringSubmatch player_response_pattern htmlContent in
  if (length matches <? 2)%nat then
    Err "could not find player response in page"
  else
    pr ← wrap_err "failed to parse player response: "
           (json_Unmarshal env (at_ matches 1));
    let thumbnailURL :=
      match vd_Thumbnails (VideoDetails pr) with
      | t :: _ => thumb_URL t
      | [] => EmptyString
      end in
    let allFormats :=
      sd_Formats (StreamingData pr) ++ sd_AdaptiveFormats (StreamingData pr) in
    let formats := foldl add_format_older [] allFormats in
    if (length formats =? 0)%nat
    then Err "no formats available (may require signature decryption)"
    else
      Ok {| Id := video_id;
            Title := vd_Title (VideoDetails pr);
            Author := vd_Author (VideoDetails pr);
            Keywords := Sprint_strings (vd_Keywords (VideoDetails pr));
            Thumbnail_url := thumbnailURL;
            View_count := Atoi_value (vd_ViewCount (VideoDetails pr));
            Length_seconds := Atoi_value (vd_LengthSeconds (VideoDetails pr));
            Formats := formats;
            Filename := EmptyString |}.
End Older.

(** *** Download and DownloadWithYtDlp *)

Record Option : Type := { Resume : bool; Rename : bool; Mp3 : bool }.

(** The files of the machine: the content under each existing name. *)
Abbreviation Files := (gmap string (list ascii)).

(** A request as Download builds it: the method, the URL and the two
    headers it sets. *)
Record TransferRequest : Type := {
  tr_method : string;
  tr_url : string;
  tr_user_agent : string;
  tr_referer : string
}.

(** What Download reads of a response: the status, the Content-Length
    header (empty when absent), the bytes that reading the body
    delivers and the error that ends the reading, if one does. *)
Record TransferResponse : Type := {
  tr_StatusCode : Z;
  tr_ContentLength : string;
  tr_Body : list ascii;
  tr_BodyError : option error
}.

(** The operating system and the network as the two download methods
    meet them: whether os.OpenFile and Seek refuse a name, after how
    many bytes a write to it fails, what the HTTP client answers
    (http.NewRequest and client.Do together), whether exec.LookPath
    finds a program and what running a command does to the files. *)
Record Host : Type := {
  os_OpenFile : string -> option error;
  file_Seek : string -> option error;
  file_Write : string -> option (nat * error);
  client_Do : TransferRequest -> result TransferResponse;
  exec_LookPath : string -> option error;
  cmd_Run : string -> list string -> Files -> Files * option error
}.

(** How a call ends: it returns its error value, or it panics. *)
Inductive status : Type :=
| Returned (err : option error)
| Panicked.

Definition set_Filename (video : Video) (filename : string) : Video :=
  {| Id := Id video; Title := Title video; Author := Author video;
     Keywords := Keywords video; Thumbnail_url := Thumbnail_url video;
     View_count := View_count video; Length_seconds := Length_seconds video;
     Formats := Formats video; Filename := filename |}.

Section WithHost.

Variable host : Host.

Definition transfer_request (method url : string) : TransferRequest :=
  {| tr_method := method; tr_url := url; tr_user_agent := USER_AGENT;
     tr_referer := "https://www.youtube.com/" |}.

(** [io.Copy(out, resp2.Body)]: the bytes that reach the file and the
    error returned. *)
Definition io_Copy (filename : string) (resp : TransferResponse)
  : list ascii * option error :=
  match file_Write host filename with
  | Some (n, e) =>
      if (n <? length (tr_Body resp))%nat then (take n (tr_Body resp), Some e)
      else (tr_Body resp, tr_BodyError resp)
  | None => (tr_Body resp, tr_BodyError resp)
  end.

(** Download, as a transformation of the files and of the Video behind
    the receiver. The progress and timing lines it prints are left
    out; the goroutine of printProgress only reads the file offset. *)
Definition Download (files : Files) (video : Video) (index : Z)
    (filename : string) (option : Option) : Files * Video * status :=
  match os_OpenFile host filename with
  | Some err => (files, video, Returned (Some err))
  | None =>
      let kept :=
        if Resume option then default [] (files !! filename) else [] in
      let files := <[filename := kept]> files in
      match (if Resume option then file_Seek host filename else None) with
      | Some err => (files, video, Returned (Some err))
      | None =>
          match at_index (Formats video) index with
          | None => (files, video, Panicked)
          | Some format =>
              let url := Url format in
              let video := set_Filename video filename in
              match client_Do host (transfer_request "HEAD" url) with
              | Err err => (files, video, Returned (Some err))
              | Ok resp =>
                  if (tr_StatusCode resp =? 403)%Z then
                    (files, video, Returned (Some "video forbidden"))
                  else if is_empty (tr_ContentLength resp) then
                    (files, video, Returned (Some "missing content length"))
                  else
                    match client_Do host (transfer_request "GET" url) with
                    | Err err => (files, video, Returned (Some err))
                    | Ok resp2 =>
                        let '(written, err) := io_Copy filename resp2 in
                        (<[filename := kept ++ written]> files, video,
                         Returned err)
                    end
              end
          end
      end
  end.

Definition checkYtDlpInstalled : option error :=
  match exec_LookPath host "yt-dlp" with
  | Some _ => Some "yt-dlp not found. Install it with: brew install yt-dlp"
  | None => None
  end.

Definition DownloadWithYtDlp (files : Files) (video : Video) (index : Z)
    (filename : string) (option : Option) : Files * Video * status :=
  match checkYtDlpInstalled with
  | Some err => (files, video, Returned (Some err))
  | None =>
      let videoURL := "https://www.youtube.com/watch?v=" +:+ Id video in
      match at_index (Formats video) index with
      | None => (files, video, Panicked)
      | Some format =>
          let args :=
            ["-f"; itoa (Itag format); "-o"; filename; videoURL] ++ ["--progress"] in
          let '(files, err) := cmd_Run host "yt-dlp" args files in
          match err with
          | Some err => (files, video, Returned (Some ("yt-dlp failed: " +:+ err)))
          | None => (files, set_Filename video filename, Returned None)
          end
      end
  end.

End WithHost.

End YoutubeRest.

(** ** Package main *)

Module Main.
Import GoStr Regexp Youtube YoutubeRest.
Open Scope re_scope.

(** *** downloadVideo *)

Section WithHost.

Variable host : Host.

(** downloadVideo works on its own copy of the Video and returns the
    error of the method that ran last; what it prints is left out. *)
Definition downloadVideo (files : Files) (video : Video) (index : Z)
    (option : Option) (useYtDlp : bool) : Files * status :=
  match GetExtension video index with
  | None => (files, Panicked)
  | Some ext =>
      let filename := Id video +:+ "." +:+ ext in
      let '(files, video, st) :=
        if useYtDlp then
          match DownloadWithYtDlp host files video index filename option with
          | (files, video, Returned (Some _)) =>
              Download host files video index filename option
          | r => r
          end
        else Download host files video index filename option in
      (files, st)
  end.

End WithHost.

(** *** parseVTT *)

(** What parseVTT takes from libraries without looking inside:
    os.ReadFile, and strings.TrimSpace with its Unicode white space. *)
Record Text : Type := {
  os_ReadFile : string -> result string;
  strings_TrimSpace : string -> string
}.

(** strings.HasPrefix. *)
Definition HasPrefix (s prefix : string) : bool :=
  has_prefix_b (bytes prefix) (bytes s).

(** [strings.Split(s, sep)] for a separator of one byte. *)
Definition Split (s : string) (sep : ascii) : list string :=
  of_bytes <$> Url.split_b sep [] (bytes s).

(** Whether strconv.Atoi returns a nil error: an optional sign, at
    least one digit, nothing else, and a value within 64 bits. *)
Definition Atoi_ok (s : string) : bool :=
  match bytes s with
  | [] => false
  | a :: l =>
      if Ascii.eqb a "-" then
        match l with
        | [] => false
        | _ => match digits_val 0 l with
               | Some n => (n <=? 2 ^ 63)%Z
               | None => false
               end
        end
      else if Ascii.eqb a "+" then
        match l with
        | [] => false
        | _ => match digits_val 0 l with
               | Some n => (n <? 2 ^ 63)%Z
               | None => false
               end
        end
      else
        match digits_val 0 (a :: l) with
        | Some n => (n <? 2 ^ 63)%Z
        | None => false
        end
  end.

Definition MatchString (re : Regexp) (s : string) : bool :=
  match find re s with Some _ => true | None => false end.

(** ReplaceAllString with the empty replacement, for a pattern that
    matches no empty text: the loop of the library copies what lies
    before a match and searches on from the end of the match. *)
Fixpoint remove_matches (fuel : nat) (re : Regexp) (pre rest : list ascii)
  : list ascii :=
  match fuel with
  | O => rest
  | S fuel' =>
      match search (expr re) (ngroups re) pre rest with
      | None => rest
      | Some (b, e, _) =>
          let skipped := (b - length pre)%nat in
          let matched := (e - length pre)%nat in
          take skipped rest
          ++ remove_matches fuel' re (reverse (take matched rest) ++ pre)
               (drop matched rest)
      end
  end.

Definition ReplaceAllString_by_empty (re : Regexp) (src : string) : string :=
  of_bytes (remove_matches (S (String.length src)) re [] (bytes src)).

Definition digit : re := Cls is_digit.

(** [\d{2}:\d{2}:\d{2}\.\d{3}] *)
Definition clock : re :=
  digit >>> digit >>> Lit ":" >>> digit >>> digit >>> Lit ":" >>>
  digit >>> digit >>> Lit "." >>> digit >>> digit >>> digit.

Definition timestamp_pattern : Regexp :=
  MustCompile (clock >>> Cls cls_space >>> Lit "-->" >>> Cls cls_space >>> clock) 0.

Definition tag_pattern : Regexp :=
  MustCompile (Lit "<" >>> star (cls_not ">") >>> Lit ">") 0.

Section WithText.

Variable text : Text.

(** The loop body up to the test of cleanLine: the text of a line that
    is kept, [None] where the body says continue. *)
Definition clean_line (line : string) : option string :=
  let line := strings_TrimSpace text line in
  if is_empty line || String.eqb line "WEBVTT" || HasPrefix line "NOTE" then None
  else if MatchString timestamp_pattern line then None
  else if Atoi_ok line then None
  else
    let cleanLine := ReplaceAllString_by_empty tag_pattern line in
    let cleanLine := strings_TrimSpace text cleanLine in
    if is_empty cleanLine then None else Some cleanLine.

(** One turn of the loop, on textBuilder and seenLines. *)
Definition parseVTT_line (st : string * gmap string bool) (line : string)
  : string * gmap string bool :=
  match clean_line line with
  | None => st
  | Some cleanLine =>
      if negb (default false (st.2 !! cleanLine))
      then (st.1 +:+ (cleanLine +:+ " "), <[cleanLine := true]> st.2)
      else st
  end.

Definition parseVTT (filePath : string) : result string :=
  content ← os_ReadFile text filePath;
  let lines := Split content newline_byte in
  Ok (foldl parseVTT_line (EmptyString, ∅) lines).1.

End WithText.

End Main.

(** ** Sample collaborators

    Concrete collaborators for the examples: a script runtime that logs
    what it is given and answers from a table, a server that always
    answers with one page, and a decoder that knows one manifest. *)

Module Sample.
Import GoStr Regexp Youtube.

Inductive JsValue : Type :=
| JsString (s : string)
| JsNumber (z : Z)
| JsUndefined.

Definition js_String (v : JsValue) : string :=
  match v with
  | JsString s => s
  | JsNumber z => itoa z
  | JsUndefined => "undefined"
  end.

Definition js_is_string (v : JsValue) : bool :=
  match v with JsString _ => true | _ => false end.

(** A runtime whose state is the list of sources run so far. *)
Definition logging_goja (script : list string -> string -> result JsValue) : Goja :=
  {| VM := list string;
     Value := JsValue;
     goja_New := [];
     RunString := fun vm src => (vm ++ [src], script vm src);
     Value_String := js_String;
     Value_is_string := js_is_string |}.

(** Every source evaluates to undefined, except the calls of [table]. *)
Definition table_script (table : list (string * result JsValue))
    (_ : list string) (src : string) : result JsValue :=
  default (Ok JsUndefined)
    (snd <$> head (filter (fun kv => String.eqb kv.1 src = true) table)).

Definition decode_one (text : string) (pr : playerResponse) (s : string)
  : result playerResponse :=
  if String.eqb s text then Ok pr else Err "unexpected end of JSON input".

Definition is_control (a : ascii) : bool :=
  let n := nat_of_ascii a in (n <? 32)%nat || (n =? 127)%nat.

(** A stand-in for url.Parse: it drops the fragment, refuses control
    bytes and takes the query after the first question mark; the other
    checks of url.Parse are not reproduced. *)
Definition parse_url (raw : string) : result Url.URL :=
  let u := (Url.cut_b "#" (bytes raw)).1 in
  if existsb is_control u then Err "net/url: invalid control character in URL"
  else Ok {| Url.RawQuery := of_bytes (Url.cut_b "?" u).2 |}.

Definition make_env (script : list string -> string -> result JsValue)
    (http : Request -> result Response)
    (decode : string -> result playerResponse) : Env :=
  {| goja := logging_goja script; http_Do := http;
     json_Unmarshal := decode; url_Parse := parse_url |}.

Definition descriptor (itag : Z) (url cipher : string) : streamFormat :=
  {| sf_Itag := itag; sf_URL := url; sf_SignatureCipher := cipher;
     sf_MimeType := "video/mp4"; sf_Quality := EmptyString;
     sf_Width := 640; sf_Height := 360; sf_Bitrate := 500000 |}.

Definition details : videoDetails :=
  {| vd_VideoID := "abc"; vd_Title := "t"; vd_LengthSeconds := "12";
     vd_Keywords := ["k1"; "k2"]; vd_ViewCount := "7"; vd_Author := "au";
     vd_Thumbnails := [] |}.

Definition manifest (progressive adaptive : list streamFormat) : playerResponse :=
  {| VideoDetails := details;
     StreamingData := {| sd_Formats := progressive;
                         sd_AdaptiveFormats := adaptive |} |}.

(** A page whose manifest text is [{m}] and which names a player URL. *)
Definition page : string :=
  "<script>var ytInitialPlayerResponse = {m};</script>" +:+
  dq +:+ "jsUrl" +:+ dq +:+ ":" +:+ dq +:+ "/s/player/1/base.js" +:+ dq.

(** A script blob with a descrambling function [Xy] and no helper. *)
Definition player_code : string :=
  "var q=1;Xy=function(a){a=a.split(" +:+ empty_literal +:+
  ");return a.reverse().join(" +:+ empty_literal +:+ ")};var z=2;".

(** What extractFullDecryptFunction makes of [Xy] in that blob. *)
Definition function_fragment : string :=
  "var Xy=function(a){a=a.split(" +:+ empty_literal +:+
  ");return a.reverse().join(" +:+ empty_literal +:+ ")};".

(** A script blob whose descrambling function uses the helper [Yz]. *)
Definition player_code_with_helper : string :=
  "var Yz={};Xy=function(a){a=a.split(" +:+ empty_literal +:+
  ");Yz.ab(a,1);return a.join(" +:+ empty_literal +:+ ")};".

Definition function_fragment_with_helper : string :=
  "var Xy=function(a){a=a.split(" +:+ empty_literal +:+
  ");Yz.ab(a,1);return a.join(" +:+ empty_literal +:+ ")};".

(** A function whose body holds a closing brace inside a string, an
    escaped quote and a nested block. *)
Definition tricky_player_code : string :=
  "var q=1;Xy=function(a){var b=" +:+ dq +:+ "}" +:+ String backslash_byte dq
  +:+ "{" +:+ dq +:+ ";if(b){a=a.split(" +:+ empty_literal +:+ ")}return a};var z={};".

Definition tricky_fragment : string :=
  "var Xy=function(a){var b=" +:+ dq +:+ "}" +:+ String backslash_byte dq
  +:+ "{" +:+ dq +:+ ";if(b){a=a.split(" +:+ empty_literal +:+ ")}return a};".

(** Helper objects: one with a nested function, one with a closing
    brace inside a string. *)
Definition nested_helper_code : string :=
  "var Yz={ab:function(a){a.reverse()}};".

Definition quoted_helper_code : string :=
  "var Yz={s:" +:+ dq +:+ "}" +:+ dq +:+ "};".


Definition format (itag : Z) (url : string) : Format :=
  {| Itag := itag; Video_type := "video/mp4"; Quality := "360p"; Url := url |}.

(** Two progressive descriptors (a direct URL, a cipher without
    signature) and an adaptive one; between them a descriptor with
    neither URL nor cipher. *)
Definition mixed_manifest : playerResponse :=
  manifest
    [descriptor 18 "http://x.test/a" EmptyString;
     descriptor 5 EmptyString EmptyString;
     descriptor 22 EmptyString "url=http%3A%2F%2Fx.test%2Fb"]
    [descriptor 137 "http://x.test/c" EmptyString].

Definition direct_manifest : playerResponse :=
  manifest
    [descriptor 18 "http://x.test/a" EmptyString;
     descriptor 22 EmptyString "url=http%3A%2F%2Fx.test%2Fb"]
    [descriptor 137 "http://x.test/c" EmptyString].

Definition ciphered : streamFormat :=
  descriptor 18 EmptyString "url=http%3A%2F%2Fx.test%2Fv&s=AABB&sp=sig".

Definition ciphered_manifest : playerResponse := manifest [ciphered] [].

(** A server with the player script at the URL the page names and the
    page at every watch URL. *)
Definition site (playerCode : string) (req : Request) : result Response :=
  if String.eqb (req_url req) "https://www.youtube.com/s/player/1/base.js"
  then Ok {| StatusCode := 200; Body := playerCode |}
  else if String.prefix URL_META (req_url req)
  then Ok {| StatusCode := 200; Body := page |}
  else Ok {| StatusCode := 404; Body := EmptyString |}.

Definition env_of (script : list string -> string -> result JsValue)
    (playerCode : string) (pr : playerResponse) : Env :=
  make_env script (site playerCode) (decode_one "{m}" pr).

(** The sandbox maps AABB to BBAA. *)
Definition swap_script : list string -> string -> result JsValue :=
  table_script [(call_source "Xy" "AABB", Ok (JsString "BBAA"))].

(** The descrambling function returns a number. *)
Definition number_script : list string -> string -> result JsValue :=
  table_script [(call_source "Xy" "AABB", Ok (JsNumber 42))].

(** The call answers with the sources the runtime was given before it. *)
Definition echo_script (vm : list string) (src : string) : result JsValue :=
  if String.eqb src (call_source "Xy" "AABB")
  then Ok (JsString (String.concat "|" vm))
  else Ok JsUndefined.

End Sample.

(** ** Sample collaborators of the rest

    A machine and a server for the downloads, a caption file with a
    stand-in for strings.TrimSpace, and a script blob written with
    blanks. *)

Module SampleRest.
Import GoStr Regexp Youtube YoutubeRest Main.

(** A server with four bytes at one URL; every other URL is forbidden. *)
Definition media_server (req : TransferRequest) : result TransferResponse :=
  if String.eqb (tr_url req) "http://x.test/a" then
    Ok {| tr_StatusCode := 200; tr_ContentLength := "4";
          tr_Body := if String.eqb (tr_method req) "GET" then bytes "DATA" else [];
          tr_BodyError := None |}
  else
    Ok {| tr_StatusCode := 403; tr_ContentLength := EmptyString;
          tr_Body := []; tr_BodyError := None |}.

(** A machine without yt-dlp whose files open and take every write. *)
Definition plain_host : Host :=
  {| os_OpenFile := fun _ => None;
     file_Seek := fun _ => None;
     file_Write := fun _ => None;
     client_Do := media_server;
     exec_LookPath := fun _ => Some "executable file not found in $PATH";
     cmd_Run := fun _ _ files => (files, Some "exit status 1") |}.

Definition video : Video :=
  {| Id := "abc"; Title := "t"; Author := "au"; Keywords := "[]";
     Thumbnail_url := EmptyString; View_count := 7; Length_seconds := 12;
     Formats := [ {| Itag := 18; Video_type := "video/mp4"; Quality := "360p";
                     Url := "http://x.test/a" |};
                  {| Itag := 22; Video_type := "video/webm"; Quality := "720p";
                     Url := "http://x.test/gone" |} ];
     Filename := EmptyString |}.

Definition resume : Option := {| Resume := true; Rename := false; Mp3 := false |}.
Definition no_resume : Option := {| Resume := false; Rename := false; Mp3 := false |}.

(** A file left by an interrupted download. *)
Definition partial_files : Files := {[ "abc.mp4" := bytes "DA" ]}.

(** The white space of ASCII. *)
Definition ascii_space (a : ascii) : bool :=
  let n := nat_of_ascii a in
  ((9 <=? n)%nat && (n <=? 13)%nat) || (n =? 32)%nat.

Fixpoint drop_space (l : list ascii) : list ascii :=
  match l with
  | a :: l' => if ascii_space a then drop_space l' else l
  | [] => []
  end.

(** A stand-in for strings.TrimSpace that knows the white space of
    ASCII only. *)
Definition trim_ascii (s : string) : string :=
  of_bytes (reverse (drop_space (reverse (drop_space (bytes s))))).

Definition nl : string := String newline_byte EmptyString.

Definition captions : string :=
  "WEBVTT" +:+ nl +:+ nl +:+
  "1" +:+ nl +:+ "00:00:01.000 --> 00:00:02.000" +:+ nl +:+
  "<c>Hello</c> world" +:+ nl +:+ nl +:+
  "2" +:+ nl +:+ "00:00:02.000 --> 00:00:03.000" +:+ nl +:+
  "  next <b>line" +:+ nl +:+ nl +:+
  "3" +:+ nl +:+ "00:00:03.000 --> 00:00:04.000" +:+ nl +:+
  "Hello world" +:+ nl.

Definition text : Text :=
  {| os_ReadFile := fun filePath =>
       if String.eqb filePath "abc.en.vtt" then Ok captions
       else Err ("open " +:+ filePath +:+ ": no such file or directory");
     strings_TrimSpace := trim_ascii |}.

(** The descrambling function of [Sample.player_code], written with
    blanks around the equals sign. *)
Definition spaced_player_code : string :=
  "var q=1;Xy = function(a){a=a.split(" +:+ empty_literal +:+
  ");return a.reverse().join(" +:+ empty_literal +:+ ")};var z=2;".







(** A marker whose object is empty, and one whose object takes two
    lines. *)
Definition empty_object_page : string := "var ytInitialPlayerResponse = {};".
Definition two_line_page : string :=
  "var ytInitialPlayerResponse = {" +:+ String newline_byte EmptyString +:+
  dq +:+ "videoDetails" +:+ dq +:+ ":{}};".

(** Valid JSON with a number where the structure has an object. *)
Definition misshapen_text : string :=
  "{" +:+ dq +:+ "videoDetails" +:+ dq +:+ ":5}".
Definition misshapen_page : string :=
  "var ytInitialPlayerResponse = " +:+ misshapen_text +:+ ";".

Definition type_error : error :=
  "json: cannot unmarshal number into Go struct field playerResponse.videoDetails".

(** A stand-in for json.Unmarshal into playerResponse that answers as
    the library does on the texts of the examples: it refuses what is
    not valid JSON, and the number in the place of videoDetails. *)
Definition typed_decoder (pr : playerResponse) (s : string) : result playerResponse :=
  if negb (Json.valid_json s) then Err "invalid character in JSON text"
  else if String.eqb s misshapen_text then Err type_error
  else Ok pr.

Definition typed_env : Env :=
  Sample.make_env Sample.swap_script (Sample.site Sample.player_code)
    (typed_decoder Sample.direct_manifest).

End SampleRest.

(** ** Vocabulary of the properties *)

Module Props.
Import GoStr Regexp Youtube.

(** [fs !! i] is the first format of [fs] tagged [itag]. *)
Definition first_with_itag (fs : list Format) (itag : Z) (i : nat) (f : Format) : Prop :=
  fs !! i = Some f /\ Itag f = itag /\
  forall j g, (j < i)%nat -> fs !! j = Some g -> Itag g <> itag.

(** The manifest text of a page: what the marker pattern captures. *)
Definition manifest_text (htmlContent : string) : option string :=
  let matches := FindStringSubmatch player_response_pattern htmlContent in
  if (length matches <? 2)%nat then None else Some (at_ matches 1).

Definition NOT_FOUND : error := "could not find player response in page".
Definition MALFORMED : string := "failed to parse player response: ".
Definition NO_FORMATS : error := "no formats available".

(** The format parseMeta makes of a descriptor, if it keeps it. *)
Definition format_of (env : Env) (playerCode : string) (f : streamFormat) : option Format :=
  let videoURL := resolveURL env playerCode f in
  if is_empty videoURL then None
  else Some {| Itag := sf_Itag f; Video_type := sf_MimeType f;
               Quality := quality_label f; Url := videoURL |}.

Definition to_format (env : Env) (playerCode : string) (f : streamFormat) : Format :=
  {| Itag := sf_Itag f; Video_type := sf_MimeType f;
     Quality := quality_label f; Url := resolveURL env playerCode f |}.

(** [name] stands in [playerCode] right before optional blanks, an equals
    sign, optional blanks and the text [function(]. *)
Definition bound_to_function (playerCode name : string) : Prop :=
  exists before w1 w2 after,
    bytes playerCode
    = before ++ bytes name ++ w1 ++ bytes "=" ++ w2 ++ bytes "function(" ++ after /\
    Forall (fun a => cls_space a = true) w1 /\
    Forall (fun a => cls_space a = true) w2.

Definition NO_DECRYPT_FUNCTION : error := "could not find decryption function".

(** The structural scan as the specification words it: a brace depth, a
    flag for being inside a quoted string (here with the quote that
    opened it) and an escape flag.  The byte after a backslash is literal;
    a backslash is no structural signal itself; a quote opens a string or
    closes the one its kind opened; a brace changes the depth only
    outside strings. *)
Inductive lex_mode : Type :=
| Code
| Quoted (q : ascii).

Record lexer : Type := { mode : lex_mode; escaped : bool; depth : Z }.

Definition lexer_init : lexer := {| mode := Code; escaped := false; depth := 0 |}.

Definition lex_byte (s : lexer) (c : ascii) : lexer :=
  if escaped s then {| mode := mode s; escaped := false; depth := depth s |}
  else if Ascii.eqb c backslash_byte then
    {| mode := mode s; escaped := true; depth := depth s |}
  else
    match mode s with
    | Quoted q =>
        if Ascii.eqb c q
        then {| mode := Code; escaped := false; depth := depth s |}
        else s
    | Code =>
        if is_quote c then {| mode := Quoted c; escaped := false; depth := depth s |}
        else if Ascii.eqb c "{" then
          {| mode := Code; escaped := false; depth := depth s + 1 |}
        else if Ascii.eqb c "}" then
          {| mode := Code; escaped := false; depth := depth s - 1 |}
        else s
    end.

(** The depth after the bytes [l], from nothing open. *)
Definition brace_depth (l : list ascii) : Z := depth (foldl lex_byte lexer_init l).

(** [l !! k] is the brace that first brings the depth back to zero. *)
Definition closes_at (l : list ascii) (k : nat) : Prop :=
  l !! k = Some "}"%char /\
  brace_depth (take (S k) l) = 0%Z /\
  forall j, (j < k)%nat -> (1 <= brace_depth (take (S j) l))%Z.

(** The loop's variables stand for the state of the specification's
    scanner. *)
Definition represents (st : scan_state) (s : lexer) : Prop :=
  braceCount st = depth s /\
  escapeNext st = escaped s /\
  match mode s with
  | Code => inString st = false
  | Quoted q => inString st = true /\ stringChar st = q /\ is_quote q = true
  end.

(** The manifest marker in the words of the specification: the
    ytInitialPlayerResponse assignment, a brace-delimited object and the
    statement separator. *)
Definition has_marker (htmlContent : string) : Prop :=
  exists before body after,
    bytes htmlContent
    = before ++ bytes "var ytInitialPlayerResponse = {" ++ body
             ++ bytes "};" ++ after.

(** The marker as the pattern of parseMeta takes it: between the braces
    there is at least one byte, and no line break. *)
Definition has_one_line_marker (htmlContent : string) : Prop :=
  exists before body after,
    bytes htmlContent
    = before ++ bytes "var ytInitialPlayerResponse = {" ++ body
             ++ bytes "};" ++ after /\
    body <> [] /\ Forall (fun c => c <> newline_byte) body.

(** The depth never comes back to zero within [l]. *)
Definition never_closes (l : list ascii) : Prop :=
  forall j, (j < length l)%nat -> (1 <= brace_depth (take (S j) l))%Z.

Definition resolvable (env : Env) (playerCode : string) (f : streamFormat) : Prop :=
  resolveURL env playerCode f <> EmptyString.

#[global] Instance resolvable_dec env playerCode f :
  Decision (resolvable env playerCode f).
Proof. unfold resolvable. apply _. Defined.

(** The formats a resolution hands back: those of the video, none on an
    error. *)
Definition returned_formats (r : result Video) : list Format :=
  match r with Ok v => Formats v | Err _ => [] end.




End Props.

(** ** Vocabulary of the further properties *)

Module RestProps.
Import GoStr Regexp Youtube Props YoutubeRest Main.

(** What a format shows besides its URL. *)
Definition label (g : Format) : Z * string * string := (Itag g, Video_type g, Quality g).

(** An error with the older revision's longer text for no formats. *)
Definition older_error (e : error) : error :=
  if String.eqb e NO_FORMATS
  then "no formats available (may require signature decryption)" else e.

Definition format_of_older (f : streamFormat) : option Format :=
  let videoURL := resolveURL_older f in
  if is_empty videoURL then None
  else Some {| Itag := sf_Itag f; Video_type := sf_MimeType f;
               Quality := quality_label f; Url := videoURL |}.



(** The page names a player script: the jsUrl key, a path under
    /s/player/ that is not empty and holds no double quote, and the closing
    quote. *)
Definition has_player_url (htmlContent : string) : Prop :=
  exists before path after,
    bytes htmlContent
    = before ++ bytes (dq +:+ "jsUrl" +:+ dq +:+ ":" +:+ dq) ++ bytes "/s/player/"
             ++ path ++ bytes dq ++ after /\
    path <> [] /\ Forall (fun c => c <> quote_byte) path.

Definition NO_PLAYER_URL : error := "could not find player URL in page".

(** The blob holds a definition header of [name]: the name, [=function(],
    a non-empty alphanumeric parameter, [)] and an opening brace. *)
Definition has_function_header (playerCode name : string) : Prop :=
  exists before params after,
    bytes playerCode
    = before ++ bytes name ++ bytes "=function(" ++ params ++ bytes "){" ++ after /\
    params <> [] /\ Forall (fun a => is_alnum a = true) params.


(** The content Download starts from: what the file held, when resuming. *)
Definition kept (files : Files) (filename : string) (option : Option) : list ascii :=
  if Resume option then default [] (files !! filename) else [].

(** The body is served: the index is within the formats, the HEAD
    request passes and the GET request is answered. *)
Definition served (host : Host) (video : Video) (index : Z)
    (resp : TransferResponse) : Prop :=
  exists format head,
    at_index (Formats video) index = Some format /\
    client_Do host (transfer_request "HEAD" (Url format)) = Ok head /\
    tr_StatusCode head <> 403%Z /\
    tr_ContentLength head <> EmptyString /\
    client_Do host (transfer_request "GET" (Url format)) = Ok resp.

Definition fresh (option : Option) : Option :=
  {| Resume := false; Rename := Rename option; Mp3 := Mp3 option |}.

(** Only the files and the way the call ends. *)
Definition files_and_status (r : Files * Video * status) : Files * status :=
  (r.1.1, r.2).

(** The arguments DownloadWithYtDlp hands to yt-dlp. *)
Definition ytdlp_args (video : Video) (format : Format) (filename : string)
  : list string :=
  ["-f"; itoa (Itag format); "-o"; filename;
   "https://www.youtube.com/watch?v=" +:+ Id video; "--progress"].

(** No tag is left: no [<] with a [>] anywhere after it. *)
Definition tag_free (l : list ascii) : Prop :=
  forall a b c, l <> a ++ "<"%char :: b ++ ">"%char :: c.

(** The elements of a list, each at its first place only. *)
Fixpoint first_occurrences (l : list string) : list string :=
  match l with
  | [] => []
  | x :: l' => x :: filter (fun y => y <> x) (first_occurrences l')
  end.

(** The text the builder holds after these pieces. *)
Fixpoint joined (pieces : list string) : string :=
  match pieces with
  | [] => EmptyString
  | p :: rest => p +:+ " " +:+ joined rest
  end.

(** strings.TrimSpace returns a part of its argument. *)
Definition trims (text : Text) : Prop :=
  forall s, exists a b, bytes s = a ++ bytes (strings_TrimSpace text s) ++ b.

(** The state of the loop after the pieces [P]. *)
Definition holds (P : list string) (st : string * gmap string bool) : Prop :=
  st.1 = joined P /\
  forall x, default false (st.2 !! x) = true <-> x ∈ P.

End RestProps.

(** * Properties *)

Import GoStr Regexp Youtube Props.

(** ** Basic facts *)

Lemma is_empty_true (s : string) : is_empty s = true <-> s = EmptyString.
Proof. destruct s; simpl; split; congruence. Qed.

Lemma is_empty_false (s : string) : is_empty s = false <-> s <> EmptyString.
Proof. destruct s; simpl; split; congruence. Qed.

(** ** IndexByItag *)

Section IndexByItagFacts.

Lemma IndexByItag_from_found (fs : list Format) (itag : Z) :
  forall i0 i f, first_with_itag fs itag i f ->
    IndexByItag_from i0 fs itag = ((i0 + i)%nat, slot_ptr (i0 + i)).
Proof.
  induction fs as [|g fs IH]; intros i0 i f (Hi & Htag & Hfirst).
  - discriminate.
  - simpl. destruct i as [|i].
    + injection Hi as ->. rewrite (proj2 (Z.eqb_eq _ _) Htag).
      by rewrite Nat.add_0_r.
    + destruct (Z.eqb_spec (Itag g) itag) as [Heq|_].
      * exfalso. apply (Hfirst 0%nat g); [lia | done | done].
      * rewrite (IH (S i0) i f); [by rewrite Nat.add_succ_r |].
        repeat split; [done | done |].
        intros j h Hj Hh. apply (Hfirst (S j) h); [lia | done].
Qed.

Lemma IndexByItag_from_none (fs : list Format) (itag : Z) :
  forall i0, (forall f, f ∈ fs -> Itag f <> itag) ->
    IndexByItag_from i0 fs itag = (0%nat, nil_ptr).
Proof.
  induction fs as [|g fs IH]; intros i0 Hnone; [done |].
  simpl. destruct (Z.eqb_spec (Itag g) itag) as [Heq|_].
  - exfalso. apply (Hnone g); [left | done].
  - apply IH. intros f Hf. apply Hnone. by right.
Qed.

Lemma first_with_itag_dec (fs : list Format) (itag : Z) :
  (exists i f, first_with_itag fs itag i f) \/
  (forall f, f ∈ fs -> Itag f <> itag).
Proof.
  induction fs as [|g fs IH].
  - right. intros f Hf. inversion Hf.
  - destruct (Z.eq_dec (Itag g) itag) as [Heq|Hne].
    + left. exists 0%nat, g. repeat split; [done |]. intros j h Hj. lia.
    + destruct IH as [(i & f & Hi & Htag & Hfirst)|Hnone].
      * left. exists (S i), f. repeat split; [done | done |].
        intros [|j] h Hj Hh; [by injection Hh as <- |].
        apply (Hfirst j h); [lia | done].
      * right. intros f Hf. inversion Hf; subst; [done | by apply Hnone].
Qed.

End IndexByItagFacts.

(** C9. IndexByItag returns the index and the address of the first format
    tagged [itag]; when no format is tagged [itag] it returns index 0 with the
    nil pointer; one of the two always applies; and a video whose first
    format matches gets the same index, 0, as a video without a match, so
    only the pointer tells the two apart. *)
Theorem IndexByItag_first_match_or_zero_nil (v : Video) (itag : Z) :
  (forall i f, first_with_itag (Formats v) itag i f ->
     IndexByItag v itag = (i, slot_ptr i) /\ deref v (slot_ptr i) = Some f) /\
  ((forall f, f ∈ Formats v -> Itag f <> itag) ->
     IndexByItag v itag = (0%nat, nil_ptr)) /\
  ((exists i f, first_with_itag (Formats v) itag i f) \/
   (forall f, f ∈ Formats v -> Itag f <> itag)) /\
  (forall f v', first_with_itag (Formats v) itag 0 f ->
     (forall g, g ∈ Formats v' -> Itag g <> itag) ->
     (IndexByItag v itag).1 = (IndexByItag v' itag).1 /\
     (IndexByItag v itag).2 <> (IndexByItag v' itag).2).
Proof.
  split; [| split; [| split]].
  - intros i f Hfirst. split.
    + unfold IndexByItag. by rewrite (IndexByItag_from_found _ _ 0 i f).
    + by destruct Hfirst.
  - intros Hnone. by apply IndexByItag_from_none.
  - apply first_with_itag_dec.
  - intros f v' Hfirst Hnone. unfold IndexByItag.
    rewrite (IndexByItag_from_found _ _ 0 0 f) by done.
    by rewrite IndexByItag_from_none.
Qed.

Example IndexByItag_sample :
  let v := {| Id := "abc"; Title := "t"; Author := "au"; Keywords := "[]";
              Thumbnail_url := EmptyString; View_count := 0; Length_seconds := 0;
              Formats := [Sample.format 18 "u1"; Sample.format 22 "u2";
                          Sample.format 22 "u3"];
              Filename := EmptyString |} in
  IndexByItag v 22 = (1%nat, slot_ptr 1) /\
  IndexByItag v 18 = (0%nat, slot_ptr 0) /\
  IndexByItag v 99 = (0%nat, nil_ptr).
Proof. repeat split. Qed.

(** ** parseMeta *)

Section ParseMetaFacts.

Variable env : Env.

Lemma foldl_add_format (playerCode : string) (l : list streamFormat) :
  forall acc, foldl (add_format env playerCode) acc l
              = acc ++ omap (format_of env playerCode) l.
Proof.
  induction l as [|f l IH]; intros acc; simpl.
  - by rewrite app_nil_r.
  - rewrite IH. unfold add_format, format_of.
    destruct (is_empty (resolveURL env playerCode f)); [done |].
    by rewrite <- app_assoc.
Qed.

Lemma parseMeta_not_found (video_id htmlContent : string) :
  manifest_text htmlContent = None ->
  parseMeta env video_id htmlContent = Err NOT_FOUND.
Proof.
  unfold manifest_text, parseMeta. intros H.
  destruct (length (FindStringSubmatch player_response_pattern htmlContent) <? 2)%nat;
    [done | discriminate].
Qed.

Lemma parseMeta_malformed (video_id htmlContent txt : string) (e : error) :
  manifest_text htmlContent = Some txt ->
  json_Unmarshal env txt = Err e ->
  parseMeta env video_id htmlContent = Err (MALFORMED +:+ e).
Proof.
  unfold manifest_text, parseMeta. intros H He.
  destruct (length (FindStringSubmatch player_response_pattern htmlContent) <? 2)%nat;
    [discriminate |].
  injection H as ->. by rewrite He.
Qed.

(** Once the manifest is decoded, the outcome is decided by the formats
    kept from the two groups, progressive first. *)
Lemma parseMeta_decoded (video_id htmlContent txt : string) (pr : playerResponse) :
  manifest_text htmlContent = Some txt ->
  json_Unmarshal env txt = Ok pr ->
  let playerCode := fetched_playerCode env htmlContent in
  let fs := omap (format_of env playerCode) (sd_Formats (StreamingData pr))
            ++ omap (format_of env playerCode) (sd_AdaptiveFormats (StreamingData pr)) in
  (fs = [] -> parseMeta env video_id htmlContent = Err NO_FORMATS) /\
  (fs <> [] -> exists v, parseMeta env video_id htmlContent = Ok v /\
                         Formats v = fs /\ Id v = video_id).
Proof.
  intros H Hpr playerCode fs. revert H. unfold manifest_text, parseMeta.
  destruct (length (FindStringSubmatch player_response_pattern htmlContent) <? 2)%nat;
    [discriminate |].
  intros [= ->]. rewrite Hpr. simpl.
  rewrite foldl_add_format, omap_app. simpl. fold playerCode. fold fs.
  destruct fs as [|f fs']; simpl.
  - split; [done | congruence].
  - split; [discriminate |]. intros _. eexists. split; [reflexivity |]. done.
Qed.

Lemma format_of_resolvable (playerCode : string) (f : streamFormat) :
  resolvable env playerCode f ->
  format_of env playerCode f = Some (to_format env playerCode f).
Proof.
  unfold resolvable, format_of, to_format. intros H.
  by rewrite (proj2 (is_empty_false _) H).
Qed.

Lemma format_of_unresolvable (playerCode : string) (f : streamFormat) :
  ~ resolvable env playerCode f -> format_of env playerCode f = None.
Proof.
  unfold resolvable, format_of. intros H.
  destruct (is_empty (resolveURL env playerCode f)) eqn:E; [done |].
  by apply is_empty_false in E.
Qed.

(** The kept formats are those of the resolvable descriptors, in order. *)
Lemma omap_format_of (playerCode : string) (l : list streamFormat) :
  omap (format_of env playerCode) l
  = to_format env playerCode <$> filter (resolvable env playerCode) l.
Proof.
  induction l as [|f l IH]; [done |].
  change (omap (format_of env playerCode) (f :: l))
    with (match format_of env playerCode f with
          | Some g => g :: omap (format_of env playerCode) l
          | None => omap (format_of env playerCode) l
          end).
  destruct (decide (resolvable env playerCode f)) as [Hr|Hr].
  - rewrite format_of_resolvable, filter_cons_True by done.
    by rewrite fmap_cons, IH.
  - by rewrite format_of_unresolvable, filter_cons_False by done.
Qed.

Lemma filter_all_resolvable (playerCode : string) (l : list streamFormat) :
  Forall (resolvable env playerCode) l ->
  filter (resolvable env playerCode) l = l.
Proof.
  induction 1 as [|f l Hf _ IH]; [done |].
  by rewrite filter_cons_True, IH.
Qed.

Lemma parseMeta_Ok_inv (video_id htmlContent : string) (v : Video) :
  parseMeta env video_id htmlContent = Ok v ->
  exists txt pr,
    manifest_text htmlContent = Some txt /\
    json_Unmarshal env txt = Ok pr /\
    Formats v
    = omap (format_of env (fetched_playerCode env htmlContent))
           (sd_Formats (StreamingData pr))
      ++ omap (format_of env (fetched_playerCode env htmlContent))
              (sd_AdaptiveFormats (StreamingData pr)) /\
    Formats v <> [].
Proof.
  intros Hv.
  destruct (manifest_text htmlContent) as [txt|] eqn:Ht;
    [| by rewrite parseMeta_not_found in Hv].
  destruct (json_Unmarshal env txt) as [pr|e] eqn:Hpr;
    [| by rewrite (parseMeta_malformed _ _ txt e) in Hv].
  destruct (parseMeta_decoded video_id _ _ _ Ht Hpr) as [Hnil Hcons].
  exists txt, pr. split; [done |]. split; [done |].
  match type of Hnil with ?fs = [] -> _ => destruct (decide (fs = [])) as [E|E] end.
  - rewrite (Hnil E) in Hv. discriminate.
  - destruct (Hcons E) as (v' & Hv' & Hfs & _).
    rewrite Hv' in Hv. injection Hv as <-. by rewrite Hfs.
Qed.

Lemma format_of_Url (playerCode : string) (f : streamFormat) (g : Format) :
  format_of env playerCode f = Some g -> Url g <> EmptyString.
Proof.
  unfold format_of.
  destruct (is_empty (resolveURL env playerCode f)) eqn:E; [discriminate |].
  intros [= <-]. simpl. by apply is_empty_false.
Qed.

End ParseMetaFacts.

(** C2. A successful parseMeta never carries an empty format list (and
    every format it carries has a URL); when the manifest decodes and no
    descriptor of either group ends with a URL, parseMeta returns the
    no-formats error, hence no Video. *)
Theorem parseMeta_success_has_formats (env : Env) (video_id htmlContent : string) :
  (forall v, parseMeta env video_id htmlContent = Ok v ->
     Formats v <> [] /\ Forall (fun g => Url g <> EmptyString) (Formats v)) /\
  (forall txt pr,
     manifest_text htmlContent = Some txt ->
     json_Unmarshal env txt = Ok pr ->
     Forall (fun f => resolveURL env (fetched_playerCode env htmlContent) f = EmptyString)
            (sd_Formats (StreamingData pr) ++ sd_AdaptiveFormats (StreamingData pr)) ->
     parseMeta env video_id htmlContent = Err NO_FORMATS).
Proof.
  split.
  - intros v Hv.
    destruct (parseMeta_Ok_inv env _ _ _ Hv) as (txt & pr & _ & _ & Hfs & Hne).
    split; [done |]. rewrite Hfs, <- omap_app.
    apply Forall_forall. intros g Hg.
    apply list_elem_of_omap in Hg as (f & _ & Hf).
    exact (format_of_Url env _ f g Hf).
  - intros txt pr Ht Hpr Hall.
    apply (parseMeta_decoded env video_id _ _ _ Ht Hpr).
    rewrite <- omap_app, omap_format_of.
    set (pc := fetched_playerCode env htmlContent) in *.
    assert (filter (resolvable env pc)
              (sd_Formats (StreamingData pr) ++ sd_AdaptiveFormats (StreamingData pr)) = [])
      as ->; [| done].
    induction Hall as [|f l Hf _ IH]; [done |].
    rewrite filter_cons_False; [done |]. intros Hres. by apply Hres.
Qed.

(** A manifest without any descriptor is refused. *)
Example parseMeta_empty_manifest :
  let env := Sample.env_of Sample.swap_script Sample.player_code
               (Sample.manifest [] []) in
  parseMeta env "abc" Sample.page = Err NO_FORMATS.
Proof.
  intros env.
  apply (proj2 (parseMeta_success_has_formats env "abc" Sample.page)
           "{m}" (Sample.manifest [] [])); [by vm_compute | by vm_compute |].
  by constructor.
Qed.

(** C3. With the manifest decoded, the formats parseMeta returns are those
    of the descriptors that end with a URL, progressive group first and each
    group in its manifest order; parseMeta succeeds exactly when there is
    one; and when all N progressive and M adaptive descriptors end with a
    URL, there are exactly N+M of them, with the descriptors' tags in
    progressive-then-adaptive order. *)
Theorem parseMeta_keeps_manifest_order
    (env : Env) (video_id htmlContent txt : string) (pr : playerResponse) :
  manifest_text htmlContent = Some txt ->
  json_Unmarshal env txt = Ok pr ->
  let playerCode := fetched_playerCode env htmlContent in
  let progressive := sd_Formats (StreamingData pr) in
  let adaptive := sd_AdaptiveFormats (StreamingData pr) in
  let r := parseMeta env video_id htmlContent in
  returned_formats r
  = (to_format env playerCode <$> filter (resolvable env playerCode) progressive)
    ++ (to_format env playerCode <$> filter (resolvable env playerCode) adaptive) /\
  (is_ok r = true <->
   exists f, f ∈ progressive ++ adaptive /\ resolvable env playerCode f) /\
  (Forall (resolvable env playerCode) (progressive ++ adaptive) ->
   returned_formats r
   = (to_format env playerCode <$> progressive)
     ++ (to_format env playerCode <$> adaptive) /\
   length (returned_formats r) = (length progressive + length adaptive)%nat /\
   Itag <$> returned_formats r = (sf_Itag <$> progressive) ++ (sf_Itag <$> adaptive)).
Proof.
  intros Ht Hpr playerCode progressive adaptive r.
  destruct (parseMeta_decoded env video_id _ _ _ Ht Hpr) as [Hnil Hcons].
  fold playerCode progressive adaptive in Hnil, Hcons.
  rewrite !omap_format_of in Hnil, Hcons. fold r in Hnil, Hcons.
  set (fs := (to_format env playerCode <$> filter (resolvable env playerCode) progressive)
             ++ (to_format env playerCode <$> filter (resolvable env playerCode) adaptive))
    in *.
  assert (returned_formats r = fs /\ (is_ok r = true <-> fs <> [])) as [Hret Hok].
  { destruct (decide (fs = [])) as [E|E].
    - rewrite (Hnil E). simpl. split; [done |]. split; [discriminate | done].
    - destruct (Hcons E) as (v & -> & Hv & _). simpl. done. }
  split; [done |]. split.
  - rewrite Hok. unfold fs. rewrite <- fmap_app, <- filter_app. split.
    + intros Hne.
      destruct (filter (resolvable env playerCode) (progressive ++ adaptive))
        as [|f l] eqn:E; [done |].
      assert (f ∈ filter (resolvable env playerCode) (progressive ++ adaptive))
        as Hf by (rewrite E; left).
      apply list_elem_of_filter in Hf as [Hres Hin]. by exists f.
    + intros (f & Hin & Hres) E.
      apply fmap_nil_inv in E.
      assert (f ∈ filter (resolvable env playerCode) (progressive ++ adaptive))
        as Hf by (by apply list_elem_of_filter).
      rewrite E in Hf. inversion Hf.
  - intros Hall. apply Forall_app in Hall as [Hp Ha].
    rewrite Hret. unfold fs.
    rewrite !filter_all_resolvable by done.
    split; [done |]. split.
    + by rewrite length_app, !length_fmap.
    + rewrite fmap_app, <- !list_fmap_compose. done.
Qed.

Lemma parseMeta_keeps_manifest_order_witness :
  manifest_text Sample.page = Some "{m}" /\
  json_Unmarshal (Sample.env_of Sample.swap_script Sample.player_code Sample.direct_manifest)
    "{m}" = Ok Sample.direct_manifest /\
  returned_formats
    (parseMeta (Sample.env_of Sample.swap_script Sample.player_code Sample.direct_manifest)
       "abc" Sample.page)
  = [Sample.format 18 "http://x.test/a"; Sample.format 22 "http://x.test/b";
     Sample.format 137 "http://x.test/c"].
Proof.
  assert (manifest_text Sample.page = Some "{m}") as Ht by (vm_compute; reflexivity).
  assert (json_Unmarshal
            (Sample.env_of Sample.swap_script Sample.player_code Sample.direct_manifest)
            "{m}" = Ok Sample.direct_manifest) as Hpr by (vm_compute; reflexivity).
  split; [exact Ht |]. split; [exact Hpr |].
  destruct (parseMeta_keeps_manifest_order _ "abc" _ _ _ Ht Hpr) as (_ & _ & Hall).
  destruct Hall as (-> & _).
  - repeat constructor; vm_compute; discriminate.
  - vm_compute. reflexivity.
Defined.

(** Descriptors without a URL are dropped and the others keep their order. *)
Example parseMeta_drops_in_place :
  returned_formats
    (parseMeta (Sample.env_of Sample.swap_script Sample.player_code Sample.mixed_manifest)
       "abc" Sample.page)
  = [Sample.format 18 "http://x.test/a"; Sample.format 22 "http://x.test/b";
     Sample.format 137 "http://x.test/c"].
Proof. vm_compute. reflexivity. Qed.

(** ** decryptSignature *)

Section DecryptSignatureFacts.

Variable env : Env.

(** The locator's failure is decryptSignature's. *)
Lemma decryptSignature_locator_fails (signature playerCode : string) (e : error) :
  extractDecryptFunction playerCode = Err e ->
  decryptSignature env signature playerCode = Err e.
Proof. unfold decryptSignature. by intros ->. Qed.

(** So is the failure to extract the function fragment. *)
Lemma decryptSignature_fragment_fails
    (signature playerCode funcName helperName : string) (e : error) :
  extractDecryptFunction playerCode = Ok (funcName, helperName) ->
  extractFullDecryptFunction playerCode funcName = Err e ->
  decryptSignature env signature playerCode = Err e.
Proof. unfold decryptSignature. intros -> H. simpl. by rewrite H. Qed.

End DecryptSignatureFacts.

(** C6 (as amended). With the names located and the function fragment
    extracted, decryptSignature starts from a fresh runtime, runs the helper
    fragment first when there is one, then the function fragment on the
    runtime so obtained, then the call of the function on the signature
    between double quotes; a failing helper or function fragment gives a load
    error, a failing call an invocation error, and otherwise the result is the
    string form of whatever value the call returned. *)
Theorem decryptSignature_sandbox_outcomes
    (env : Env) (signature playerCode funcName helperName funcCode : string) :
  extractDecryptFunction playerCode = Ok (funcName, helperName) ->
  extractFullDecryptFunction playerCode funcName = Ok funcCode ->
  let g := goja env in
  let helperCode := or_empty (extractHelperObject playerCode helperName) in
  let loaded_helper := RunString g (goja_New g) helperCode in
  let vm1 := if is_empty helperCode then goja_New g else loaded_helper.1 in
  let loaded_function := RunString g vm1 funcCode in
  let called :=
    RunString g loaded_function.1
      (funcName +:+ "(" +:+ dq +:+ signature +:+ dq +:+ ")") in
  (forall e, helperCode <> EmptyString -> loaded_helper.2 = Err e ->
     decryptSignature env signature playerCode
     = Err ("failed to execute helper code: " +:+ e)) /\
  (helperCode = EmptyString \/ is_ok loaded_helper.2 = true ->
   (forall e, loaded_function.2 = Err e ->
      decryptSignature env signature playerCode
      = Err ("failed to execute function code: " +:+ e)) /\
   (is_ok loaded_function.2 = true ->
    (forall e, called.2 = Err e ->
       decryptSignature env signature playerCode
       = Err ("failed to decrypt signature: " +:+ e)) /\
    (forall v, called.2 = Ok v ->
       decryptSignature env signature playerCode = Ok (Value_String g v)))).
Proof.
  intros Hloc Hfun g helperCode loaded_helper vm1 loaded_function called.
  assert (decryptSignature env signature playerCode =
          if negb (is_empty helperCode) && negb (is_ok loaded_helper.2) then
            match loaded_helper.2 with
            | Err e => Err ("failed to execute helper code: " +:+ e)
            | Ok _ => Err EmptyString
            end
          else
            match loaded_function.2, called.2 with
            | Err e, _ => Err ("failed to execute function code: " +:+ e)
            | Ok _, Err e => Err ("failed to decrypt signature: " +:+ e)
            | Ok _, Ok v => Ok (Value_String g v)
            end) as Hrun.
  { unfold decryptSignature. rewrite Hloc. simpl. rewrite Hfun. simpl.
    fold g helperCode. subst called loaded_function vm1 loaded_helper.
    unfold call_source.
    destruct (is_empty helperCode); simpl.
    - destruct (RunString g (goja_New g) funcCode) as [vm r]; simpl.
      destruct r as [v|e]; simpl; [| done].
      destruct (RunString g vm _) as [vm' r']. by destruct r'.
    - destruct (RunString g (goja_New g) helperCode) as [vm0 r0]; simpl.
      destruct r0 as [v0|e0]; simpl; [| done].
      destruct (RunString g vm0 funcCode) as [vm r]; simpl.
      destruct r as [v|e]; simpl; [| done].
      destruct (RunString g vm _) as [vm' r']. by destruct r'. }
  split.
  - intros e Hne He. rewrite Hrun, He.
    by rewrite (proj2 (is_empty_false _) Hne).
  - intros Hhelper.
    assert (negb (is_empty helperCode) && negb (is_ok loaded_helper.2) = false) as Hskip.
    { destruct Hhelper as [->| ->]; [done | by rewrite andb_false_r]. }
    rewrite Hrun, Hskip. split.
    + by intros e ->.
    + intros Hok. destruct (loaded_function.2) as [v1|e1]; [| discriminate].
      split; [by intros e -> | by intros v ->].
Qed.

Lemma decryptSignature_sandbox_outcomes_witness :
  extractDecryptFunction Sample.player_code = Ok ("Xy", EmptyString) /\
  extractFullDecryptFunction Sample.player_code "Xy" = Ok Sample.function_fragment /\
  decryptSignature
    (Sample.env_of Sample.swap_script Sample.player_code Sample.ciphered_manifest)
    "AABB" Sample.player_code = Ok "BBAA".
Proof.
  assert (extractDecryptFunction Sample.player_code = Ok ("Xy", EmptyString))
    as Hloc by (vm_compute; reflexivity).
  assert (extractFullDecryptFunction Sample.player_code "Xy" = Ok Sample.function_fragment)
    as Hfun by (vm_compute; reflexivity).
  split; [exact Hloc |]. split; [exact Hfun |].
  destruct (decryptSignature_sandbox_outcomes
              (Sample.env_of Sample.swap_script Sample.player_code Sample.ciphered_manifest)
              "AABB" _ _ _ _ Hloc Hfun) as [_ Hrun].
  destruct Hrun as [_ Hcall]; [left; vm_compute; reflexivity |].
  destruct Hcall as [_ Hvalue]; [vm_compute; reflexivity |].
  apply (Hvalue (Sample.JsString "BBAA")). vm_compute. reflexivity.
Defined.

(** C6 (as stated) fails: the call returns the number 42, which is not a
    string, and decryptSignature succeeds with its string form. *)
Lemma decryptSignature_accepts_non_string_value :
  let env := Sample.env_of Sample.number_script Sample.player_code Sample.ciphered_manifest in
  (RunString (goja env) [Sample.function_fragment] (call_source "Xy" "AABB")).2
  = Ok (Sample.JsNumber 42) /\
  Value_is_string (goja env) (Sample.JsNumber 42) = false /\
  decryptSignature env "AABB" Sample.player_code = Ok "42" /\
  ~ (exists e, decryptSignature env "AABB" Sample.player_code = Err e).
Proof.
  assert (decryptSignature
            (Sample.env_of Sample.number_script Sample.player_code Sample.ciphered_manifest)
            "AABB" Sample.player_code = Ok "42") as H by (vm_compute; reflexivity).
  cbv zeta. split; [vm_compute; reflexivity |]. split; [reflexivity |].
  split; [exact H |]. intros [e He]. rewrite H in He. discriminate.
Qed.

(** The runtime is fresh and the fragments reach it in order: the sources
    it was given before the call are the helper, then the function. *)
Example decryptSignature_load_order :
  decryptSignature
    (Sample.env_of Sample.echo_script Sample.player_code_with_helper Sample.ciphered_manifest)
    "AABB" Sample.player_code_with_helper
  = Ok ("var Yz={};|" +:+ Sample.function_fragment_with_helper) /\
  decryptSignature
    (Sample.env_of Sample.echo_script Sample.player_code Sample.ciphered_manifest)
    "AABB" Sample.player_code
  = Ok Sample.function_fragment.
Proof. split; vm_compute; reflexivity. Qed.

(** ** decipherURL *)



Lemma Get_absent (params : Url.Values) (key : string) :
  params !! key = None -> Url.Get params key = EmptyString.
Proof. unfold Url.Get. by intros ->. Qed.

(** *** Query escaping *)

Section QueryEscapeFacts.







End QueryEscapeFacts.




(** ** The fallback to the base URL *)

Section FallbackFacts.

Variable env : Env.



End FallbackFacts.


(** The three stages whose failure is decryptSignature's failure: the
    locator, the extraction of the function fragment, the sandbox. *)
Lemma decryptSignature_stage_failures
    (env : Env) (signature playerCode : string) :
  (forall e, extractDecryptFunction playerCode = Err e ->
     decryptSignature env signature playerCode = Err e) /\
  (forall funcName helperName e,
     extractDecryptFunction playerCode = Ok (funcName, helperName) ->
     extractFullDecryptFunction playerCode funcName = Err e ->
     decryptSignature env signature playerCode = Err e) /\
  (forall funcName helperName funcCode e,
     extractDecryptFunction playerCode = Ok (funcName, helperName) ->
     extractFullDecryptFunction playerCode funcName = Ok funcCode ->
     or_empty (extractHelperObject playerCode helperName) = EmptyString ->
     (RunString (goja env) (goja_New (goja env)) funcCode).2 = Err e ->
     decryptSignature env signature playerCode
     = Err ("failed to execute function code: " +:+ e)).
Proof.
  split; [| split].
  - intros e. apply decryptSignature_locator_fails.
  - intros funcName helperName e. apply decryptSignature_fragment_fails.
  - intros funcName helperName funcCode e Hloc Hfun Hhelper Hrun.
    unfold decryptSignature. rewrite Hloc. simpl. rewrite Hfun. simpl.
    rewrite Hhelper. simpl.
    destruct (RunString (goja env) (goja_New (goja env)) funcCode) as [vm r].
    simpl in Hrun. by rewrite Hrun.
Qed.



(** ** Get *)

(** C10. For a watch-page URL that parses and whose query has no [v]
    parameter, extractId fails with its no-video-ID error, and Get, which
    drops that error, goes on with the empty identifier: it requests the
    watch page of the empty identifier and parses what comes back, as
    [Get] of the empty string does. *)
Theorem Get_drops_extractId_error (env : Env) (input : string) (u : Url.URL) :
  Contains input "youtube.com/watch?" = true ->
  url_Parse env input = Ok u ->
  Url.Query u !! "v" = None ->
  extractId env input = Err "no video ID" /\
  Get env input = (fetchMeta env EmptyString ≫= parseMeta env EmptyString) /\
  Get env input = Get env EmptyString /\
  fetchMeta env EmptyString
  = (http_Do env {| req_url := "https://www.youtube.com/watch?v=";
                    req_user_agent := USER_AGENT |} ≫= fun resp =>
     if negb (StatusCode resp =? 200)%Z
     then Err ("failed to fetch video page: status " +:+ itoa (StatusCode resp))
     else Ok (Body resp)).
Proof.
  intros Hc Hu Hv.
  assert (extractId env input = Err "no video ID") as Hid.
  { unfold extractId. rewrite Hu. simpl. by rewrite (Get_absent _ _ Hv). }
  split; [done |].
  assert (Get env input = (fetchMeta env EmptyString ≫= parseMeta env EmptyString)) as HG.
  { unfold Get. rewrite Hc, Hid. simpl.
    destruct (fetchMeta env EmptyString) as [query|e]; simpl; [| done].
    by destruct (parseMeta env EmptyString query). }
  split; [done |]. split; [| done].
  rewrite HG. unfold Get. simpl.
  destruct (fetchMeta env EmptyString) as [query|e]; simpl; [| done].
  by destruct (parseMeta env EmptyString query).
Qed.

(** Whatever makes extractId fail, Get goes on with the empty identifier. *)
Lemma Get_drops_any_extractId_error (env : Env) (input : string) (e : error) :
  Contains input "youtube.com/watch?" = true ->
  extractId env input = Err e ->
  Get env input = Get env EmptyString.
Proof.
  intros Hc Hid. unfold Get. rewrite Hc, Hid. reflexivity.
Qed.

Lemma Get_drops_extractId_error_witness :
  extractId
    (Sample.env_of Sample.swap_script Sample.player_code Sample.direct_manifest)
    "https://www.youtube.com/watch?list=PL1"
  = Err "no video ID" /\
  Get (Sample.env_of Sample.swap_script Sample.player_code Sample.direct_manifest)
    "https://www.youtube.com/watch?list=PL1"
  = Ok {| Id := EmptyString; Title := "t"; Author := "au"; Keywords := "[k1 k2]";
          Thumbnail_url := EmptyString; View_count := 7; Length_seconds := 12;
          Formats := [Sample.format 18 "http://x.test/a";
                      Sample.format 22 "http://x.test/b";
                      Sample.format 137 "http://x.test/c"];
          Filename := EmptyString |}.
Proof.
  destruct (Get_drops_extractId_error
              (Sample.env_of Sample.swap_script Sample.player_code Sample.direct_manifest)
              "https://www.youtube.com/watch?list=PL1"
              {| Url.RawQuery := "list=PL1" |})
    as (Hid & HG & _).
  - vm_compute. reflexivity.
  - vm_compute. reflexivity.
  - vm_compute. reflexivity.
  - split; [exact Hid |]. rewrite HG. vm_compute. reflexivity.
Defined.

(** ** The matcher *)

Section RegexpFacts.

Implicit Types (r : re) (st : mstate) (p : ascii -> bool) (w : list ascii).

Lemma has_prefix_b_app (l rest : list ascii) : has_prefix_b l (l ++ rest) = true.
Proof.
  induction l as [|a l IH]; [done |]. simpl. by rewrite Ascii.eqb_refl, IH.
Qed.

Lemma has_prefix_b_drop (l k : list ascii) :
  has_prefix_b l k = true -> k = l ++ drop (length l) k.
Proof.
  revert k. induction l as [|a l IH]; intros k H; [done |].
  destruct k as [|b k]; [done |]. simpl in H.
  apply andb_true_iff in H as [Hab Hk]. apply Ascii.eqb_eq in Hab as ->.
  simpl. f_equal. by apply IH.
Qed.

Lemma lookup_spans p (rest : list ascii) :
  forall pre k c,
    spans p pre rest !! k = Some c <->
    exists w rest', rest = w ++ rest' /\ Forall (fun a => p a = true) w /\
                    length w = k /\ c = (reverse w ++ pre, rest').
Proof.
  induction rest as [|a rest IH]; intros pre k c.
  - destruct k as [|k]; simpl; split.
    + intros [= <-]. by exists [], [].
    + intros (w & rest' & Hr & _ & Hk & ->).
      destruct w; [| done]. simpl in Hr. by subst.
    + done.
    + intros (w & rest' & Hr & _ & Hk & _). destruct w; done.
  - destruct k as [|k]; simpl.
    + split.
      * intros [= <-]. by exists [], (a :: rest).
      * intros (w & rest' & Hr & _ & Hk & ->).
        destruct w; [| done]. simpl in Hr. by subst.
    + destruct (p a) eqn:Hpa.
      * rewrite IH. split.
        -- intros (w & rest' & -> & Hw & <- & ->).
           exists (a :: w), rest'. repeat split; [by constructor |].
           by rewrite reverse_cons, <- app_assoc.
        -- intros (w & rest' & Hr & Hw & Hk & ->).
           destruct w as [|b w]; [done |]. injection Hr as <- ->.
           inversion Hw; subst. exists w, rest'.
           repeat split; [done | by injection Hk |].
           by rewrite reverse_cons, <- app_assoc.
      * split; [done |].
        intros (w & rest' & Hr & Hw & Hk & _).
        destruct w as [|b w]; [done |]. injection Hr as <- _.
        inversion Hw; subst. congruence.
Qed.

Lemma elem_of_drop_spans p (m : nat) (pre rest : list ascii) (c : cursor) :
  c ∈ drop m (spans p pre rest) <->
  exists w rest', rest = w ++ rest' /\ Forall (fun a => p a = true) w /\
                  (m <= length w)%nat /\ c = (reverse w ++ pre, rest').
Proof.
  rewrite list_elem_of_lookup. split.
  - intros (i & Hi). rewrite lookup_drop in Hi.
    apply lookup_spans in Hi as (w & rest' & ? & ? & ? & ?).
    exists w, rest'. repeat split; [done | done | lia | done].
  - intros (w & rest' & Hr & Hw & Hm & Hc).
    exists (length w - m)%nat. rewrite lookup_drop. apply lookup_spans.
    exists w, rest'. repeat split; [done | done | lia | done].
Qed.

Lemma elem_of_run_Lit (s : string) st st' :
  st' ∈ run (Lit s) st <-> advances (bytes s) st st' /\ st'.2 = st.2.
Proof.
  destruct st as [[pre rest] caps], st' as [[pre' rest'] caps'].
  unfold advances. simpl.
  destruct (has_prefix_b (bytes s) rest) eqn:Hp.
  - rewrite list_elem_of_singleton. split.
    + intros [= -> -> ->]. split; [| done]. split; [| done].
      by apply has_prefix_b_drop.
    + intros [[-> ->] ->]. by rewrite drop_app_length.
  - split; [by intros ?%elem_of_nil |].
    intros [[-> _] _]. by rewrite has_prefix_b_app in Hp.
Qed.

Lemma elem_of_run_Cls p st st' :
  st' ∈ run (Cls p) st <->
  exists a, p a = true /\ advances [a] st st' /\ st'.2 = st.2.
Proof.
  destruct st as [[pre rest] caps], st' as [[pre' rest'] caps'].
  unfold advances. simpl. destruct rest as [|a rest].
  - split; [by intros ?%elem_of_nil |]. by intros (a & _ & [? _] & _).
  - destruct (p a) eqn:Hpa.
    + rewrite list_elem_of_singleton. split.
      * intros [= -> -> ->]. by exists a.
      * by intros (b & _ & [[= <- ->] ->] & ->).
    + split; [by intros ?%elem_of_nil |].
      intros (b & Hb & [[= <- ->] _] & _). congruence.
Qed.

Lemma elem_of_run_Rep (greedy : bool) (m : nat) p st st' :
  st' ∈ run (Rep greedy m p) st <->
  exists w, Forall (fun a => p a = true) w /\ (m <= length w)%nat /\
            advances w st st' /\ st'.2 = st.2.
Proof.
  destruct st as [[pre rest] caps], st' as [[pre' rest'] caps'].
  unfold advances. simpl. rewrite list_elem_of_fmap.
  assert (forall c, c ∈ (if greedy then reverse (drop m (spans p pre rest))
                         else drop m (spans p pre rest))
                    <-> c ∈ drop m (spans p pre rest)) as Hrev.
  { intros c. destruct greedy; [apply elem_of_reverse | done]. }
  split.
  - intros (c & [= <- ->] & Hc). apply Hrev, elem_of_drop_spans in Hc
      as (w & rest'' & -> & Hw & Hm & [= -> ->]).
    by exists w.
  - intros (w & Hw & Hm & [-> ->] & ->).
    exists (reverse w ++ pre, rest'). split; [done |].
    apply Hrev, elem_of_drop_spans. by exists w, rest'.
Qed.

Lemma elem_of_run_Seq r1 r2 st st' :
  st' ∈ run (Seq r1 r2) st <-> exists st1, st1 ∈ run r1 st /\ st' ∈ run r2 st1.
Proof.
  simpl. rewrite list_elem_of_bind. split; intros (st1 & ? & ?); by exists st1.
Qed.

Lemma elem_of_run_Opt r1 st st' :
  st' ∈ run (Opt r1) st <-> st' ∈ run r1 st \/ st' = st.
Proof. simpl. by rewrite elem_of_app, list_elem_of_singleton. Qed.

Lemma elem_of_run_Grp (i : nat) r1 st st' :
  st' ∈ run (Grp i r1) st <->
  exists st1, st1 ∈ run r1 st /\
              st' = (st1.1, <[i := consumed st.1 st1.1]> st1.2).
Proof.
  simpl. rewrite list_elem_of_fmap. split; intros (st1 & ? & ?); by exists st1.
Qed.

Lemma elem_of_run_WordB st st' :
  st' ∈ run WordB st <-> at_word_boundary st.1 = true /\ st' = st.
Proof.
  simpl. destruct (at_word_boundary st.1).
  - rewrite list_elem_of_singleton. split; [by intros -> | by intros [_ ->]].
  - split; [by intros ?%elem_of_nil | by intros [? _]].
Qed.

Lemma advances_nil st : advances [] st st.
Proof. by split. Qed.

Lemma advances_trans w1 w2 st st1 st2 :
  advances w1 st st1 -> advances w2 st1 st2 -> advances (w1 ++ w2) st st2.
Proof.
  intros [H1 H1'] [H2 H2']. split.
  - by rewrite H1, H2, app_assoc.
  - by rewrite H2', H1', reverse_app, app_assoc.
Qed.

(** Every match moves the cursor forward over a text of the pattern's
    language and keeps the number of group slots. *)
Lemma run_lang r :
  forall st st', st' ∈ run r st ->
    exists w, advances w st st' /\ lang r w /\ length st'.2 = length st.2.
Proof.
  induction r as [s|p|g m p|r1 IH1|r1 IH1 r2 IH2|i r1 IH1|]; intros st st'.
  - intros [Ha Hc]%elem_of_run_Lit. exists (bytes s). by rewrite Hc.
  - intros (a & Hp & Ha & Hc)%elem_of_run_Cls. exists [a]. rewrite Hc.
    split; [done |]. split; [by exists a | done].
  - intros (w & Hw & Hm & Ha & Hc)%elem_of_run_Rep. exists w. by rewrite Hc.
  - intros [H| ->]%elem_of_run_Opt.
    + destruct (IH1 _ _ H) as (w & Ha & Hl & Hn). exists w.
      split; [done |]. split; [by left | done].
    + exists []. split; [apply advances_nil |]. split; [by right | done].
  - intros (st1 & H1 & H2)%elem_of_run_Seq.
    destruct (IH1 _ _ H1) as (w1 & Ha1 & Hw1 & Hl1).
    destruct (IH2 _ _ H2) as (w2 & Ha2 & Hw2 & Hl2).
    exists (w1 ++ w2). split; [by eapply advances_trans |].
    split; [by exists w1, w2 | congruence].
  - intros (st1 & H1 & ->)%elem_of_run_Grp.
    destruct (IH1 _ _ H1) as (w & Ha & Hw & Hl).
    exists w. split; [done |]. split; [done |]. simpl. by rewrite length_insert.
  - intros [_ ->]%elem_of_run_WordB.
    exists []. split; [apply advances_nil | done].
Qed.

Lemma run_advances r st st' :
  st' ∈ run r st ->
  exists w, advances w st st' /\ length st'.2 = length st.2.
Proof.
  intros H. destruct (run_lang _ _ _ H) as (w & Ha & _ & Hl). by exists w.
Qed.

Lemma consumed_advances w st st' :
  advances w st st' -> consumed st.1 st'.1 = of_bytes w.
Proof.
  intros [_ H]. unfold consumed. rewrite H, length_app, length_reverse.
  replace (length w + length st.1.1 - length st.1.1)%nat with (length (reverse w))
    by (rewrite length_reverse; lia).
  by rewrite take_app_length, reverse_involutive.
Qed.

Lemma run_frame r (j : nat) :
  j ∉ groups r ->
  forall st st', st' ∈ run r st -> st'.2 !! j = st.2 !! j.
Proof.
  induction r as [s|p|g m p|r1 IH1|r1 IH1 r2 IH2|i r1 IH1|]; intros Hj st st'; simpl in Hj.
  - by intros [_ ->]%elem_of_run_Lit.
  - by intros (a & _ & _ & ->)%elem_of_run_Cls.
  - by intros (w & _ & _ & _ & ->)%elem_of_run_Rep.
  - intros [H| ->]%elem_of_run_Opt; [by apply IH1 | done].
  - intros (st1 & H1 & H2)%elem_of_run_Seq.
    apply not_elem_of_app in Hj as [Hj1 Hj2].
    rewrite (IH2 Hj2 _ _ H2). by apply IH1.
  - intros (st1 & H1 & ->)%elem_of_run_Grp.
    apply not_elem_of_cons in Hj as [Hji Hj].
    simpl. rewrite list_lookup_insert_ne by done. by apply IH1.
  - by intros [_ ->]%elem_of_run_WordB.
Qed.

(** A group around a repeated class captures the bytes it ran over. *)
Lemma run_Grp_Rep (i : nat) (g : bool) (m : nat) p st st' :
  (i < length st.2)%nat ->
  st' ∈ run (Grp i (Rep g m p)) st ->
  exists w, Forall (fun a => p a = true) w /\ (m <= length w)%nat /\
            advances w st st' /\ st'.2 !! i = Some (of_bytes w) /\
            length st'.2 = length st.2.
Proof.
  intros Hi (st1 & H1 & ->)%elem_of_run_Grp.
  apply elem_of_run_Rep in H1 as (w & Hw & Hm & Ha & Hc).
  exists w. split; [done |]. split; [done |]. split; [done |]. simpl.
  rewrite (consumed_advances w) by done. rewrite length_insert, Hc.
  split; [| done]. by apply list_lookup_insert_eq.
Qed.

(** A pattern that opens with a group around a repeated class: the
    group holds the first bytes of the match, the rest is a text of the
    tail. *)
Lemma run_Grp_Rep_tail (i : nat) (g : bool) (m : nat) p (tail : re) st st' :
  (i < length st.2)%nat ->
  i ∉ groups tail ->
  st' ∈ run (Grp i (Rep g m p) >>> tail) st ->
  exists w w', advances (w ++ w') st st' /\
               st'.2 !! i = Some (of_bytes w) /\
               Forall (fun a => p a = true) w /\ (m <= length w)%nat /\
               lang tail w' /\ length st'.2 = length st.2.
Proof.
  intros Hi Hfr (st1 & H1 & H2)%elem_of_run_Seq.
  apply run_Grp_Rep in H1 as (w & Hw & Hm & Ha & Hc & Hl1); [| done].
  destruct (run_lang _ _ _ H2) as (w' & Ha' & Hw' & Hl2).
  exists w, w'. split; [by eapply advances_trans |].
  split; [by rewrite (run_frame tail i Hfr _ _ H2) |].
  split; [done |]. split; [done |]. split; [done | congruence].
Qed.

Lemma run_WordB_first (tail : re) st st' :
  st' ∈ run (WordB >>> tail) st -> st' ∈ run tail st.
Proof. by intros (st1 & [_ ->]%elem_of_run_WordB & H)%elem_of_run_Seq. Qed.

End RegexpFacts.

Section SearchFacts.

Implicit Types (r : re) (st : mstate).

Lemma bytes_of_bytes (l : list ascii) : bytes (of_bytes l) = l.
Proof. apply list_ascii_of_string_of_list_ascii. Qed.

Lemma of_bytes_bytes (s : string) : of_bytes (bytes s) = s.
Proof. apply string_of_list_ascii_of_string. Qed.

Lemma bytes_app (s t : string) : bytes (s +:+ t) = bytes s ++ bytes t.
Proof.
  induction s as [|a s IH]; [done |].
  change (a :: bytes (s +:+ t) = a :: (bytes s ++ bytes t)). by rewrite IH.
Qed.

Lemma of_bytes_app (l k : list ascii) : of_bytes (l ++ k) = of_bytes l +:+ of_bytes k.
Proof.
  induction l as [|a l IH]; [done |].
  change (String a (of_bytes (l ++ k)) = String a (of_bytes l +:+ of_bytes k)).
  by rewrite IH.
Qed.

Lemma append_assoc (s t u : string) : (s +:+ t) +:+ u = s +:+ (t +:+ u).
Proof.
  induction s as [|a s IH]; [done |].
  change (String a ((s +:+ t) +:+ u) = String a (s +:+ (t +:+ u))). by rewrite IH.
Qed.

Lemma append_inv_head (s t u : string) : s +:+ t = s +:+ u -> t = u.
Proof.
  induction s as [|a s IH]; [done |].
  change (String a (s +:+ t) = String a (s +:+ u) -> t = u).
  intros [= H]. by apply IH.
Qed.

Lemma bytes_length (s : string) : length (bytes s) = String.length s.
Proof.
  induction s as [|a s IH]; [done |].
  change (S (length (bytes s)) = S (String.length s)). by rewrite IH.
Qed.

Lemma substring_bytes (s : string) :
  forall n m, substring n m s = of_bytes (take m (drop n (bytes s))).
Proof.
  induction s as [|a s IH]; intros [|n] [|m]; simpl; rewrite ?IH; done.
Qed.

Lemma slice_bytes (s : string) (l w k : list ascii) :
  bytes s = l ++ w ++ k ->
  slice s (length l) (length l + length w) = of_bytes w.
Proof.
  intros H. unfold slice. rewrite substring_bytes, H.
  rewrite drop_app_length.
  replace (length l + length w - length l)%nat with (length w) by lia.
  by rewrite take_app_length.
Qed.

(** A successful search: what was skipped, and the first match there. *)
Lemma search_Some r (n : nat) (rest : list ascii) :
  forall pre b e caps,
    search r n pre rest = Some (b, e, caps) ->
    exists skipped rest' st,
      rest = skipped ++ rest' /\
      b = (length pre + length skipped)%nat /\
      head (run r ((reverse skipped ++ pre, rest'), replicate (S n) EmptyString))
      = Some st /\
      e = length st.1.1 /\ caps = st.2.
Proof.
  induction rest as [|a rest IH]; intros pre b e caps; simpl.
  - destruct (run r ((pre, []), EmptyString :: replicate n EmptyString))
      as [|st tl] eqn:Hrun; [done |].
    intros [= <- <- <-]. exists [], [], st. simpl. rewrite Hrun.
    repeat split. lia.
  - destruct (run r ((pre, a :: rest), EmptyString :: replicate n EmptyString))
      as [|st tl] eqn:Hrun.
    + intros H. apply IH in H as (skipped & rest' & st & -> & -> & Hh & -> & ->).
      exists (a :: skipped), rest', st. simpl.
      rewrite reverse_cons, <- app_assoc. simpl.
      repeat split; [lia | done].
    + intros [= <- <- <-]. exists [], (a :: rest), st. simpl. rewrite Hrun.
      repeat split. lia.
Qed.

(** A failed search: no match at any position. *)
Lemma search_None r (n : nat) (rest : list ascii) :
  forall pre,
    search r n pre rest = None <->
    forall skipped rest', rest = skipped ++ rest' ->
      run r ((reverse skipped ++ pre, rest'), replicate (S n) EmptyString) = [].
Proof.
  induction rest as [|a rest IH]; intros pre; simpl.
  - destruct (run r ((pre, []), EmptyString :: replicate n EmptyString))
      as [|st tl] eqn:Hrun.
    + split; [| done]. intros _ skipped rest' H.
      symmetry in H. apply app_eq_nil in H as [-> ->]. done.
    + split; [done |]. intros H. specialize (H [] [] eq_refl).
      simpl in H. congruence.
  - destruct (run r ((pre, a :: rest), EmptyString :: replicate n EmptyString))
      as [|st tl] eqn:Hrun.
    + rewrite IH. split.
      * intros H [|b skipped] rest' Heq; simpl in Heq.
        -- by subst.
        -- injection Heq as <- ->. rewrite reverse_cons, <- app_assoc. by apply H.
      * intros H skipped rest' ->.
        specialize (H (a :: skipped) rest' eq_refl).
        by rewrite reverse_cons, <- app_assoc in H.
    + split; [done |]. intros H. specialize (H [] (a :: rest) eq_refl).
      simpl in H. congruence.
Qed.

(** What a match of a compiled pattern in [s] tells: the text before it,
    the matched text, the text after it, and the matcher's final state. *)
Lemma find_Some (re : Regexp) (s : string) (b e : nat) (caps : list string) :
  find re s = Some (b, e, caps) ->
  exists skipped w rest st,
    bytes s = skipped ++ w ++ rest /\
    b = length skipped /\ e = (length skipped + length w)%nat /\
    st ∈ run (expr re) ((reverse skipped, w ++ rest), replicate (S (ngroups re)) EmptyString) /\
    st.1 = (reverse w ++ reverse skipped, rest) /\ caps = st.2 /\
    length caps = S (ngroups re) /\
    slice s b e = of_bytes w.
Proof.
  unfold find. intros H.
  apply search_Some in H as (skipped & rest' & st & Hs & -> & Hh & -> & ->).
  rewrite app_nil_r in Hh.
  assert (st ∈ run (expr re)
            ((reverse skipped, rest'), replicate (S (ngroups re)) EmptyString)) as Hin.
  { destruct (run (expr re) _) as [|st0 tl]; [done |].
    injection Hh as ->. left. }
  destruct (run_advances _ _ _ Hin) as (w & [Hw1 Hw2] & Hlen).
  destruct st as [[pre1 rest1] caps1]. simpl in Hw1, Hw2, Hlen. subst rest' pre1.
  exists skipped, w, rest1, ((reverse w ++ reverse skipped, rest1), caps1).
  assert (length (reverse w ++ reverse skipped) = (length skipped + length w)%nat)
    as Hl by (rewrite length_app, !length_reverse; lia).
  simpl. rewrite Hl.
  split; [done |]. split; [done |]. split; [done |]. split; [done |].
  split; [done |]. split; [done |].
  split; [by rewrite length_replicate in Hlen |].
  by apply (slice_bytes s skipped w rest1).
Qed.

Lemma FindStringSubmatch_nil (re : Regexp) (s : string) :
  FindStringSubmatch re s = [] <-> find re s = None.
Proof.
  unfold FindStringSubmatch. destruct (find re s) as [[[b e] caps]|] eqn:H.
  - split; [| done]. apply find_Some in H as (? & ? & ? & ? & ? & ? & ? & ? & ? & ? & Hl & ?).
    destruct caps; done.
  - done.
Qed.

Lemma FindStringSubmatch_length (re : Regexp) (s : string) :
  FindStringSubmatch re s = [] \/
  length (FindStringSubmatch re s) = S (ngroups re).
Proof.
  unfold FindStringSubmatch. destruct (find re s) as [[[b e] caps]|] eqn:H.
  - right. apply find_Some in H as (? & ? & ? & ? & ? & ? & ? & ? & ? & ? & Hl & ?).
    by rewrite length_insert.
  - by left.
Qed.

End SearchFacts.

(** ** extractDecryptFunction *)

(** [i] is not among the groups of a given pattern. *)
Ltac no_such_group :=
  let H := fresh in
  simpl; intros H;
  repeat (apply elem_of_cons in H as [H|H]; [discriminate |]);
  by apply elem_of_nil in H.

Section LocatorFacts.

Lemma at_beyond (m : list string) (i : nat) :
  (length m <= i)%nat -> at_ m i = EmptyString.
Proof. intros H. unfold at_. by rewrite lookup_ge_None_2. Qed.

(** The loop over the patterns stops at the first one that matches. *)
Lemma first_names_spec (patterns : list Regexp) (playerCode : string) :
  (forall re, re ∈ patterns -> (1 <= ngroups re)%nat) ->
  ((forall re, re ∈ patterns -> FindStringSubmatch re playerCode = []) /\
   first_names patterns playerCode = (EmptyString, EmptyString)) \/
  (exists k re,
     patterns !! k = Some re /\
     FindStringSubmatch re playerCode <> [] /\
     (forall j re', (j < k)%nat -> patterns !! j = Some re' ->
                    FindStringSubmatch re' playerCode = []) /\
     first_names patterns playerCode
     = (at_ (FindStringSubmatch re playerCode) 1,
        at_ (FindStringSubmatch re playerCode) 2)).
Proof.
  induction patterns as [|re patterns IH]; intros Hg.
  - left. split; [| done]. intros re Hre. inversion Hre.
  - cbn [first_names].
    destruct (FindStringSubmatch_length re playerCode) as [Hnil|Hlen].
    + rewrite Hnil. cbn [length Nat.leb].
      destruct IH as [[Hnone Hfn]|(k & re' & Hk & Hm & Hfirst & Hfn)].
      * intros re' Hre'. apply Hg. by right.
      * left. split; [| done]. intros re' Hre'.
        inversion Hre'; subst; [done | by apply Hnone].
      * right. exists (S k), re'. repeat split; [done | done | | done].
        intros [|j] re'' Hj Hre''; [by injection Hre'' as <- |].
        apply (Hfirst j); [lia | done].
    + right. exists 0%nat, re.
      assert (1 <= ngroups re)%nat as Hre by (apply Hg; left).
      assert ((2 <=? length (FindStringSubmatch re playerCode))%nat = true) as ->
        by (apply Nat.leb_le; lia).
      repeat split.
      * intros E. rewrite E in Hlen. done.
      * intros j re' Hj. lia.
      * f_equal. destruct (3 <=? length (FindStringSubmatch re playerCode))%nat eqn:E;
          [done |].
        apply Nat.leb_gt in E. symmetry. apply at_beyond. lia.
Qed.

Lemma decrypt_patterns_groups (re : Regexp) :
  re ∈ decrypt_patterns -> (1 <= ngroups re)%nat.
Proof.
  unfold decrypt_patterns. rewrite !elem_of_cons, elem_of_nil.
  intros [-> | [-> | [-> | [-> | []]]]]; simpl; lia.
Qed.

(** The text after a name that the first, second and fourth pattern
    accept. *)
Lemma lang_binding (more : re) (w : list ascii) :
  lang (ws >>> Lit "=" >>> ws >>> Lit "function(" >>> more) w ->
  exists w1 w2 after,
    w = w1 ++ bytes "=" ++ w2 ++ bytes "function(" ++ after /\
    Forall (fun a => cls_space a = true) w1 /\
    Forall (fun a => cls_space a = true) w2.
Proof.
  intros (w1 & r1 & -> & [Hw1 _] & e1 & r2 & -> & -> & w2 & r3 & -> & [Hw2 _]
          & e2 & after & -> & -> & _).
  by exists w1, w2, after.
Qed.

(** What a match of the [k]-th pattern says about the name in its first
    group. *)
Lemma decrypt_pattern_match (k : nat) (re : Regexp) (playerCode : string)
    (b e : nat) (caps : list string) :
  decrypt_patterns !! k = Some re ->
  find re playerCode = Some (b, e, caps) ->
  exists before w w' after,
    bytes playerCode = before ++ (w ++ w') ++ after /\
    caps !! 1%nat = Some (of_bytes w) /\
    Forall (fun a => cls_ident a = true) w /\
    ((if (k <? 2)%nat then 2 else 1) <= length w)%nat /\
    lang (expr re) (w ++ w') /\
    exists w1 w2 after',
      w' = w1 ++ bytes "=" ++ w2 ++ bytes "function(" ++ after' /\
      Forall (fun a => cls_space a = true) w1 /\
      Forall (fun a => cls_space a = true) w2.
Proof.
  intros Hk Hfind.
  apply find_Some in Hfind
    as (skipped & wm & rest & st & Hs & -> & -> & Hrun & Hst & -> & Hlen & _).
  destruct k as [|[|[|[|k]]]]; simpl in Hk; [| | | | done];
    injection Hk as <-;
    unfold decrypt_pattern1, decrypt_pattern2, decrypt_pattern3, decrypt_pattern4
      in Hrun |- *;
    cbn [expr ngroups] in Hrun |- *.
  - apply run_WordB_first in Hrun.
    apply run_Grp_Rep_tail in Hrun
      as (w & w' & [Ha _] & Hc & Hw & Hm & Hl & _); [| simpl; lia | no_such_group].
    rewrite Hst in Ha. simpl in Ha.
    exists skipped, w, w', rest. rewrite Hs, Ha.
    split; [done |]. split; [done |]. split; [done |]. split; [done |].
    split; [| by apply (lang_binding _ _ Hl)].
    exists [], (w ++ w'). split; [done |]. split; [done |].
    exists w, w'. done.
  - apply run_WordB_first in Hrun.
    apply run_Grp_Rep_tail in Hrun
      as (w & w' & [Ha _] & Hc & Hw & Hm & Hl & _); [| simpl; lia | no_such_group].
    rewrite Hst in Ha. simpl in Ha.
    exists skipped, w, w', rest. rewrite Hs, Ha.
    split; [done |]. split; [done |]. split; [done |]. split; [done |].
    split; [| by apply (lang_binding _ _ Hl)].
    exists [], (w ++ w'). split; [done |]. split; [done |].
    exists w, w'. done.
  - apply run_Grp_Rep_tail in Hrun
      as (w & w' & [Ha _] & Hc & Hw & Hm & Hl & _); [| simpl; lia | no_such_group].
    rewrite Hst in Ha. simpl in Ha.
    exists skipped, w, w', rest. rewrite Hs, Ha.
    split; [done |]. split; [done |]. split; [done |]. split; [done |].
    split; [by exists w, w' |].
    destruct Hl as (l1 & after' & -> & Hlit & _). cbn [lang] in Hlit. subst l1.
    exists [], [], (bytes ("a){a=a.split(" +:+ empty_literal +:+ ");") ++ after').
    done.
  - apply run_WordB_first in Hrun.
    apply run_Grp_Rep_tail in Hrun
      as (w & w' & [Ha _] & Hc & Hw & Hm & Hl & _); [| simpl; lia | no_such_group].
    rewrite Hst in Ha. simpl in Ha.
    exists skipped, w, w', rest. rewrite Hs, Ha.
    split; [done |]. split; [done |]. split; [done |]. split; [done |].
    split; [| by apply (lang_binding _ _ Hl)].
    exists [], (w ++ w'). split; [done |]. split; [done |].
    exists w, w'. done.
Qed.

End LocatorFacts.

Section LocatorOutcome.

Variable playerCode : string.

(** The two outcomes of the locator. *)
Lemma extractDecryptFunction_cases :
  ((forall re, re ∈ decrypt_patterns -> FindStringSubmatch re playerCode = []) /\
   extractDecryptFunction playerCode = Err NO_DECRYPT_FUNCTION) \/
  (exists k re before w w' after,
     decrypt_patterns !! k = Some re /\
     FindStringSubmatch re playerCode <> [] /\
     (forall j re', (j < k)%nat -> decrypt_patterns !! j = Some re' ->
                    FindStringSubmatch re' playerCode = []) /\
     at_ (FindStringSubmatch re playerCode) 1 = of_bytes w /\
     bytes playerCode = before ++ (w ++ w') ++ after /\
     Forall (fun a => cls_ident a = true) w /\
     ((if (k <? 2)%nat then 2 else 1) <= length w)%nat /\
     lang (expr re) (w ++ w') /\
     (exists w1 w2 after',
        w' = w1 ++ bytes "=" ++ w2 ++ bytes "function(" ++ after' /\
        Forall (fun a => cls_space a = true) w1 /\
        Forall (fun a => cls_space a = true) w2) /\
     extractDecryptFunction playerCode
     = Ok (of_bytes w,
           if is_empty (at_ (FindStringSubmatch re playerCode) 2)
           then at_ (FindStringSubmatch (helper_name_pattern (of_bytes w)) playerCode) 1
           else at_ (FindStringSubmatch re playerCode) 2)).
Proof.
  unfold extractDecryptFunction.
  destruct (first_names_spec decrypt_patterns playerCode decrypt_patterns_groups)
    as [[Hnone ->]|(k & re & Hk & Hm & Hfirst & ->)]; [by left | right].
  destruct (find re playerCode) as [[[b e] caps]|] eqn:Hfind;
    [| by apply FindStringSubmatch_nil in Hfind].
  destruct (decrypt_pattern_match k re playerCode b e caps Hk Hfind)
    as (before & w & w' & after & Hs & Hc & Hw & Hlen & Hl & Hbind).
  assert (at_ (FindStringSubmatch re playerCode) 1 = of_bytes w) as Hname.
  { unfold FindStringSubmatch, at_. rewrite Hfind.
    rewrite list_lookup_insert_ne by done. by rewrite Hc. }
  exists k, re, before, w, w', after.
  rewrite Hname.
  assert (is_empty (of_bytes w) = false) as ->.
  { destruct w; [| done]. destruct (k <? 2)%nat; simpl in Hlen; lia. }
  repeat (split; [done |]).
  f_equal. f_equal.
  destruct (is_empty (at_ (FindStringSubmatch re playerCode) 2)) eqn:Hh; [| done].
  destruct (FindStringSubmatch_length (helper_name_pattern (of_bytes w)) playerCode)
    as [-> | Hl2].
  - simpl. by apply is_empty_true in Hh.
  - rewrite Hl2. done.
Qed.

End LocatorOutcome.

Section HelperGroupFacts.

Variable playerCode : string.

(** The first and the second pattern have one group: nothing stands in
    the place of a helper name. *)
Lemma decrypt_pattern_one_group (k : nat) (re : Regexp) :
  (k < 2)%nat -> decrypt_patterns !! k = Some re ->
  at_ (FindStringSubmatch re playerCode) 2 = EmptyString.
Proof.
  intros Hk Hre. apply at_beyond.
  assert (ngroups re = 1%nat) as Hg.
  { destruct k as [|[|k]]; [| | lia]; by injection Hre as <-. }
  destruct (FindStringSubmatch_length re playerCode) as [-> | ->]; [simpl; lia |].
  rewrite Hg. lia.
Qed.

(** A match of the third pattern: the name, the opening of the function
    up to the split statement, the helper name and a period. *)
Lemma decrypt_pattern3_match (b e : nat) (caps : list string) :
  find decrypt_pattern3 playerCode = Some (b, e, caps) ->
  exists before n h after,
    bytes playerCode
    = before ++ n ++ bytes ("=function(a){a=a.split(" +:+ empty_literal +:+ ");")
             ++ h ++ bytes "." ++ after /\
    caps !! 1%nat = Some (of_bytes n) /\
    caps !! 2%nat = Some (of_bytes h) /\
    h <> [] /\ Forall (fun a => cls_ident a = true) h.
Proof.
  intros Hfind.
  apply find_Some in Hfind
    as (skipped & wm & rest & st & Hs & -> & -> & Hrun & Hst & -> & Hlen & _).
  unfold decrypt_pattern3 in Hrun. cbn [expr ngroups] in Hrun.
  apply elem_of_run_Seq in Hrun as (st1 & H1 & Hrun).
  apply run_Grp_Rep in H1 as (n & _ & _ & [Ha1 _] & Hc1 & Hl1);
    [| simpl; lia].
  apply elem_of_run_Seq in Hrun as (st2 & H2 & Hrun).
  pose proof (run_frame (Lit _) 1 ltac:(no_such_group) _ _ H2) as Hf2.
  destruct (run_lang _ _ _ H2) as (x & [Ha2 _] & Hx & Hl2).
  cbn [lang] in Hx. subst x.
  pose proof (run_frame (Grp 2 (plus cls_ident) >>> Lit ".") 1
                ltac:(no_such_group) _ _ Hrun) as Hf3.
  apply run_Grp_Rep_tail in Hrun
    as (h & dot & [Ha3 _] & Hc2 & Hh & Hhn & Hdot & _);
    [| rewrite Hl2, Hl1; simpl; lia | no_such_group].
  cbn [lang] in Hdot. subst dot.
  exists skipped, n, h, rest.
  split; [| split; [| split; [done | split; [| done]]]].
  - rewrite Hs. f_equal. simpl in Ha1. rewrite Ha1, Ha2, Ha3, Hst. simpl.
    by rewrite <- !app_assoc.
  - by rewrite Hf3, Hf2.
  - destruct h; [simpl in Hhn; lia | done].
Qed.

End HelperGroupFacts.

(** C7 (as amended). The locator tries its four patterns in order and
    takes the first that matches.  It fails, with its not-found error and
    no other, exactly when none matches.  The name it returns is the first
    group of that first match: a non-empty word over letters, digits and the
    dollar sign, of two bytes or more when the first or second pattern
    matched, standing in the blob before an equals sign and [function(] as
    the start of a text of the matching pattern.  When the first or the
    second pattern matched, which have no place for a helper name, the
    helper name is what the secondary pattern built on the name
    captures, or nothing.  When the third matched, it is the word the
    pattern holds between the split statement and the period. *)
Theorem extractDecryptFunction_first_matching_pattern (playerCode : string) :
  (extractDecryptFunction playerCode = Err NO_DECRYPT_FUNCTION <->
   forall re, re ∈ decrypt_patterns -> FindStringSubmatch re playerCode = []) /\
  (forall e, extractDecryptFunction playerCode = Err e -> e = NO_DECRYPT_FUNCTION) /\
  (forall funcName helperName,
     extractDecryptFunction playerCode = Ok (funcName, helperName) ->
     exists k re,
       decrypt_patterns !! k = Some re /\
       FindStringSubmatch re playerCode <> [] /\
       (forall j re', (j < k)%nat -> decrypt_patterns !! j = Some re' ->
                      FindStringSubmatch re' playerCode = []) /\
       funcName = at_ (FindStringSubmatch re playerCode) 1 /\
       funcName <> EmptyString /\
       Forall (fun a => cls_ident a = true) (bytes funcName) /\
       ((k < 2)%nat -> (2 <= String.length funcName)%nat) /\
       bound_to_function playerCode funcName /\
       (exists before w' after,
          bytes playerCode = before ++ (bytes funcName ++ w') ++ after /\
          lang (expr re) (bytes funcName ++ w')) /\
       ((k < 2)%nat ->
        helperName
        = at_ (FindStringSubmatch (helper_name_pattern funcName) playerCode) 1) /\
       (k = 2%nat ->
        helperName <> EmptyString /\
        Forall (fun a => cls_ident a = true) (bytes helperName) /\
        exists before after,
          bytes playerCode
          = before ++ bytes funcName
                   ++ bytes ("=function(a){a=a.split(" +:+ empty_literal +:+ ");")
                   ++ bytes helperName ++ bytes "." ++ after)).
Proof.
  destruct (extractDecryptFunction_cases playerCode)
    as [[Hnone Herr]
       |(k & re & before & w & w' & after & Hk & Hm & Hfirst & Hname & Hs & Hw
         & Hlen & Hl & (w1 & w2 & after' & Hw' & Hw1 & Hw2) & Hok)].
  - rewrite Herr. split; [done |]. split; [by intros e [= <-] | done].
  - rewrite Hok. split; [| split; [done |]].
    + split; [done |]. intros Hnone. exfalso. apply Hm, Hnone.
      by eapply list_elem_of_lookup_2.
    + intros funcName helperName [= <- <-].
      exists k, re. rewrite bytes_of_bytes.
      split; [done |]. split; [done |]. split; [done |]. split; [done |].
      split; [destruct w; [destruct (k <? 2)%nat; simpl in Hlen; lia | done] |].
      split; [done |].
      split.
      { intros Hk2. apply Nat.ltb_lt in Hk2. rewrite Hk2 in Hlen.
        by rewrite <- bytes_length, bytes_of_bytes. }
      split.
      { exists before, w1, w2, (after' ++ after). rewrite bytes_of_bytes.
        split; [| done]. rewrite Hs, Hw'. by rewrite <- !app_assoc. }
      split; [by exists before, w', after |].
      split.
      * intros Hk2. by rewrite (decrypt_pattern_one_group playerCode k re Hk2 Hk).
      * intros ->. injection Hk as <-.
        destruct (find decrypt_pattern3 playerCode) as [[[b e] caps]|] eqn:Hfind;
          [| by apply FindStringSubmatch_nil in Hfind].
        destruct (decrypt_pattern3_match playerCode b e caps Hfind)
          as (before3 & n & h & after3 & Hs3 & Hc1 & Hc2 & Hne & Hh).
        assert (at_ (FindStringSubmatch decrypt_pattern3 playerCode) 2 = of_bytes h)
          as Hat2.
        { unfold FindStringSubmatch, at_. rewrite Hfind.
          rewrite list_lookup_insert_ne by done. by rewrite Hc2. }
        assert (of_bytes w = of_bytes n) as Hwn.
        { rewrite <- Hname. unfold FindStringSubmatch, at_. rewrite Hfind.
          rewrite list_lookup_insert_ne by done. by rewrite Hc1. }
        rewrite Hat2.
        assert (is_empty (of_bytes h) = false) as -> by (by destruct h).
        apply (f_equal bytes) in Hwn. rewrite !bytes_of_bytes in Hwn.
        rewrite bytes_of_bytes, Hwn.
        split; [by destruct h |]. split; [done |].
        by exists before3, after3.
Qed.

(** C7 (as stated) fails: the third pattern accepts a name of one byte, and
    every pattern accepts the dollar sign, which is not alphanumeric. *)
Lemma extractDecryptFunction_short_name :
  let blob := ";x=function(a){a=a.split(" +:+ empty_literal +:+ ");Yz.ab(a,1)}" in
  let dollars := ";$$=function(a){a=a.split(" +:+ empty_literal +:+ ");Yz.ab(a,1)}" in
  extractDecryptFunction blob = Ok ("x", "Yz") /\
  String.length "x" = 1%nat /\
  extractDecryptFunction dollars = Ok ("$$", "Yz") /\
  forallb is_alnum (bytes "$$") = false.
Proof. repeat split. Qed.

(** The second group of the fourth pattern is the variable that is
    split, not a helper object; the theorem above says nothing of the
    helper name in that case. *)
Example extractDecryptFunction_fourth_pattern_group :
  extractDecryptFunction
    ("Xy=function(b){b=b.split(" +:+ empty_literal +:+ ");Yz.ab(b,1)}")
  = Ok ("Xy", "b") /\
  at_ (FindStringSubmatch (helper_name_pattern "Xy")
         ("Xy=function(b){b=b.split(" +:+ empty_literal +:+ ");Yz.ab(b,1)}")) 1
  = "Yz".
Proof. split; vm_compute; reflexivity. Qed.

(** ** The structural scan *)

Section ScanFacts.

(** One turn of the loop of extractFullDecryptFunction against one step
    of the scanner, with something open before it. *)
Lemma function_scan_byte_refines (st : scan_state) (s : lexer) (c : ascii) :
  represents st s ->
  (1 <= depth s)%Z ->
  match function_scan_byte st c with
  | Closed => depth (lex_byte s c) = 0%Z /\ c = "}"%char
  | Continue st' =>
      represents st' (lex_byte s c) /\ (1 <= depth (lex_byte s c))%Z
  end.
Proof.
  intros (Hd & He & Hm) Hpos.
  unfold function_scan_byte, lex_byte, count_brace. rewrite <- He.
  destruct (escapeNext st) eqn:Hesc.
  { unfold represents; simpl. by destruct (mode s). }
  destruct (Ascii.eqb c backslash_byte) eqn:Hbs.
  { unfold represents; simpl. by destruct (mode s). }
  destruct (mode s) as [|q] eqn:Hmode.
  - rewrite Hm. simpl.
    destruct (is_quote c) eqn:Hq; simpl; [done |].
    destruct (Ascii.eqb c "{") eqn:Ho; simpl.
    { unfold represents; simpl. repeat split; lia. }
    destruct (Ascii.eqb c "}") eqn:Hc; simpl.
    + rewrite Hd. destruct (Z.eqb_spec (depth s - 1) 0) as [E|E].
      * split; [done |]. by apply Ascii.eqb_eq.
      * unfold represents; simpl. repeat split; lia.
    + unfold represents. rewrite Hmode, Hesc. done.
  - destruct Hm as (Hin & Hsc & Hqq). rewrite Hin, Hsc. simpl.
    destruct (is_quote c) eqn:Hq; simpl.
    + destruct (Ascii.eqb c q) eqn:Hcq; simpl; [done |].
      unfold represents. rewrite Hmode, Hesc. done.
    + assert (Ascii.eqb c q = false) as ->.
      { destruct (Ascii.eqb_spec c q) as [->|]; [congruence | done]. }
      unfold represents. rewrite Hmode, Hesc. done.
Qed.

(** The loop against the scanner, from a state with something open. *)
Lemma scan_loop_refines (l : list ascii) :
  forall st s i0,
    represents st s ->
    (1 <= depth s)%Z ->
    match scan_loop function_scan_byte st i0 l with
    | Some i =>
        exists k, i = (i0 + k)%nat /\ l !! k = Some "}"%char /\
                  depth (foldl lex_byte s (take (S k) l)) = 0%Z /\
                  forall j, (j < k)%nat ->
                            (1 <= depth (foldl lex_byte s (take (S j) l)))%Z
    | None =>
        forall j, (j < length l)%nat ->
                  (1 <= depth (foldl lex_byte s (take (S j) l)))%Z
    end.
Proof.
  induction l as [|c l IH]; intros st s i0 Hrep Hpos; simpl.
  - intros j Hj. lia.
  - pose proof (function_scan_byte_refines st s c Hrep Hpos) as Hstep.
    destruct (function_scan_byte st c) as [st'|].
    + destruct Hstep as [Hrep' Hpos'].
      specialize (IH st' (lex_byte s c) (S i0) Hrep' Hpos').
      destruct (scan_loop function_scan_byte st' (S i0) l) as [i|].
      * destruct IH as (k & -> & Hk & Hz & Hlt).
        exists (S k). split; [lia |]. split; [done |]. split; [done |].
        intros [|j] Hj; simpl; [done | apply Hlt; lia].
      * intros [|j] Hj; simpl; [done | apply IH; lia].
    + destruct Hstep as [Hz ->].
      exists 0%nat. split; [lia |]. split; [done |].
      split; [done |]. intros j Hj. lia.
Qed.

(** The whole scan of extractFullDecryptFunction, started on an opening
    brace: it ends on the brace that first brings the depth back to
    zero, or never if there is none. *)
Lemma function_scan_closes (body : list ascii) (i0 : nat) :
  match scan_loop function_scan_byte scan_init i0 ("{"%char :: body) with
  | Some i => exists k, i = (i0 + k)%nat /\ closes_at ("{"%char :: body) k
  | None => never_closes ("{"%char :: body)
  end.
Proof.
  change (scan_loop function_scan_byte scan_init i0 ("{"%char :: body))
    with (scan_loop function_scan_byte
            {| braceCount := 1; inString := false; escapeNext := false;
               stringChar := zero |} (S i0) body).
  pose proof (scan_loop_refines body
                {| braceCount := 1; inString := false; escapeNext := false;
                   stringChar := zero |}
                (lex_byte lexer_init "{") (S i0)) as H.
  destruct (scan_loop function_scan_byte _ (S i0) body) as [i|].
  - destruct H as (k & -> & Hk & Hz & Hlt); [done | done |].
    exists (S k). split; [lia |]. split; [done |]. split; [done |].
    intros [|j] Hj; [done |]. apply Hlt. lia.
  - intros [|j] Hj; [done |]. apply H; [done | done | simpl in Hj; lia].
Qed.

(** Without quotes and backslashes the depth is the count of opening
    braces less the count of closing ones. *)
Lemma brace_depth_plain (l : list ascii) :
  Forall (fun c => is_quote c = false /\ c <> backslash_byte) l ->
  brace_depth l
  = (Z.of_nat (count_occ ascii_dec l "{"%char)
     - Z.of_nat (count_occ ascii_dec l "}"%char))%Z.
Proof.
  unfold brace_depth.
  assert (forall s, mode s = Code -> escaped s = false ->
            Forall (fun c => is_quote c = false /\ c <> backslash_byte) l ->
            depth (foldl lex_byte s l)
            = (depth s + Z.of_nat (count_occ ascii_dec l "{"%char)
               - Z.of_nat (count_occ ascii_dec l "}"%char))%Z) as H.
  { induction l as [|c l IH]; intros s Hm He Hl; simpl; [lia |].
    inversion Hl as [|? ? [Hq Hb] Hl']; subst.
    unfold lex_byte at 2. rewrite He, Hm, Hq.
    assert (Ascii.eqb c backslash_byte = false) as ->
      by (by apply Ascii.eqb_neq).
    destruct (Ascii.eqb_spec c "{") as [->|Ho].
    - rewrite IH by done. simpl. lia.
    - destruct (Ascii.eqb_spec c "}") as [->|Hc].
      + rewrite IH by done. simpl. lia.
      + rewrite IH by done.
        destruct (ascii_dec c "{") as [->|_]; [done |].
        destruct (ascii_dec c "}") as [->|_]; [done |]. lia. }
  intros Hl. by rewrite H.
Qed.

End ScanFacts.

(** ** extractFullDecryptFunction *)

Section FunctionFragmentFacts.

Variables playerCode funcName : string.

(** A match of the start pattern: the definition's header, then the
    opening brace. *)
Lemma function_start_match (b e : nat) (caps : list string) :
  find (function_start_pattern funcName) playerCode = Some (b, e, caps) ->
  exists before params body,
    bytes playerCode
    = before ++ (bytes funcName ++ bytes "=function(" ++ params ++ bytes ")")
             ++ "{"%char :: body /\
    b = length before /\
    e = S (length before
           + length (bytes funcName ++ bytes "=function(" ++ params ++ bytes ")")) /\
    Forall (fun a => is_alnum a = true) params /\ (1 <= length params)%nat.
Proof.
  intros Hfind.
  apply find_Some in Hfind
    as (skipped & wm & rest & st & Hs & -> & -> & Hrun & Hst & _ & _ & _).
  destruct (run_lang _ _ _ Hrun) as (w & [Ha _] & Hl & _).
  rewrite Hst in Ha. simpl in Ha. apply app_inv_tail in Ha as ->.
  destruct Hl as (w1 & w2 & -> & Hw1 & w3 & w4 & -> & Hw3 & w5 & w6 & ->
                  & [Hw5 Hn5] & Hw6).
  cbn [lang] in Hw1, Hw3, Hw6. subst w1 w3 w6.
  exists skipped, w5, rest.
  split; [| split; [done |]; split; [| done]].
  - rewrite Hs. change (bytes "){") with (bytes ")" ++ ["{"%char]).
    by rewrite <- !app_assoc.
  - change (bytes "){") with (bytes ")" ++ ["{"%char]).
    rewrite !length_app. simpl. lia.
Qed.

(** The three outcomes of extractFullDecryptFunction. *)
Lemma extractFullDecryptFunction_cases :
  (find (function_start_pattern funcName) playerCode = None /\
   extractFullDecryptFunction playerCode funcName
   = Err ("could not find function definition: " +:+ funcName)) \/
  (exists before params body,
     bytes playerCode
     = before ++ (bytes funcName ++ bytes "=function(" ++ params ++ bytes ")")
              ++ "{"%char :: body /\
     Forall (fun a => is_alnum a = true) params /\ (1 <= length params)%nat /\
     ((never_closes ("{"%char :: body) /\
       extractFullDecryptFunction playerCode funcName
       = Err ("could not find complete function definition: " +:+ funcName)) \/
      (exists k,
         closes_at ("{"%char :: body) k /\
         extractFullDecryptFunction playerCode funcName
         = Ok ("var " +:+ funcName +:+ "=function(" +:+ of_bytes params +:+ ")"
               +:+ of_bytes (take (S k) ("{"%char :: body)) +:+ ";")))).
Proof.
  unfold extractFullDecryptFunction, FindStringIndex.
  destruct (find (function_start_pattern funcName) playerCode)
    as [[[b e] caps]|] eqn:Hfind; [right | by left].
  destruct (function_start_match b e caps Hfind)
    as (before & params & body & Hs & -> & -> & Hp & Hn).
  exists before, params, body. split; [done |]. split; [done |]. split; [done |].
  set (header := bytes funcName ++ bytes "=function(" ++ params ++ bytes ")") in *.
  cbn [fmap option_fmap option_map fst]. unfold scan_from.
  replace (S (length before + length header) - 1)%nat
    with (length (before ++ header)) by (rewrite length_app; lia).
  rewrite Hs, app_assoc, drop_app_length.
  pose proof (function_scan_closes body (length (before ++ header))) as Hscan.
  destruct (scan_loop function_scan_byte scan_init _ ("{"%char :: body)) as [i|].
  - right. destruct Hscan as (k & -> & Hclose). exists k. split; [done |].
    f_equal. f_equal.
    assert (k < length ("{"%char :: body))%nat as Hk.
    { destruct Hclose as [Hk _]. by apply lookup_lt_Some in Hk. }
    assert (slice playerCode (length before) (length (before ++ header) + k + 1)
            = of_bytes (header ++ take (S k) ("{"%char :: body))) as ->.
    { replace (length (before ++ header) + k + 1)%nat
        with (length before + length (header ++ take (S k) ("{"%char :: body)))%nat.
      - apply (slice_bytes _ _ _ (drop (S k) ("{"%char :: body))).
        rewrite Hs, <- !app_assoc. by rewrite take_drop.
      - rewrite !length_app, length_take. lia. }
    unfold header. rewrite <- !app_assoc.
    rewrite !of_bytes_app, !of_bytes_bytes. by rewrite !append_assoc.
  - by left.
Qed.

End FunctionFragmentFacts.

(** ** extractHelperObject *)

Section HelperFragmentFacts.

(** A non-empty FindString is a text of the pattern that stands in the
    input. *)
Lemma FindString_lang (re : Regexp) (s : string) :
  FindString re s <> EmptyString ->
  exists before after,
    bytes s = before ++ bytes (FindString re s) ++ after /\
    lang (expr re) (bytes (FindString re s)).
Proof.
  unfold FindString.
  destruct (find re s) as [[[b e] caps]|] eqn:Hfind; [| done]. intros _.
  apply find_Some in Hfind
    as (skipped & wm & rest & st & Hs & -> & -> & Hrun & Hst & _ & _ & ->).
  destruct (run_lang _ _ _ Hrun) as (w & [Ha _] & Hl & _).
  rewrite Hst in Ha. simpl in Ha. apply app_inv_tail in Ha as ->.
  exists skipped, rest. by rewrite bytes_of_bytes.
Qed.

(** The loop over the patterns keeps the first non-empty match. *)
Lemma first_match_spec (patterns : list Regexp) (playerCode : string) :
  ((forall re, re ∈ patterns -> FindString re playerCode = EmptyString) /\
   first_match patterns playerCode = EmptyString) \/
  (exists k re,
     patterns !! k = Some re /\
     FindString re playerCode <> EmptyString /\
     (forall j re', (j < k)%nat -> patterns !! j = Some re' ->
                    FindString re' playerCode = EmptyString) /\
     first_match patterns playerCode = FindString re playerCode).
Proof.
  induction patterns as [|re patterns IH].
  - left. split; [| done]. intros re Hre. inversion Hre.
  - cbn [first_match].
    destruct (is_empty (FindString re playerCode)) eqn:E.
    + apply is_empty_true in E.
      destruct IH as [[Hnone Hm]|(k & re' & Hk & Hne & Hfirst & Hm)].
      * left. split; [| done]. intros re' Hre'.
        inversion Hre'; subst; [done | by apply Hnone].
      * right. exists (S k), re'. repeat split; [done | done | | done].
        intros [|j] re'' Hj Hre''; [by injection Hre'' as <- |].
        apply (Hfirst j); [lia | done].
    + apply is_empty_false in E. right. exists 0%nat, re.
      repeat split; [done |]. intros j re' Hj. lia.
Qed.

(** The two ways extractHelperObject ends when it is given a name. *)
Lemma extractHelperObject_named (playerCode helperName : string) :
  helperName <> EmptyString ->
  let m := first_match (helper_patterns helperName) playerCode in
  let terminated (t : string) := if HasSuffix t ";" then t else t +:+ ";" in
  (m <> EmptyString -> extractHelperObject playerCode helperName = Ok (terminated m)) /\
  (m = EmptyString ->
   extractHelperObject playerCode helperName
   = if is_empty (helper_manual_match playerCode helperName)
     then Err ("could not find helper object: " +:+ helperName)
     else Ok (terminated (helper_manual_match playerCode helperName))).
Proof.
  intros Hn m terminated. unfold extractHelperObject.
  rewrite (proj2 (is_empty_false _) Hn). fold m. split.
  - intros Hm. rewrite !(proj2 (is_empty_false _) Hm).
    unfold terminated. by destruct (HasSuffix m ";").
  - intros ->. simpl.
    destruct (is_empty (helper_manual_match playerCode helperName)); [done |].
    unfold terminated.
    by destruct (HasSuffix (helper_manual_match playerCode helperName) ";").
Qed.

End HelperFragmentFacts.

Section HelperPreemption.

Implicit Types (pre rest w : list ascii) (caps : list string).

Lemma run_Lit_here (s : string) pre rest caps :
  ((reverse (bytes s) ++ pre, rest), caps) ∈ run (Lit s) ((pre, bytes s ++ rest), caps).
Proof. by apply elem_of_run_Lit. Qed.

Lemma run_Rep_here (g : bool) (m : nat) (p : ascii -> bool) w pre rest caps :
  Forall (fun a => p a = true) w -> (m <= length w)%nat ->
  ((reverse w ++ pre, rest), caps) ∈ run (Rep g m p) ((pre, w ++ rest), caps).
Proof. intros Hw Hm. apply elem_of_run_Rep. by exists w. Qed.

Lemma run_Seq_here (r1 r2 : re) (st st1 st2 : mstate) :
  st1 ∈ run r1 st -> st2 ∈ run r2 st1 -> st2 ∈ run (r1 >>> r2) st.
Proof. intros H1 H2. apply elem_of_run_Seq. by exists st1. Qed.

Lemma find_Some_lang (re : Regexp) (s : string) (b e : nat) caps :
  find re s = Some (b, e, caps) ->
  exists before w after,
    bytes s = before ++ w ++ after /\
    slice s b e = of_bytes w /\ lang (expr re) w.
Proof.
  intros Hfind.
  apply find_Some in Hfind
    as (skipped & wm & rest & st & Hs & -> & -> & Hrun & Hst & _ & _ & ->).
  destruct (run_lang _ _ _ Hrun) as (w & [Ha _] & Hl & _).
  rewrite Hst in Ha. simpl in Ha. apply app_inv_tail in Ha as ->.
  by exists skipped, w, rest.
Qed.

Lemma run_Grp_here (i : nat) (r : re) (st st1 : mstate) :
  st1 ∈ run r st ->
  (st1.1, <[i := consumed st.1 st1.1]> st1.2) ∈ run (Grp i r) st.
Proof. intros H. apply elem_of_run_Grp. by exists st1. Qed.

Lemma HasSuffix_brace (l : list ascii) :
  HasSuffix (of_bytes (l ++ ["}"%char])) ";" = false.
Proof.
  unfold HasSuffix. by rewrite bytes_of_bytes, reverse_app.
Qed.

Variables playerCode helperName : string.
Variables before inner after : list ascii.

Hypothesis Hname : helperName <> EmptyString.
Hypothesis Hblob :
  bytes playerCode
  = before ++ bytes helperName ++ bytes "={" ++ inner ++ "}"%char :: after.
Hypothesis Hinner : inner <> [].
Hypothesis Hplain : Forall (fun c => c <> "}"%char) inner.

(** The second pattern matches such a blob. *)
Lemma helper_second_pattern_matches :
  exists re, helper_patterns helperName !! 1%nat = Some re /\
             FindString re playerCode <> EmptyString.
Proof.
  eexists. split; [reflexivity |].
  unfold FindString.
  destruct (find _ playerCode) as [[[b e] caps]|] eqn:Hfind.
  - apply find_Some_lang in Hfind as (_ & w & _ & _ & -> & Hl).
    destruct Hl as (w1 & w2 & -> & Hw1 & w3 & w4 & -> & Hw3 & _).
    cbn [lang] in Hw3. subst w3. destruct w1; done.
  - exfalso. unfold find in Hfind.
    pose proof (proj1 (search_None _ _ _ _) Hfind before _ Hblob) as Hrun.
    cbn [expr ngroups] in Hrun.
    assert (((reverse (bytes "}") ++ reverse inner ++ reverse (bytes "={")
              ++ reverse (bytes helperName) ++ reverse before ++ [], after),
             replicate 1 EmptyString)
            ∈ run (Lit helperName >>> Lit "={" >>> plus (cls_not "}") >>> Lit "}")
                ((reverse before ++ [],
                  bytes helperName ++ bytes "={" ++ inner ++ "}"%char :: after),
                 replicate 1 EmptyString)) as Hin.
    { eapply run_Seq_here; [apply run_Lit_here |].
      eapply run_Seq_here; [apply run_Lit_here |].
      eapply run_Seq_here; [| apply (run_Lit_here "}")].
      apply run_Rep_here.
      - eapply Forall_impl; [exact Hplain |]. intros c Hc. unfold cls_not.
        by destruct (Ascii.eqb_spec c "}").
      - destruct inner; [done | simpl; lia]. }
    rewrite Hrun in Hin. inversion Hin.
Qed.

(** So extractHelperObject returns a match of the first or second
    pattern: the text up to the first closing brace after the opening
    one, with a semicolon appended. *)
Lemma extractHelperObject_stops_at_first_brace :
  exists (var : string) (x : list ascii),
    (var = EmptyString \/ var = "var ") /\
    x <> [] /\ Forall (fun c => c <> "}"%char) x /\
    extractHelperObject playerCode helperName
    = Ok (var +:+ helperName +:+ "={" +:+ of_bytes x +:+ "};").
Proof.
  destruct helper_second_pattern_matches as (re2 & Hre2 & Hm2).
  destruct (extractHelperObject_named playerCode helperName Hname) as [Hres _].
  destruct (first_match_spec (helper_patterns helperName) playerCode)
    as [[Hnone _]|(k & re & Hk & Hne & Hfirst & Hm)].
  { exfalso. apply Hm2, Hnone. by eapply list_elem_of_lookup_2. }
  rewrite Hm in Hres. specialize (Hres Hne).
  destruct (FindString_lang re playerCode Hne) as (_ & _ & _ & Hl).
  assert (k < 2)%nat as Hk2.
  { destruct (decide (k < 2)%nat) as [|Hge]; [done |].
    exfalso. apply Hm2. apply (Hfirst 1%nat); [lia | done]. }
  assert (forall c : ascii, cls_not "}" c = true -> c <> "}"%char) as Hcls.
  { intros c Hc ->. done. }
  destruct k as [|[|k]]; [| | lia]; injection Hk as <-; cbn [expr] in Hl.
  - destruct Hl as (w0 & w1 & Hw & Hw0 & w2 & w3 & -> & Hw2 & w4 & w5 & -> & Hw4
                    & x & w6 & -> & [Hx Hnx] & Hw6).
    cbn [lang] in Hw0, Hw2, Hw4, Hw6. subst w0 w2 w4 w6.
    exists "var ", x. split; [by right |].
    split; [destruct x; [simpl in Hnx; lia | done] |].
    split; [by eapply Forall_impl |].
    rewrite Hres.
    replace (FindString _ playerCode)
      with (of_bytes ((bytes "var " ++ bytes helperName ++ bytes "={" ++ x) ++ ["}"%char])).
    + rewrite HasSuffix_brace. rewrite <- !app_assoc.
      rewrite !of_bytes_app, !of_bytes_bytes, !append_assoc. done.
    + rewrite <- !app_assoc. change ["}"%char] with (bytes "}").
      rewrite <- Hw. apply of_bytes_bytes.
  - destruct Hl as (w2 & w3 & Hw & Hw2 & w4 & w5 & -> & Hw4
                    & x & w6 & -> & [Hx Hnx] & Hw6).
    cbn [lang] in Hw2, Hw4, Hw6. subst w2 w4 w6.
    exists EmptyString, x. split; [by left |].
    split; [destruct x; [simpl in Hnx; lia | done] |].
    split; [by eapply Forall_impl |].
    rewrite Hres.
    replace (FindString _ playerCode)
      with (of_bytes ((bytes helperName ++ bytes "={" ++ x) ++ ["}"%char])).
    + rewrite HasSuffix_brace. rewrite <- !app_assoc.
      rewrite !of_bytes_app, !of_bytes_bytes, !append_assoc. done.
    + rewrite <- !app_assoc. change ["}"%char] with (bytes "}").
      rewrite <- Hw. apply of_bytes_bytes.
Qed.

End HelperPreemption.

(** Extraction of the descrambling function does the structural scan:
    when the start pattern finds nothing it fails; otherwise the blob
    holds the name, [=function(], a parameter, [)] and an opening brace,
    and the loop is the specification's scanner run from that brace: if
    the depth never comes back to zero it fails, and if it first does so
    at a closing brace the result is [var ], the definition up to and
    including that brace, and a semicolon, so the body taken has depth
    zero (and, when it holds neither quote nor backslash, as many
    opening as closing braces). *)
Theorem fragment_extraction_boundaries (playerCode name : string) :
  (find (function_start_pattern name) playerCode = None /\
   extractFullDecryptFunction playerCode name
   = Err ("could not find function definition: " +:+ name)) \/
  (exists before params body,
     bytes playerCode
     = before ++ (bytes name ++ bytes "=function(" ++ params ++ bytes ")")
              ++ "{"%char :: body /\
     Forall (fun a => is_alnum a = true) params /\ (1 <= length params)%nat /\
     ((never_closes ("{"%char :: body) /\
       extractFullDecryptFunction playerCode name
       = Err ("could not find complete function definition: " +:+ name)) \/
      (exists k,
         closes_at ("{"%char :: body) k /\
         extractFullDecryptFunction playerCode name
         = Ok ("var " +:+ name +:+ "=function(" +:+ of_bytes params +:+ ")"
               +:+ of_bytes (take (S k) ("{"%char :: body)) +:+ ";") /\
         brace_depth (take (S k) ("{"%char :: body)) = 0%Z /\
         (Forall (fun c => is_quote c = false /\ c <> backslash_byte)
                 (take (S k) ("{"%char :: body)) ->
          count_occ ascii_dec (take (S k) ("{"%char :: body)) "{"%char
          = count_occ ascii_dec (take (S k) ("{"%char :: body)) "}"%char)))).
Proof.
  destruct (extractFullDecryptFunction_cases playerCode name)
    as [Hnone|(before & params & body & Hs & Hp & Hn & Hscan)]; [by left | right].
  exists before, params, body. split; [done |]. split; [done |]. split; [done |].
  destruct Hscan as [Hnever|(k & Hclose & Hok)]; [by left | right].
  exists k. split; [done |]. split; [done |].
  destruct Hclose as (_ & Hz & _). split; [done |].
  intros Hplain. rewrite (brace_depth_plain _ Hplain) in Hz. lia.
Qed.

(** A closing brace inside a string, an escaped quote and a nested block
    do not end the function fragment early. *)
Lemma fragment_extraction_boundaries_witness :
  extractFullDecryptFunction Sample.tricky_player_code "Xy"
  = Ok Sample.tricky_fragment /\
  brace_depth (drop 18 (bytes Sample.tricky_fragment)) = 0%Z.
Proof.
  destruct (fragment_extraction_boundaries Sample.tricky_player_code "Xy")
    as [[_ Herr]|(before & params & body & _ & _ & _ & [[_ Herr]|(k & _ & Hok & _)])].
  - vm_compute in Herr. discriminate.
  - vm_compute in Herr. discriminate.
  - split; vm_compute; reflexivity.
Defined.

(** C4. The claim holds of the function extractor above and fails of
    extractHelperObject, whose patterns take the text up to the first
    closing brace before its own brace-matching scan can run: the text
    returned for an object with a nested block, or with a closing brace
    inside a string, stops at that brace and leaves a brace open. *)
Lemma extractHelperObject_not_balanced :
  extractHelperObject Sample.nested_helper_code "Yz"
  = Ok "var Yz={ab:function(a){a.reverse()};" /\
  brace_depth (bytes "{ab:function(a){a.reverse()}") = 1%Z /\
  extractHelperObject Sample.quoted_helper_code "Yz"
  = Ok ("var Yz={s:" +:+ dq +:+ "};") /\
  brace_depth (bytes ("{s:" +:+ dq +:+ "}")) = 1%Z.
Proof. repeat split. Qed.

(** ** The manifest marker *)

Section MarkerFacts.

Variable htmlContent : string.

Lemma manifest_text_find :
  manifest_text htmlContent
  = match find player_response_pattern htmlContent with
    | Some (_, _, caps) => Some (default EmptyString (caps !! 1%nat))
    | None => None
    end.
Proof.
  unfold manifest_text, FindStringSubmatch.
  destruct (find player_response_pattern htmlContent) as [[[b e] caps]|] eqn:Hfind;
    [| done].
  apply find_Some in Hfind as (? & ? & ? & ? & ? & ? & ? & ? & ? & ? & Hl & ?).
  rewrite length_insert, Hl. simpl. unfold at_.
  by rewrite list_lookup_insert_ne.
Qed.

(** A match of the marker pattern shows the marker. *)
Lemma marker_of_match :
  manifest_text htmlContent <> None -> has_one_line_marker htmlContent.
Proof.
  rewrite manifest_text_find.
  destruct (find player_response_pattern htmlContent) as [[[b e] caps]|] eqn:Hfind;
    [| done]. intros _.
  apply find_Some_lang in Hfind as (before & w & after & Hs & _ & Hl).
  destruct Hl as (w1 & w2 & -> & Hw1 & w3 & w4 & -> & Hgrp & Hw4).
  destruct Hgrp as (w5 & w6 & -> & Hw5 & body & w7 & -> & [Hbody Hn] & Hw7).
  cbn [lang] in Hw1, Hw4, Hw5, Hw7. subst w1 w4 w5 w7.
  exists before, body, after. split; [| split].
  - rewrite Hs. change (bytes "var ytInitialPlayerResponse = {")
      with (bytes "var ytInitialPlayerResponse = " ++ bytes "{").
    change (bytes "};") with (bytes "}" ++ bytes ";").
    by rewrite <- !app_assoc.
  - destruct body; [simpl in Hn; lia | done].
  - eapply Forall_impl; [exact Hbody |]. intros c Hc ->. done.
Qed.

(** The marker is found wherever it stands. *)
Lemma match_of_marker :
  has_one_line_marker htmlContent -> manifest_text htmlContent <> None.
Proof.
  intros (before & body & after & Hs & Hne & Hbody).
  rewrite manifest_text_find.
  destruct (find player_response_pattern htmlContent) as [[[b e] caps]|] eqn:Hfind;
    [done |]. exfalso.
  unfold find in Hfind.
  change (bytes "var ytInitialPlayerResponse = {")
    with (bytes "var ytInitialPlayerResponse = " ++ bytes "{") in Hs.
  change (bytes "};") with (bytes "}" ++ bytes ";") in Hs.
  rewrite <- !app_assoc in Hs.
  pose proof (proj1 (search_None _ _ _ _) Hfind before _ Hs) as Hrun.
  unfold player_response_pattern in Hrun. cbn [expr ngroups] in Hrun.
  set (caps0 := replicate 2 EmptyString) in *.
  set (pre0 := reverse before ++ []) in *.
  set (pre1 := reverse (bytes "var ytInitialPlayerResponse = ") ++ pre0).
  set (pre2 := reverse (bytes "}") ++ reverse body ++ reverse (bytes "{") ++ pre1).
  assert (((pre2, bytes ";" ++ after), caps0)
          ∈ run (Lit "{" >>> Rep false 1 cls_dot >>> Lit "}")
              ((pre1, bytes "{" ++ body ++ bytes "}" ++ bytes ";" ++ after), caps0))
    as Hinner.
  { eapply run_Seq_here; [apply run_Lit_here |].
    eapply run_Seq_here; [| apply run_Lit_here].
    apply run_Rep_here.
    - eapply Forall_impl; [exact Hbody |]. intros c Hc. unfold cls_dot.
      by destruct (Ascii.eqb_spec c newline_byte).
    - destruct body; [done | simpl; lia]. }
  apply (run_Grp_here 1) in Hinner. cbn [fst snd] in Hinner.
  assert (exists st, st ∈ run (expr player_response_pattern)
                       ((pre0, bytes "var ytInitialPlayerResponse = " ++ bytes "{"
                               ++ body ++ bytes "}" ++ bytes ";" ++ after), caps0))
    as [st Hst].
  { eexists. unfold player_response_pattern. cbn [expr].
    eapply run_Seq_here; [apply run_Lit_here |].
    eapply run_Seq_here; [exact Hinner |]. apply run_Lit_here. }
  unfold player_response_pattern in Hst. cbn [expr] in Hst.
  rewrite Hrun in Hst. inversion Hst.
Qed.

Lemma manifest_text_None_iff :
  manifest_text htmlContent = None <-> ~ has_one_line_marker htmlContent.
Proof.
  split.
  - intros Hnone Hmark. by apply match_of_marker in Hmark.
  - intros Hno. destruct (manifest_text htmlContent) eqn:E; [| done].
    exfalso. apply Hno, marker_of_match. by rewrite E.
Qed.

End MarkerFacts.

Lemma one_line_marker_is_marker (htmlContent : string) :
  has_one_line_marker htmlContent -> has_marker htmlContent.
Proof. intros (before & body & after & Hs & _). by exists before, body, after. Qed.

(** C8 (as amended). parseMeta fails with the not-found error exactly
    when the page does not hold the marker with a non-empty text without
    line break between its braces, which is a marker in the
    specification's sense; it fails with the malformed error (the
    decoder's message after a fixed prefix) exactly when such a marker
    is there and decoding the captured text fails, as it does, with a
    decoder that refuses what is not valid JSON, whenever the captured
    text is not valid JSON; the two errors differ; both outcomes depend
    on the page and the decoder only, not on the network or the sandbox;
    and once the captured text decodes, neither error is returned and
    the formats come from the two descriptor groups of the decoded
    structure. *)
Theorem parseMeta_manifest_errors (env : Env) (video_id htmlContent : string) :
  (parseMeta env video_id htmlContent = Err NOT_FOUND
   <-> ~ has_one_line_marker htmlContent) /\
  (has_one_line_marker htmlContent -> has_marker htmlContent) /\
  (forall e,
     parseMeta env video_id htmlContent = Err (MALFORMED +:+ e) <->
     exists txt, manifest_text htmlContent = Some txt /\ json_Unmarshal env txt = Err e) /\
  ((forall txt, Json.valid_json txt = false -> is_ok (json_Unmarshal env txt) = false) ->
   forall txt,
     manifest_text htmlContent = Some txt -> Json.valid_json txt = false ->
     exists e, parseMeta env video_id htmlContent = Err (MALFORMED +:+ e)) /\
  (forall e, NOT_FOUND <> MALFORMED +:+ e) /\
  (forall env' video_id',
     json_Unmarshal env' = json_Unmarshal env ->
     (parseMeta env' video_id' htmlContent = Err NOT_FOUND <->
      parseMeta env video_id htmlContent = Err NOT_FOUND) /\
     (forall e, parseMeta env' video_id' htmlContent = Err (MALFORMED +:+ e) <->
                parseMeta env video_id htmlContent = Err (MALFORMED +:+ e))) /\
  (forall txt pr,
     manifest_text htmlContent = Some txt ->
     json_Unmarshal env txt = Ok pr ->
     parseMeta env video_id htmlContent <> Err NOT_FOUND /\
     (forall e, parseMeta env video_id htmlContent <> Err (MALFORMED +:+ e)) /\
     returned_formats (parseMeta env video_id htmlContent)
     = omap (format_of env (fetched_playerCode env htmlContent))
            (sd_Formats (StreamingData pr))
       ++ omap (format_of env (fetched_playerCode env htmlContent))
               (sd_AdaptiveFormats (StreamingData pr))).
Proof.
  assert (forall env0 vid txt pr,
            manifest_text htmlContent = Some txt ->
            json_Unmarshal env0 txt = Ok pr ->
            (exists v, parseMeta env0 vid htmlContent = Ok v) \/
            parseMeta env0 vid htmlContent = Err NO_FORMATS) as Hdecoded.
  { intros env0 vid txt pr Ht Hpr.
    destruct (parseMeta_decoded env0 vid _ _ _ Ht Hpr) as [Hnil Hcons].
    match type of Hnil with ?fs = [] -> _ => destruct (decide (fs = [])) as [E|E] end.
    - right. by apply Hnil.
    - left. destruct (Hcons E) as (v & Hv & _). by exists v. }
  assert (forall env0 vid,
            parseMeta env0 vid htmlContent = Err NOT_FOUND <->
            manifest_text htmlContent = None) as Hnf.
  { intros env0 vid. split; [| apply parseMeta_not_found].
    intros H. destruct (manifest_text htmlContent) as [txt|] eqn:Ht; [| done].
    destruct (json_Unmarshal env0 txt) as [pr|e] eqn:Hpr.
    - destruct (Hdecoded env0 vid txt pr eq_refl Hpr) as [[v Hv]|Hv];
        rewrite Hv in H; discriminate.
    - rewrite (parseMeta_malformed env0 vid _ txt e Ht Hpr) in H. discriminate. }
  assert (forall env0 vid e,
            parseMeta env0 vid htmlContent = Err (MALFORMED +:+ e) <->
            exists txt, manifest_text htmlContent = Some txt /\
                        json_Unmarshal env0 txt = Err e) as Hmf.
  { intros env0 vid e. split.
    - intros H. destruct (manifest_text htmlContent) as [txt|] eqn:Ht.
      + exists txt. split; [done |].
        destruct (json_Unmarshal env0 txt) as [pr|e'] eqn:Hpr.
        * destruct (Hdecoded env0 vid txt pr eq_refl Hpr) as [[v Hv]|Hv];
            rewrite Hv in H; discriminate.
        * rewrite (parseMeta_malformed env0 vid _ txt e' Ht Hpr) in H.
          injection H as H. by apply append_inv_head in H as ->.
      + rewrite parseMeta_not_found in H by done. discriminate.
    - intros (txt & Ht & He). by apply (parseMeta_malformed env0 vid _ txt). }
  split; [by rewrite Hnf, manifest_text_None_iff |].
  split; [apply one_line_marker_is_marker |].
  split; [apply Hmf |].
  split.
  { intros Hrefuses txt Ht Hbad. specialize (Hrefuses txt Hbad).
    destruct (json_Unmarshal env txt) as [pr|e] eqn:Hpr; [done |].
    exists e. by apply (parseMeta_malformed env video_id _ txt). }
  split; [done |]. split.
  - intros env' video_id' Hjson. split.
    + by rewrite !Hnf.
    + intros e. by rewrite !Hmf, Hjson.
  - intros txt pr Ht Hpr.
    split; [| split].
    + rewrite Hnf, Ht. done.
    + intros e [txt' [Ht' He]]%Hmf. congruence.
    + destruct (parseMeta_decoded env video_id _ _ _ Ht Hpr) as [Hnil Hcons].
      match type of Hnil with ?fs = [] -> _ => destruct (decide (fs = [])) as [E|E] end.
      * by rewrite (Hnil E), E.
      * destruct (Hcons E) as (v & -> & Hv & _). exact Hv.
Qed.

(** C8 (as stated) fails, both ways: a page whose marker has an empty
    object, or an object on two lines, holds the marker and gets the
    not-found error whatever the decoder; and a captured text that is
    valid JSON, with a number where the structure has an object, gets
    the malformed error from a decoder that, as json.Unmarshal does,
    refuses the number. *)
Lemma parseMeta_misses_markers_and_shapes :
  has_marker SampleRest.empty_object_page /\
  (forall env video_id,
     parseMeta env video_id SampleRest.empty_object_page = Err NOT_FOUND) /\
  has_marker SampleRest.two_line_page /\
  (forall env video_id,
     parseMeta env video_id SampleRest.two_line_page = Err NOT_FOUND) /\
  manifest_text SampleRest.misshapen_page = Some SampleRest.misshapen_text /\
  Json.valid_json SampleRest.misshapen_text = true /\
  parseMeta SampleRest.typed_env "abc" SampleRest.misshapen_page
  = Err (MALFORMED +:+ SampleRest.type_error).
Proof.
  split.
  { exists [], [], []. reflexivity. }
  split.
  { intros env video_id. apply parseMeta_not_found. vm_compute. reflexivity. }
  split.
  { exists [], (bytes (String newline_byte EmptyString +:+ dq +:+ "videoDetails"
                        +:+ dq +:+ ":{}")), [].
    vm_compute. reflexivity. }
  split.
  { intros env video_id. apply parseMeta_not_found. vm_compute. reflexivity. }
  repeat apply conj; vm_compute; reflexivity.
Qed.

(** A page without the marker, and a page whose manifest does not decode. *)
Example parseMeta_manifest_errors_sample :
  let env := Sample.env_of Sample.swap_script Sample.player_code Sample.direct_manifest in
  parseMeta env "abc" "<html>no manifest here</html>" = Err NOT_FOUND /\
  parseMeta env "abc" "var ytInitialPlayerResponse = {oops};"
  = Err "failed to parse player response: unexpected end of JSON input".
Proof. split; vm_compute; reflexivity. Qed.


(** * Further properties of the package *)

Import YoutubeRest Main RestProps.

(** ** GetExtension *)

Lemma at_index_None {A} (l : list A) (index : Z) :
  at_index l index = None <-> (index < 0 \/ Z.of_nat (length l) <= index)%Z.
Proof.
  unfold at_index. destruct (Z.ltb_spec index 0).
  - split; [by left | done].
  - rewrite lookup_ge_None. lia.
Qed.

Lemma first_contained_spec (formats : list string) (video_type : string) :
  (exists i, formats !! i = Some (first_contained formats video_type) /\
             Contains video_type (first_contained formats video_type) = true /\
             forall j f, (j < i)%nat -> formats !! j = Some f ->
                         Contains video_type f = false) \/
  (first_contained formats video_type = "avi" /\
   forall f, f ∈ formats -> Contains video_type f = false).
Proof.
  induction formats as [|f formats IH]; simpl.
  - right. split; [done |]. intros f Hf. inversion Hf.
  - destruct (Contains video_type f) eqn:Hc.
    + left. exists 0%nat. repeat split; [done |]. intros j g Hj. lia.
    + destruct IH as [(i & Hi & Hin & Hfirst)|[Hdef Hnone]].
      * left. exists (S i). repeat split; [done | done |].
        intros [|j] g Hj Hg; [by injection Hg as <- |].
        apply (Hfirst j); [lia | done].
      * right. split; [done |]. intros g Hg.
        inversion Hg; subst; [done | by apply Hnone].
Qed.

(** X1. For an index within the formats, GetExtension returns one of the
    five extensions of the package list: the first of them, in the list's
    order, that the format's type contains, and avi when it contains none.
    For an index below zero or beyond the formats it panics. *)
Theorem GetExtension_first_known_extension (v : Video) (index : Z) :
  (GetExtension v index = None
   <-> (index < 0 \/ Z.of_nat (length (Formats v)) <= index)%Z) /\
  (forall format, at_index (Formats v) index = Some format ->
     exists ext,
       GetExtension v index = Some ext /\
       ext ∈ Formats_var /\
       ((exists i, Formats_var !! i = Some ext /\
                   Contains (Video_type format) ext = true /\
                   forall j f, (j < i)%nat -> Formats_var !! j = Some f ->
                               Contains (Video_type format) f = false) \/
        (ext = "avi" /\
         forall f, f ∈ Formats_var -> Contains (Video_type format) f = false))).
Proof.
  unfold GetExtension. split.
  - rewrite <- at_index_None.
    by destruct (at_index (Formats v) index).
  - intros format ->. eexists. split; [reflexivity |].
    destruct (first_contained_spec Formats_var (Video_type format))
      as [(i & Hi & Hin & Hfirst)|[Hdef Hnone]].
    + split; [by eapply list_elem_of_lookup_2 |]. left. by exists i.
    + split; [| by right]. rewrite Hdef. unfold Formats_var.
      do 4 right. left.
Qed.

Example GetExtension_samples :
  first_contained Formats_var "video/mp4; codecs=avc1" = "mp4" /\
  first_contained Formats_var "video/3gpp" = "3gp" /\
  first_contained Formats_var "audio/webm" = "webm" /\
  first_contained Formats_var "video/x-matroska" = "avi".
Proof. repeat split. Qed.

(** ** The formats parseMeta builds *)

Lemma quality_label_nonempty (f : streamFormat) : quality_label f <> EmptyString.
Proof.
  unfold quality_label. destruct (is_empty (sf_Quality f)) eqn:E.
  - destruct (0 <? sf_Height f)%Z; [| done].
    destruct (itoa (sf_Height f)); done.
  - by apply is_empty_false.
Qed.

(** X2. Every format that parseMeta returns is made from a descriptor of
    the manifest the page holds, progressive or adaptive: it has the
    descriptor's itag and its type, and a quality label that is never
    empty: the descriptor's own, else its height followed by p, else
    unknown. *)
Theorem parseMeta_formats_from_descriptors
    (env : Env) (video_id htmlContent : string) (v : Video) (g : Format) :
  parseMeta env video_id htmlContent = Ok v ->
  g ∈ Formats v ->
  Quality g <> EmptyString /\
  exists txt pr f,
    manifest_text htmlContent = Some txt /\
    json_Unmarshal env txt = Ok pr /\
    f ∈ sd_Formats (StreamingData pr) ++ sd_AdaptiveFormats (StreamingData pr) /\
    Itag g = sf_Itag f /\ Video_type g = sf_MimeType f /\
    Quality g = (if is_empty (sf_Quality f)
                 then if (0 <? sf_Height f)%Z then itoa (sf_Height f) +:+ "p" else "unknown"
                 else sf_Quality f).
Proof.
  intros Hv Hg.
  destruct (parseMeta_Ok_inv env _ _ _ Hv) as (txt & pr & Ht & Hpr & Hfs & _).
  rewrite Hfs, <- omap_app in Hg.
  apply list_elem_of_omap in Hg as (f & Hf & Hg).
  unfold format_of in Hg.
  destruct (is_empty (resolveURL env (fetched_playerCode env htmlContent) f)); [done |].
  injection Hg as <-. simpl. split; [apply quality_label_nonempty |].
  exists txt, pr, f. done.
Qed.

Lemma parseMeta_formats_from_descriptors_witness :
  Quality (Sample.format 22 "http://x.test/b") <> EmptyString /\
  exists txt pr f,
    manifest_text Sample.page = Some txt /\
    json_Unmarshal
      (Sample.env_of Sample.swap_script Sample.player_code Sample.direct_manifest)
      txt = Ok pr /\
    f ∈ sd_Formats (StreamingData pr) ++ sd_AdaptiveFormats (StreamingData pr) /\
    Itag (Sample.format 22 "http://x.test/b") = sf_Itag f /\
    Video_type (Sample.format 22 "http://x.test/b") = sf_MimeType f /\
    Quality (Sample.format 22 "http://x.test/b")
    = (if is_empty (sf_Quality f)
       then if (0 <? sf_Height f)%Z then itoa (sf_Height f) +:+ "p" else "unknown"
       else sf_Quality f).
Proof.
  apply (parseMeta_formats_from_descriptors
           (Sample.env_of Sample.swap_script Sample.player_code Sample.direct_manifest)
           "abc" Sample.page
           {| Id := "abc"; Title := "t"; Author := "au"; Keywords := "[k1 k2]";
              Thumbnail_url := EmptyString; View_count := 7; Length_seconds := 12;
              Formats := [Sample.format 18 "http://x.test/a";
                          Sample.format 22 "http://x.test/b";
                          Sample.format 137 "http://x.test/c"];
              Filename := EmptyString |}).
  - vm_compute. reflexivity.
  - simpl. right. left.
Defined.


Section ResolveFacts.
Variable env : Env.

(** The separator, parameter name and escaped signature that decipherURL
    appends. *)
Lemma decipherURL_Ok_inv (signatureCipher playerCode out : string) :
  decipherURL env signatureCipher playerCode = Ok out ->
  exists params,
    Url.ParseQuery signatureCipher = Ok params /\
    Url.Get params "url" <> EmptyString /\
    (out = Url.Get params "url" \/
     exists dec,
       Url.Get params "s" <> EmptyString /\
       decryptSignature env (Url.Get params "s") playerCode = Ok dec /\
       out = Url.Get params "url"
             +:+ (if Contains (Url.Get params "url") "?" then "&" else "?")
             +:+ (if is_empty (Url.Get params "sp") then "signature"
                  else Url.Get params "sp")
             +:+ "=" +:+ Url.QueryEscape dec).
Proof.
  unfold decipherURL.
  destruct (Url.ParseQuery signatureCipher) as [params|e] eqn:Hq; [| done]. simpl.
  destruct (is_empty (Url.Get params "url")) eqn:Hu; [done |].
  apply is_empty_false in Hu.
  destruct (is_empty (Url.Get params "s")) eqn:Hs.
  - intros [= <-]. exists params. eauto.
  - apply is_empty_false in Hs.
    destruct (decryptSignature env (Url.Get params "s") playerCode) as [dec|e] eqn:Hd;
      [| done]. simpl.
    intros H. exists params. split; [done |]. split; [done |]. right. exists dec.
    split; [done |]. split; [done |].
    destruct (Contains (Url.Get params "url") "?"); by injection H as <-.
Qed.

Lemma resolveURL_cases (playerCode : string) (f : streamFormat) :
  resolveURL env playerCode f = resolveURL_older f \/
  exists params dec,
    sf_URL f = EmptyString /\
    Url.ParseQuery (sf_SignatureCipher f) = Ok params /\
    resolveURL_older f = Url.Get params "url" /\
    Url.Get params "url" <> EmptyString /\
    Url.Get params "s" <> EmptyString /\
    playerCode <> EmptyString /\
    decryptSignature env (Url.Get params "s") playerCode = Ok dec /\
    resolveURL env playerCode f
    = Url.Get params "url"
      +:+ (if Contains (Url.Get params "url") "?" then "&" else "?")
      +:+ (if is_empty (Url.Get params "sp") then "signature" else Url.Get params "sp")
      +:+ "=" +:+ Url.QueryEscape dec.
Proof.
  unfold resolveURL, resolveURL_older.
  destruct (is_empty (sf_URL f) && negb (is_empty (sf_SignatureCipher f))) eqn:Hc;
    [| by left].
  apply andb_true_iff in Hc as [Hu Hc]. apply is_empty_true in Hu.
  destruct (Url.ParseQuery (sf_SignatureCipher f)) as [params|e] eqn:Hq; [| by left].
  destruct (is_empty playerCode) eqn:Hp; simpl; [by left |].
  destruct (is_empty (Url.Get params "s")) eqn:Hs; simpl; [by left |].
  destruct (decipherURL env (sf_SignatureCipher f) playerCode) as [out|e] eqn:Hd;
    [| by left].
  apply decipherURL_Ok_inv in Hd as (params' & Hq' & Hurl & Hout).
  rewrite Hq in Hq'. injection Hq' as <-.
  destruct Hout as [-> | (dec & Hs' & Hdec & ->)]; [by left |].
  right. exists params, dec. apply is_empty_false in Hp. done.
Qed.

Lemma append_empty_inv (s t : string) : s +:+ t = EmptyString -> s = EmptyString.
Proof. by destruct s. Qed.

Lemma resolveURL_empty (playerCode : string) (f : streamFormat) :
  is_empty (resolveURL env playerCode f) = is_empty (resolveURL_older f).
Proof.
  destruct (resolveURL_cases playerCode f)
    as [-> | (params & dec & _ & _ & -> & Hurl & _ & _ & _ & ->)]; [done |].
  rewrite (proj2 (is_empty_false _) Hurl). apply is_empty_false.
  intros H. by apply append_empty_inv in H.
Qed.

End ResolveFacts.


Section OlderFacts.
Variable env : Env.

Lemma foldl_add_format_older (l : list streamFormat) :
  forall acc, foldl add_format_older acc l = acc ++ omap format_of_older l.
Proof.
  induction l as [|f l IH]; intros acc; simpl.
  - by rewrite app_nil_r.
  - rewrite IH. unfold add_format_older, format_of_older.
    destruct (is_empty (resolveURL_older f)); [done |].
    by rewrite <- app_assoc.
Qed.

Lemma parseMeta_older_cases (video_id htmlContent : string) :
  match manifest_text htmlContent with
  | None => parseMeta_older env video_id htmlContent = Err NOT_FOUND
  | Some txt =>
      match json_Unmarshal env txt with
      | Err e => parseMeta_older env video_id htmlContent = Err (MALFORMED +:+ e)
      | Ok pr =>
          let fs := omap format_of_older
                      (sd_Formats (StreamingData pr)
                       ++ sd_AdaptiveFormats (StreamingData pr)) in
          (fs = [] -> parseMeta_older env video_id htmlContent
                      = Err "no formats available (may require signature decryption)") /\
          (fs <> [] -> exists v, parseMeta_older env video_id htmlContent = Ok v /\
                                 Formats v = fs)
      end
  end.
Proof.
  unfold manifest_text, parseMeta_older.
  destruct (length (FindStringSubmatch player_response_pattern htmlContent) <? 2)%nat;
    [done |].
  destruct (json_Unmarshal env _) as [pr|e]; [| done]. simpl.
  rewrite foldl_add_format_older. simpl.
  destruct (omap format_of_older _) as [|g fs]; simpl.
  - split; [done | congruence].
  - split; [discriminate |]. intros _. eexists. split; [reflexivity | done].
Qed.

Lemma omap_labels (playerCode : string) (l : list streamFormat) :
  label <$> omap (format_of env playerCode) l = label <$> omap format_of_older l.
Proof.
  induction l as [|f l IH]; [done |].
  change (omap (format_of env playerCode) (f :: l))
    with (match format_of env playerCode f with
          | Some g => g :: omap (format_of env playerCode) l
          | None => omap (format_of env playerCode) l
          end).
  change (omap format_of_older (f :: l))
    with (match format_of_older f with
          | Some g => g :: omap format_of_older l
          | None => omap format_of_older l
          end).
  unfold format_of at 1, format_of_older at 1.
  rewrite resolveURL_empty.
  destruct (is_empty (resolveURL_older f)); [done |].
  rewrite !fmap_cons, IH. done.
Qed.

Lemma omap_without_playerCode (l : list streamFormat) :
  omap (format_of env EmptyString) l = omap format_of_older l.
Proof.
  induction l as [|f l IH]; [done |].
  change (omap (format_of env EmptyString) (f :: l))
    with (match format_of env EmptyString f with
          | Some g => g :: omap (format_of env EmptyString) l
          | None => omap (format_of env EmptyString) l
          end).
  change (omap format_of_older (f :: l))
    with (match format_of_older f with
          | Some g => g :: omap format_of_older l
          | None => omap format_of_older l
          end).
  assert (resolveURL env EmptyString f = resolveURL_older f) as Hr.
  { destruct (resolveURL_cases env EmptyString f)
      as [-> | (? & ? & _ & _ & _ & _ & _ & Hp & _)]; done. }
  unfold format_of at 1, format_of_older at 1. rewrite Hr, IH. done.
Qed.

End OlderFacts.

(** X3. The current parseMeta and the older one in the same file list
    the same streams: one succeeds exactly when the other does, and the
    formats agree in number, order, itag, type and quality; descrambling
    changes URLs only. Without player code the two return the same
    Video, and the same error but for the longer text of the older one
    when no format is left. Neither the HTTP client nor the script
    engine changes which streams are listed. *)
Theorem parseMeta_lists_the_same_streams
    (env : Env) (video_id htmlContent : string) :
  is_ok (parseMeta env video_id htmlContent)
  = is_ok (parseMeta_older env video_id htmlContent) /\
  label <$> returned_formats (parseMeta env video_id htmlContent)
  = label <$> returned_formats (parseMeta_older env video_id htmlContent) /\
  (fetched_playerCode env htmlContent = EmptyString ->
   parseMeta_older env video_id htmlContent
   = match parseMeta env video_id htmlContent with
     | Ok v => Ok v
     | Err e => Err (older_error e)
     end) /\
  (forall env',
     json_Unmarshal env' = json_Unmarshal env ->
     is_ok (parseMeta env' video_id htmlContent)
     = is_ok (parseMeta env video_id htmlContent) /\
     label <$> returned_formats (parseMeta env' video_id htmlContent)
     = label <$> returned_formats (parseMeta env video_id htmlContent)).
Proof.
  assert (forall env0,
            is_ok (parseMeta env0 video_id htmlContent)
            = is_ok (parseMeta_older env0 video_id htmlContent) /\
            label <$> returned_formats (parseMeta env0 video_id htmlContent)
            = label <$> returned_formats (parseMeta_older env0 video_id htmlContent) /\
            (fetched_playerCode env0 htmlContent = EmptyString ->
             parseMeta_older env0 video_id htmlContent
             = match parseMeta env0 video_id htmlContent with
               | Ok v => Ok v
               | Err e => Err (older_error e)
               end)) as Hboth.
  { intros env0.
    pose proof (parseMeta_older_cases env0 video_id htmlContent) as Hold.
    destruct (manifest_text htmlContent) as [txt|] eqn:Ht.
    - destruct (json_Unmarshal env0 txt) as [pr|e] eqn:Hpr.
      + destruct (parseMeta_decoded env0 video_id _ _ _ Ht Hpr) as [Hnil Hcons].
        rewrite <- omap_app in Hnil, Hcons.
        destruct Hold as [Hnil' Hcons'].
        set (pc := fetched_playerCode env0 htmlContent) in *.
        set (all := sd_Formats (StreamingData pr)
                    ++ sd_AdaptiveFormats (StreamingData pr)) in *.
        pose proof (omap_labels env0 pc all) as Hlab.
        destruct (omap (format_of env0 pc) all) as [|g fs] eqn:E1;
          destruct (omap format_of_older all) as [|g' fs'] eqn:E2; try done.
        * rewrite Hnil, Hnil' by done. done.
        * destruct Hcons as (v & Hv & Hfs & _); [done |].
          destruct Hcons' as (v' & Hv' & Hfs'); [done |].
          rewrite Hv, Hv'. simpl. rewrite Hfs, Hfs'.
          split; [done |]. split; [done |].
          intros Hpc. subst pc. rewrite Hpc in E1.
          rewrite omap_without_playerCode, E2 in E1. injection E1 as <- <-.
          revert Hv Hv'. unfold parseMeta, parseMeta_older.
          revert Ht. unfold manifest_text.
          destruct (length (FindStringSubmatch player_response_pattern htmlContent) <? 2)%nat;
            [done |].
          intros [= ->]. rewrite Hpr. simpl.
          rewrite foldl_add_format, foldl_add_format_older. simpl.
          rewrite Hpc. fold all. rewrite omap_without_playerCode, E2. simpl.
          by intros [= <-] [= <-].
      + rewrite (parseMeta_malformed env0 video_id _ txt e Ht Hpr), Hold. done.
    - rewrite (parseMeta_not_found env0 video_id _ Ht), Hold. done. }
  destruct (Hboth env) as (Hok & Hlab & Hsame).
  split; [done |]. split; [done |]. split; [done |].
  intros env' Hjson.
  destruct (Hboth env') as (Hok' & Hlab' & _).
  rewrite Hok, Hlab, Hok', Hlab'.
  assert (parseMeta_older env' video_id htmlContent
          = parseMeta_older env video_id htmlContent) as ->; [| done].
  unfold parseMeta_older. by rewrite Hjson.
Qed.


(** ** The URL of a ciphered stream *)

Section EscapeFacts.

Lemma prefix_append (s t : string) : String.prefix s (s +:+ t) = true.
Proof.
  induction s as [|a s IH]; [by destruct t |].
  change (String.prefix (String a s) (String a (s +:+ t)) = true).
  simpl. by destruct (ascii_dec a a).
Qed.






End EscapeFacts.


(** ** Get, again *)

(** X5. Given a watch URL that url.Parse accepts and whose query has a
    non-empty v, Get fetches and parses the page of that identifier: it
    is Get of the identifier itself, and a Video it returns carries the
    identifier, not the URL, and at least one format. *)
Theorem Get_resolves_watch_URL_as_identifier
    (env : Env) (input : string) (u : Url.URL) (id : string) :
  Contains input "youtube.com/watch?" = true ->
  url_Parse env input = Ok u ->
  Url.Get (Url.Query u) "v" = id ->
  id <> EmptyString ->
  Get env input = (fetchMeta env id ≫= parseMeta env id) /\
  (Contains id "youtube.com/watch?" = false -> Get env input = Get env id) /\
  (forall v, Get env input = Ok v -> Id v = id /\ Formats v <> []).
Proof.
  intros Hc Hu Hv Hne.
  assert (extractId env input = Ok id) as Hid.
  { unfold extractId. rewrite Hu. simpl. rewrite Hv.
    by rewrite (proj2 (is_empty_false _) Hne). }
  assert (Get env input = (fetchMeta env id ≫= parseMeta env id)) as HG.
  { unfold Get. rewrite Hc, Hid. simpl.
    destruct (fetchMeta env id) as [query|e]; simpl; [| done].
    by destruct (parseMeta env id query). }
  split; [done |]. split.
  - intros Hbare. rewrite HG. unfold Get. rewrite Hbare.
    destruct (fetchMeta env id) as [query|e]; simpl; [| done].
    by destruct (parseMeta env id query).
  - intros v. rewrite HG.
    destruct (fetchMeta env id) as [query|e]; simpl; [| done].
    intros Hq.
    destruct (parseMeta_Ok_inv env _ _ _ Hq) as (txt & pr & Ht & Hpr & _ & Hfs).
    split; [| done].
    destruct (parseMeta_decoded env id _ _ _ Ht Hpr) as [Hnil Hcons].
    match type of Hnil with ?fs = [] -> _ => destruct (decide (fs = [])) as [E|E] end.
    + rewrite (Hnil E) in Hq. discriminate.
    + destruct (Hcons E) as (v' & Hv' & _ & Hid'). congruence.
Qed.

Lemma Get_resolves_watch_URL_as_identifier_witness :
  Get (Sample.env_of Sample.swap_script Sample.player_code Sample.direct_manifest)
    "https://www.youtube.com/watch?v=abc&t=1"
  = Get (Sample.env_of Sample.swap_script Sample.player_code Sample.direct_manifest)
      "abc" /\
  (forall v,
     Get (Sample.env_of Sample.swap_script Sample.player_code Sample.direct_manifest)
       "https://www.youtube.com/watch?v=abc&t=1" = Ok v ->
     Id v = "abc" /\ Formats v <> []).
Proof.
  destruct (Get_resolves_watch_URL_as_identifier
              (Sample.env_of Sample.swap_script Sample.player_code Sample.direct_manifest)
              "https://www.youtube.com/watch?v=abc&t=1"
              {| Url.RawQuery := "v=abc&t=1" |} "abc")
    as (_ & Hbare & Hv).
  - vm_compute. reflexivity.
  - vm_compute. reflexivity.
  - vm_compute. reflexivity.
  - done.
  - split; [apply Hbare; vm_compute; reflexivity | exact Hv].
Defined.


(** X6. A Video that Get returns comes from a page served with status
    200 at the watch URL of the identifier the Video carries: that
    request was answered, its status was 200 and parseMeta made the
    Video from its body. For an identifier that is not a watch URL, a
    request that fails is Get's error, and any other status is
    reported by its number; no page is parsed then. *)
Theorem Get_success_comes_from_status_200 (env : Env) (input : string) :
  let request id := {| req_url := "https://www.youtube.com/watch?v=" +:+ id;
                       req_user_agent := USER_AGENT |} in
  (forall v, Get env input = Ok v ->
     exists resp,
       http_Do env (request (Id v)) = Ok resp /\
       StatusCode resp = 200%Z /\
       parseMeta env (Id v) (Body resp) = Ok v /\
       Formats v <> [] /\
       (Id v = input \/ Contains input "youtube.com/watch?" = true)) /\
  (Contains input "youtube.com/watch?" = false ->
   (forall e, http_Do env (request input) = Err e -> Get env input = Err e) /\
   (forall resp, http_Do env (request input) = Ok resp ->
      StatusCode resp <> 200%Z ->
      Get env input
      = Err ("failed to fetch video page: status " +:+ itoa (StatusCode resp)))).
Proof.
  intros request. split.
  - intros v. unfold Get.
    set (id := if Contains input "youtube.com/watch?"
               then or_empty (extractId env input) else input).
    assert (id = input \/ Contains input "youtube.com/watch?" = true) as Hid.
    { unfold id. destruct (Contains input "youtube.com/watch?"); [by right | by left]. }
    clearbody id. unfold fetchMeta, URL_META. fold (request id).
    destruct (http_Do env (request id)) as [resp|e] eqn:Hdo; [| done].
    cbn [mbind result_bind].
    destruct (Z.eqb_spec (StatusCode resp) 200) as [Hs|Hs]; [| done].
    cbn [negb mbind result_bind].
    destruct (parseMeta env id (Body resp)) as [meta|e] eqn:Hq; [| done].
    cbn [mbind result_bind]. intros [= ->].
    destruct (parseMeta_Ok_inv env _ _ _ Hq) as (txt & pr & Ht & Hpr & _ & Hfs).
    assert (Id v = id) as Hv.
    { destruct (parseMeta_decoded env id _ _ _ Ht Hpr) as [Hnil Hcons].
      match type of Hnil with ?fs = [] -> _ => destruct (decide (fs = [])) as [E|E] end.
      - rewrite (Hnil E) in Hq. discriminate.
      - destruct (Hcons E) as (v' & Hv' & _ & Hid'). congruence. }
    rewrite Hv. by exists resp.
  - intros Hbare. unfold Get. rewrite Hbare. unfold fetchMeta, URL_META.
    fold (request input). split.
    + by intros e ->.
    + intros resp -> Hs. simpl.
      by destruct (Z.eqb_spec (StatusCode resp) 200).
Qed.


(** ** extractPlayerURL *)

Section PlayerURLFacts.

(** A group captures the text its pattern ran over. *)
Lemma run_Grp_lang (i : nat) (r : re) (st st' : mstate) :
  (i < length st.2)%nat ->
  st' ∈ run (Grp i r) st ->
  exists w, advances w st st' /\ lang r w /\
            st'.2 !! i = Some (of_bytes w) /\ length st'.2 = length st.2.
Proof.
  intros Hi (st1 & H1 & ->)%elem_of_run_Grp.
  destruct (run_lang _ _ _ H1) as (w & Ha & Hl & Hn).
  exists w. split; [done |]. split; [done |]. simpl.
  rewrite (consumed_advances w) by done. rewrite length_insert.
  split; [| done]. apply list_lookup_insert_eq. by rewrite Hn.
Qed.

Variable htmlContent : string.

Lemma player_url_match (b e : nat) (caps : list string) :
  find player_url_pattern htmlContent = Some (b, e, caps) ->
  exists before path after,
    bytes htmlContent
    = before ++ bytes (dq +:+ "jsUrl" +:+ dq +:+ ":" +:+ dq) ++ bytes "/s/player/"
             ++ path ++ bytes dq ++ after /\
    path <> [] /\ Forall (fun c => c <> quote_byte) path /\
    caps !! 1%nat = Some (of_bytes (bytes "/s/player/" ++ path)).
Proof.
  intros Hfind.
  apply find_Some in Hfind
    as (skipped & wm & rest & st & Hs & -> & -> & Hrun & Hst & -> & _ & _).
  unfold player_url_pattern in Hrun. cbn [expr ngroups] in Hrun.
  apply elem_of_run_Seq in Hrun as (st1 & H1 & Hrun).
  apply elem_of_run_Seq in Hrun as (st2 & H2 & H3).
  apply elem_of_run_Lit in H1 as [[Ha1 _] Hc1].
  apply run_Grp_lang in H2 as (w & [Ha2 _] & Hl & Hc2 & _);
    [| rewrite Hc1; simpl; lia].
  apply elem_of_run_Lit in H3 as [[Ha3 _] Hc3].
  destruct Hl as (w1 & path & -> & Hw1 & [Hpath Hn]). cbn [lang] in Hw1. subst w1.
  exists skipped, path, st.1.2.
  split; [| split; [| split]].
  - rewrite Hs. simpl in Ha1. rewrite Ha1, Ha2, Ha3. by rewrite <- !app_assoc.
  - destruct path; [simpl in Hn; lia | done].
  - eapply Forall_impl; [exact Hpath |]. intros c Hc ->. done.
  - by rewrite Hc3.
Qed.

Lemma player_url_found :
  has_player_url htmlContent -> find player_url_pattern htmlContent <> None.
Proof.
  intros (before & path & after & Hs & Hne & Hpath) Hfind.
  unfold find in Hfind.
  pose proof (proj1 (search_None _ _ _ _) Hfind before _ Hs) as Hrun.
  unfold player_url_pattern in Hrun. cbn [expr ngroups] in Hrun.
  set (caps0 := replicate 2 EmptyString) in *.
  set (pre0 := reverse before ++ []) in *.
  set (pre1 := reverse (bytes (dq +:+ "jsUrl" +:+ dq +:+ ":" +:+ dq)) ++ pre0).
  set (pre2 := reverse path ++ reverse (bytes "/s/player/") ++ pre1).
  assert (((pre2, bytes dq ++ after), caps0)
          ∈ run (Lit "/s/player/" >>> plus (cls_not quote_byte))
              ((pre1, bytes "/s/player/" ++ path ++ bytes dq ++ after), caps0))
    as Hinner.
  { eapply run_Seq_here; [apply run_Lit_here |].
    apply run_Rep_here.
    - eapply Forall_impl; [exact Hpath |]. intros c Hc. unfold cls_not.
      by destruct (Ascii.eqb_spec c quote_byte).
    - destruct path; [done | simpl; lia]. }
  apply (run_Grp_here 1) in Hinner. cbn [fst snd] in Hinner.
  assert (exists st, st ∈ run (Lit (dq +:+ "jsUrl" +:+ dq +:+ ":" +:+ dq) >>>
                               Grp 1 (Lit "/s/player/" >>> plus (cls_not quote_byte)) >>>
                               Lit dq)
                       ((pre0, bytes (dq +:+ "jsUrl" +:+ dq +:+ ":" +:+ dq)
                               ++ bytes "/s/player/" ++ path ++ bytes dq ++ after), caps0))
    as [st Hst].
  { eexists.
    eapply run_Seq_here; [apply run_Lit_here |].
    eapply run_Seq_here; [exact Hinner |]. apply run_Lit_here. }
  rewrite Hrun in Hst. inversion Hst.
Qed.

Lemma ReplaceAll_player_path (t : string) :
  exists t',
    ReplaceAll ("/s/player/" +:+ t) (String backslash_byte "/") "/"
    = "/s/player/" +:+ t'.
Proof.
  eexists. unfold ReplaceAll. cbn. reflexivity.
Qed.

End PlayerURLFacts.

(** X7. extractPlayerURL fails, and with this one error, exactly when
    the page holds no jsUrl key followed by a quoted, non-empty path
    under /s/player/. Otherwise the URL it returns is on
    https://www.youtube.com under /s/player/: the host followed by such
    a path of the page with every backslash-slash pair replaced by a
    slash. *)
Theorem extractPlayerURL_names_a_player_script (htmlContent : string) :
  (extractPlayerURL htmlContent = Err NO_PLAYER_URL <-> ~ has_player_url htmlContent) /\
  (forall e, extractPlayerURL htmlContent = Err e -> e = NO_PLAYER_URL) /\
  (forall playerURL,
     extractPlayerURL htmlContent = Ok playerURL ->
     String.prefix "https://www.youtube.com/s/player/" playerURL = true /\
     exists before path after,
       bytes htmlContent
       = before ++ bytes (dq +:+ "jsUrl" +:+ dq +:+ ":" +:+ dq) ++ bytes "/s/player/"
                ++ path ++ bytes dq ++ after /\
       path <> [] /\ Forall (fun c => c <> quote_byte) path /\
       playerURL
       = "https://www.youtube.com"
         +:+ ReplaceAll ("/s/player/" +:+ of_bytes path) (String backslash_byte "/") "/").
Proof.
  unfold extractPlayerURL, FindStringSubmatch.
  destruct (find player_url_pattern htmlContent) as [[[b e] caps]|] eqn:Hfind.
  - pose proof Hfind as Hlen.
    apply find_Some in Hlen as (? & ? & ? & ? & ? & ? & ? & ? & ? & ? & Hlen & ?).
    rewrite length_insert, Hlen. cbn [ngroups player_url_pattern Nat.ltb Nat.leb].
    destruct (player_url_match htmlContent b e caps Hfind)
      as (before & path & after & Hs & Hne & Hpath & Hc).
    assert (at_ (<[0%nat := slice htmlContent b e]> caps) 1
            = "/s/player/" +:+ of_bytes path) as Hat.
    { unfold at_. rewrite list_lookup_insert_ne by done. rewrite Hc.
      cbn [default option_map from_option].
      by rewrite of_bytes_app, of_bytes_bytes. }
    rewrite Hat.
    split; [| split; [done |]].
    + split; [done |]. intros Hno. exfalso. apply Hno. by exists before, path, after.
    + intros playerURL [= <-]. split.
      * destruct (ReplaceAll_player_path (of_bytes path)) as [t' ->].
        apply (prefix_append "https://www.youtube.com/s/player/" t').
      * by exists before, path, after.
  - simpl. split; [| split; [by intros e' [= <-] | done]].
    split; [| done]. intros _ Hhas. by apply player_url_found in Hhas.
Qed.


(** ** The start of a function definition *)

Section FunctionHeaderFacts.

Variables playerCode funcName : string.

Lemma function_header_found :
  has_function_header playerCode funcName ->
  find (function_start_pattern funcName) playerCode <> None.
Proof.
  intros (before & params & after & Hs & Hne & Hp) Hfind.
  unfold find in Hfind.
  pose proof (proj1 (search_None _ _ _ _) Hfind before _ Hs) as Hrun.
  cbn [expr ngroups function_start_pattern] in Hrun.
  assert (exists st,
            st ∈ run (Lit funcName >>> Lit "=function(" >>> plus is_alnum >>> Lit "){")
                   ((reverse before ++ [],
                     bytes funcName ++ bytes "=function(" ++ params ++ bytes "){" ++ after),
                    replicate 1 EmptyString)) as [st Hst].
  { eexists.
    eapply run_Seq_here; [apply run_Lit_here |].
    eapply run_Seq_here; [apply run_Lit_here |].
    eapply run_Seq_here; [| apply run_Lit_here].
    apply run_Rep_here; [done |]. destruct params; [done | simpl; lia]. }
  rewrite Hrun in Hst. inversion Hst.
Qed.

End FunctionHeaderFacts.

(** X8. extractFullDecryptFunction reports a missing function
    definition exactly when the blob holds no header of the name: the
    name, [=function(], one or more letters or digits, [)] and an
    opening brace, with nothing between them. With a header it returns
    a fragment or reports an incomplete definition. *)
Theorem extractFullDecryptFunction_needs_header (playerCode funcName : string) :
  (extractFullDecryptFunction playerCode funcName
   = Err ("could not find function definition: " +:+ funcName)
   <-> ~ has_function_header playerCode funcName) /\
  (has_function_header playerCode funcName ->
   (exists code, extractFullDecryptFunction playerCode funcName = Ok code) \/
   extractFullDecryptFunction playerCode funcName
   = Err ("could not find complete function definition: " +:+ funcName)).
Proof.
  destruct (extractFullDecryptFunction_cases playerCode funcName)
    as [[Hnone Herr]|(before & params & body & Hs & Hp & Hn & Hscan)].
  - assert (~ has_function_header playerCode funcName) as Hno.
    { intros Hh. by apply function_header_found in Hh. }
    rewrite Herr. split; [done |]. intros Hh. by destruct Hno.
  - assert (has_function_header playerCode funcName) as Hh.
    { exists before, params, body. split; [| split; [| done]].
      - rewrite Hs. change (bytes "){") with (bytes ")" ++ ["{"%char]).
        by rewrite <- !app_assoc.
      - destruct params; [simpl in Hn; lia | done]. }
    destruct Hscan as [[_ Herr]|(k & _ & Hok)]; rewrite ?Herr, ?Hok.
    + split; [| by right]. split; [| done].
      intros [= H].
    + split; [| left; by eexists]. split; [done | done].
Qed.


(** ** The manual scan of extractHelperObject *)

Lemma helper_scan_byte_Closed (st : scan_state) (c : ascii) :
  helper_scan_byte st c = Closed -> c = "}"%char.
Proof.
  unfold helper_scan_byte, count_brace. intros H.
  destruct (escapeNext st); [done |].
  destruct (Ascii.eqb c backslash_byte); [done |].
  destruct (is_quote c); [done |].
  destruct (negb (inString st)); [| done].
  destruct (Ascii.eqb c "{"); [done |].
  by destruct (Ascii.eqb_spec c "}").
Qed.

Lemma helper_scan_without_brace (l : list ascii) :
  Forall (fun c => c <> "}"%char) l ->
  forall st i, scan_loop helper_scan_byte st i l = None.
Proof.
  induction 1 as [|c l Hc _ IH]; intros st i; [done |].
  cbn [scan_loop].
  destruct (helper_scan_byte st c) eqn:E; [apply IH |].
  by apply helper_scan_byte_Closed in E.
Qed.

(** The bytes of a list up to its first closing brace. *)
Lemma split_at_first_brace (l : list ascii) :
  Forall (fun c => c <> "}"%char) l \/
  exists x after, l = x ++ "}"%char :: after /\ Forall (fun c => c <> "}"%char) x.
Proof.
  induction l as [|c l IH]; [by left |].
  destruct (decide (c = "}"%char)) as [->|Hc].
  - right. by exists [], l.
  - destruct IH as [Hl|(x & after & -> & Hx)].
    + left. by constructor.
    + right. exists (c :: x), after. split; [done | by constructor].
Qed.

Section HelperScanFacts.

Variables playerCode helperName : string.

Hypothesis Hnone :
  forall re, re ∈ helper_patterns helperName ->
             FindString re playerCode = EmptyString.

(** With no pattern matching, an opening brace of the object is followed
    by its closing brace at once, or by no closing brace at all. *)
Lemma helper_open_brace_followed (before rest : list ascii) :
  bytes playerCode = before ++ bytes helperName ++ bytes "={" ++ rest ->
  (exists after, rest = "}"%char :: after) \/
  Forall (fun c => c <> "}"%char) rest.
Proof.
  intros Hs.
  destruct (split_at_first_brace rest) as [Hr|(x & after & -> & Hx)]; [by right |].
  destruct x as [|c x]; [left; by exists after |].
  exfalso.
  destruct (helper_second_pattern_matches playerCode helperName before
              (c :: x) after Hs) as (re & Hre & Hne); [done | done |].
  apply Hne, Hnone. by eapply list_elem_of_lookup_2.
Qed.

Lemma helper_manual_match_cases :
  helper_manual_match playerCode helperName = EmptyString \/
  helper_manual_match playerCode helperName = helperName +:+ "={}" \/
  helper_manual_match playerCode helperName = "var " +:+ helperName +:+ "={}".
Proof.
  unfold helper_manual_match, FindStringIndex.
  destruct (find (helper_start_pattern helperName) playerCode)
    as [[[b e] caps]|] eqn:Hfind; [| by left].
  cbn [fmap option_fmap option_map fst].
  apply find_Some in Hfind
    as (skipped & wm & rest & st & Hs & -> & -> & Hrun & Hst & _ & _ & _).
  destruct (run_lang _ _ _ Hrun) as (w & [Ha _] & Hl & _).
  rewrite Hst in Ha. simpl in Ha. apply app_inv_tail in Ha as ->.
  unfold helper_start_pattern in Hl. cbn [expr lang] in Hl.
  destruct Hl as (w1 & w2 & -> & Hw1 & w3 & w4 & -> & -> & ->).
  set (head := w1 ++ bytes helperName ++ ["="%char]).
  assert (w1 ++ bytes helperName ++ bytes "={" = head ++ ["{"%char]) as Hw.
  { unfold head. change (bytes "={") with (["="%char] ++ ["{"%char]).
    by rewrite <- !app_assoc. }
  rewrite Hw in Hs |- *.
  assert (exists before,
            bytes playerCode = before ++ bytes helperName ++ bytes "={" ++ rest)
    as [before Hb].
  { exists (skipped ++ w1). rewrite Hs. unfold head.
    change (bytes "={") with (["="%char] ++ ["{"%char]).
    by rewrite <- !app_assoc. }
  unfold scan_from.
  replace (length skipped + length (head ++ ["{"%char]) - 1)%nat
    with (length (skipped ++ head))
    by (rewrite !length_app; simpl; lia).
  replace (bytes playerCode) with ((skipped ++ head) ++ "{"%char :: rest)
    by (rewrite Hs, <- !app_assoc; done).
  rewrite drop_app_length.
  destruct (helper_open_brace_followed before rest Hb) as [[after ->]|Hr].
  - cbn [scan_loop].
    change (helper_scan_byte scan_init "{") with
      (Continue {| braceCount := 1; inString := false; escapeNext := false;
                   stringChar := zero |}).
    cbn [scan_loop].
    change (helper_scan_byte _ "}") with Closed.
    cbn iota. right.
    assert (slice playerCode (length skipped)
              (S (length (skipped ++ head)) + 1)
            = of_bytes (head ++ bytes "{}")) as ->.
    { replace (S (length (skipped ++ head)) + 1)%nat
        with (length skipped + length (head ++ bytes "{}"))%nat
        by (rewrite !length_app; simpl; lia).
      apply (slice_bytes playerCode skipped (head ++ bytes "{}") after).
      rewrite Hs. change (bytes "{}") with (["{"%char] ++ ["}"%char]).
      by rewrite <- !app_assoc. }
    unfold head. rewrite <- !app_assoc.
    rewrite !of_bytes_app, of_bytes_bytes.
    destruct Hw1 as [Hw1| ->].
    + right. cbn [lang] in Hw1. subst w1. by rewrite of_bytes_bytes.
    + by left.
  - left. cbn [scan_loop].
    change (helper_scan_byte scan_init "{") with
      (Continue {| braceCount := 1; inString := false; escapeNext := false;
                   stringChar := zero |}).
    cbn iota. by rewrite (helper_scan_without_brace rest Hr).
Qed.

End HelperScanFacts.

Lemma empty_object_text (pre name : string) :
  of_bytes ((bytes pre ++ bytes name ++ bytes "={") ++ ["}"%char])
  = pre +:+ name +:+ "={}".
Proof. by rewrite <- !app_assoc, !of_bytes_app, !of_bytes_bytes. Qed.

Lemma empty_object_terminated (pre name : string) :
  of_bytes ((bytes pre ++ bytes name ++ bytes "={") ++ ["}"%char]) +:+ ";"
  = pre +:+ name +:+ "={};".
Proof. by rewrite empty_object_text, !append_assoc. Qed.

Lemma empty_object_nonempty (l : list ascii) :
  is_empty (of_bytes (l ++ ["}"%char])) = false.
Proof.
  apply is_empty_false. intros H. apply (f_equal bytes) in H.
  rewrite bytes_of_bytes in H. by destruct l.
Qed.

(** X9. For a name that is not empty, extractHelperObject returns a
    match of one of its three patterns (with a semicolon added when
    missing) whenever one of them matches. When none does, the
    structural scan that follows can only find the empty object: the
    result is the name, [={}] and a semicolon, with or without [var]
    before it, or the error. The scan never returns an object with
    members. *)
Theorem extractHelperObject_scan_yields_empty_object (playerCode helperName : string)
    (Hname : helperName <> EmptyString) :
  let terminated (t : string) := if HasSuffix t ";" then t else t +:+ ";" in
  (exists k re,
     helper_patterns helperName !! k = Some re /\
     FindString re playerCode <> EmptyString /\
     extractHelperObject playerCode helperName
     = Ok (terminated (FindString re playerCode))) \/
  ((forall re, re ∈ helper_patterns helperName ->
               FindString re playerCode = EmptyString) /\
   (extractHelperObject playerCode helperName = Ok (helperName +:+ "={};") \/
    extractHelperObject playerCode helperName = Ok ("var " +:+ helperName +:+ "={};") \/
    extractHelperObject playerCode helperName
    = Err ("could not find helper object: " +:+ helperName))).
Proof.
  intros terminated.
  destruct (extractHelperObject_named playerCode helperName Hname) as [Hm Hm0].
  destruct (first_match_spec (helper_patterns helperName) playerCode)
    as [[Hnone Hfm]|(k & re & Hk & Hne & _ & Hfm)].
  - right. split; [done |]. rewrite (Hm0 Hfm).
    destruct (helper_manual_match_cases playerCode helperName Hnone)
      as [-> | [-> | ->]].
    + by right; right.
    + left. change (helperName +:+ "={}") with (EmptyString +:+ helperName +:+ "={}").
      rewrite <- (empty_object_text EmptyString), empty_object_nonempty.
      by rewrite HasSuffix_brace, empty_object_terminated.
    + right; left. rewrite <- (empty_object_text "var "), empty_object_nonempty.
      by rewrite HasSuffix_brace, empty_object_terminated.
  - left. exists k, re. split; [done |]. split; [done |].
    rewrite <- Hfm. apply Hm. by rewrite Hfm.
Qed.

Lemma extractHelperObject_scan_yields_empty_object_witness :
  extractHelperObject Sample.player_code_with_helper "Yz" = Ok "var Yz={};" /\
  forall re, re ∈ helper_patterns "Yz" ->
             FindString re Sample.player_code_with_helper = EmptyString.
Proof.
  split; [vm_compute; reflexivity |].
  destruct (extractHelperObject_scan_yields_empty_object
              Sample.player_code_with_helper "Yz" ltac:(done))
    as [(k & re & Hk & Hne & _)|[Hnone _]]; [| exact Hnone].
  exfalso. destruct k as [|[|[|k]]]; [| | | done];
    injection Hk as <-; apply Hne; vm_compute; reflexivity.
Defined.

(** ** decryptSignature and the function header *)

(** X10. When the locator has found the descrambling function's name,
    decryptSignature fails with the error of the missing function
    definition exactly when the blob holds no compact header of that
    name (the name, [=function(], an alphanumeric parameter, [){]
    without white space). The locator's first, second and fourth
    pattern allow white space there, so a function they find can be
    one the extraction does not. *)
Theorem decryptSignature_needs_compact_header
    (env : Env) (signature playerCode funcName helperName : string) :
  extractDecryptFunction playerCode = Ok (funcName, helperName) ->
  (decryptSignature env signature playerCode
   = Err ("could not find function definition: " +:+ funcName)
   <-> ~ has_function_header playerCode funcName).
Proof.
  intros Hloc.
  destruct (extractFullDecryptFunction_cases playerCode funcName)
    as [[Hnone Herr]|(before & params & body & Hs & Hp & Hn & Hscan)].
  - split.
    + intros _ Hh. by apply function_header_found in Hh.
    + intros _. by apply (decryptSignature_fragment_fails env signature playerCode
                            funcName helperName).
  - assert (has_function_header playerCode funcName) as Hh.
    { exists before, params, body. split; [| split; [| done]].
      - rewrite Hs. change (bytes "){") with (bytes ")" ++ ["{"%char]).
        by rewrite <- !app_assoc.
      - destruct params; [simpl in Hn; lia | done]. }
    split; [| by intros H; destruct H].
    intros Hres. exfalso.
    destruct Hscan as [[_ Herr]|(k & _ & Hok)].
    + rewrite (decryptSignature_fragment_fails env signature playerCode
                 funcName helperName _ Hloc Herr) in Hres.
      by injection Hres.
    + revert Hres. unfold decryptSignature. rewrite Hloc.
      cbn [mbind result_bind]. rewrite Hok. cbn [mbind result_bind].
      destruct (negb (is_empty (or_empty (extractHelperObject playerCode helperName)))).
      * destruct (RunString (goja env) (goja_New (goja env)) _) as [vm [v|e]];
          cbn [wrap_err mbind result_bind]; [| by intros [= H]].
        destruct (RunString (goja env) vm _) as [vm' [v'|e]];
          cbn [wrap_err mbind result_bind]; [| by intros [= H]].
        destruct (RunString (goja env) vm' _) as [vm'' [v''|e]];
          cbn [wrap_err mbind result_bind]; [done | by intros [= H]].
      * cbn [mbind result_bind].
        destruct (RunString (goja env) (goja_New (goja env)) _) as [vm' [v'|e]];
          cbn [wrap_err mbind result_bind]; [| by intros [= H]].
        destruct (RunString (goja env) vm' _) as [vm'' [v''|e]];
          cbn [wrap_err mbind result_bind]; [done | by intros [= H]].
Qed.

Lemma decryptSignature_needs_compact_header_witness :
  extractDecryptFunction SampleRest.spaced_player_code = Ok ("Xy", EmptyString) /\
  decryptSignature
    (Sample.env_of Sample.swap_script SampleRest.spaced_player_code
       Sample.ciphered_manifest)
    "AABB" SampleRest.spaced_player_code
  = Err "could not find function definition: Xy" /\
  ~ has_function_header SampleRest.spaced_player_code "Xy".
Proof.
  assert (extractDecryptFunction SampleRest.spaced_player_code
          = Ok ("Xy", EmptyString)) as Hloc by (vm_compute; reflexivity).
  split; [exact Hloc |].
  assert (decryptSignature
            (Sample.env_of Sample.swap_script SampleRest.spaced_player_code
               Sample.ciphered_manifest)
            "AABB" SampleRest.spaced_player_code
          = Err "could not find function definition: Xy") as Hres
    by (vm_compute; reflexivity).
  split; [exact Hres |].
  exact (proj1 (decryptSignature_needs_compact_header _ _ _ _ _ Hloc) Hres).
Defined.

(** ** Download *)

Section DownloadFacts.

Variable host : Host.
Variables (files : Files) (video : Video) (index : Z) (filename : string)
          (option : Option).

Lemma io_Copy_complete (resp : TransferResponse) written :
  io_Copy host filename resp = (written, None) ->
  written = tr_Body resp /\ tr_BodyError resp = None /\
  forall n e, file_Write host filename = Some (n, e) ->
              (length (tr_Body resp) <= n)%nat.
Proof.
  unfold io_Copy.
  destruct (file_Write host filename) as [[n e]|].
  - destruct (Nat.ltb_spec n (length (tr_Body resp))); [done |].
    intros [= <- ->]. split; [done |]. split; [done |].
    by intros ? ? [= <- <-].
  - intros [= <- ->]. done.
Qed.

Lemma io_Copy_complete_2 (resp : TransferResponse) :
  tr_BodyError resp = None ->
  (forall n e, file_Write host filename = Some (n, e) ->
               (length (tr_Body resp) <= n)%nat) ->
  io_Copy host filename resp = (tr_Body resp, None).
Proof.
  unfold io_Copy. intros -> Hroom.
  destruct (file_Write host filename) as [[n e]|]; [| done].
  specialize (Hroom n e eq_refl).
  destruct (Nat.ltb_spec n (length (tr_Body resp))); [lia | done].
Qed.

Lemma io_Copy_prefix (resp : TransferResponse) written err :
  io_Copy host filename resp = (written, err) ->
  written `prefix_of` tr_Body resp.
Proof.
  unfold io_Copy.
  destruct (file_Write host filename) as [[n e]|].
  - destruct (n <? length (tr_Body resp))%nat; intros [= <- <-];
      [apply prefix_take | done].
  - by intros [= <- <-].
Qed.

(** When nothing refuses the file, Download comes to the copy exactly
    when the body is served. *)
Lemma Download_served (resp : TransferResponse) :
  os_OpenFile host filename = None ->
  (Resume option = true -> file_Seek host filename = None) ->
  served host video index resp ->
  Download host files video index filename option
  = (<[filename := kept files filename option
                   ++ (io_Copy host filename resp).1]> files,
     set_Filename video filename,
     Returned (io_Copy host filename resp).2).
Proof.
  intros Hopen Hseek (format & head & Hf & Hhead & Hs & Hlen & Hget).
  unfold Download, kept. rewrite Hopen.
  assert ((if Resume option then file_Seek host filename else None) = None) as ->.
  { destruct (Resume option); [by apply Hseek | done]. }
  rewrite Hf, Hhead.
  destruct (Z.eqb_spec (tr_StatusCode head) 403); [done |].
  rewrite (proj2 (is_empty_false _) Hlen), Hget.
  destruct (io_Copy host filename resp). by rewrite insert_insert_eq.
Qed.

Lemma Download_not_served files' video' st :
  os_OpenFile host filename = None ->
  Download host files video index filename option = (files', video', st) ->
  (forall resp, ~ served host video index resp) \/
  (exists err, Resume option = true /\ file_Seek host filename = Some err) ->
  files' = <[filename := kept files filename option]> files /\
  st <> Returned None /\
  (video' = video \/ video' = set_Filename video filename).
Proof.
  intros Hopen H Hnot. unfold Download in H. rewrite Hopen in H. fold (kept files filename option) in H.
  destruct (if Resume option then file_Seek host filename else None) eqn:Hseek.
  { injection H as <- <- <-. split; [done |]. split; [done | by left]. }
  destruct Hnot as [Hnot|(err & Hr & Herr)];
    [| by rewrite Hr, Herr in Hseek].
  destruct (at_index (Formats video) index) as [format|] eqn:Hf;
    [| injection H as <- <- <-; split; [done |]; split; [done | by left]].
  destruct (client_Do host (transfer_request "HEAD" (Url format)))
    as [head|] eqn:Hhead;
    [| injection H as <- <- <-; split; [done |]; split; [done | by right]].
  destruct (Z.eqb_spec (tr_StatusCode head) 403);
    [injection H as <- <- <-; split; [done |]; split; [done | by right] |].
  destruct (is_empty (tr_ContentLength head)) eqn:Hlen;
    [injection H as <- <- <-; split; [done |]; split; [done | by right] |].
  apply is_empty_false in Hlen.
  destruct (client_Do host (transfer_request "GET" (Url format)))
    as [resp|] eqn:Hget;
    [| injection H as <- <- <-; split; [done |]; split; [done | by right]].
  destruct (Hnot resp). by exists format, head.
Qed.

End DownloadFacts.

(** X11. Download returns without error exactly when the file opens (and,
    resuming, seeks), the index is within the formats, the HEAD request is
    answered with a status other than 403 and a Content-Length header, the
    GET request is answered, whatever its status, and its body is read and
    written to the end. The file then holds the content it started from
    (empty, or what was there when resuming) followed by the whole body,
    and the Video carries the file name. *)
Theorem Download_succeeds_exactly_when (host : Host) (files files' : Files)
    (video video' : Video) (index : Z) (filename : string) (option : Option) :
  Download host files video index filename option = (files', video', Returned None)
  <->
  os_OpenFile host filename = None /\
  (Resume option = true -> file_Seek host filename = None) /\
  exists format head resp,
    at_index (Formats video) index = Some format /\
    client_Do host (transfer_request "HEAD" (Url format)) = Ok head /\
    tr_StatusCode head <> 403%Z /\
    tr_ContentLength head <> EmptyString /\
    client_Do host (transfer_request "GET" (Url format)) = Ok resp /\
    tr_BodyError resp = None /\
    (forall n e, file_Write host filename = Some (n, e) ->
                 (length (tr_Body resp) <= n)%nat) /\
    files' = <[filename := kept files filename option ++ tr_Body resp]> files /\
    video' = set_Filename video filename.
Proof.
  unfold kept. split.
  - unfold Download. intros H.
    destruct (os_OpenFile host filename); [done |]. split; [done |].
    destruct (if Resume option then file_Seek host filename else None) eqn:Hseek;
      [done |].
    split; [by intros Hr; rewrite Hr in Hseek |].
    destruct (at_index (Formats video) index) as [format|]; [| done].
    destruct (client_Do host (transfer_request "HEAD" (Url format)))
      as [head|] eqn:Hhead; [| done].
    destruct (Z.eqb_spec (tr_StatusCode head) 403); [done |].
    destruct (is_empty (tr_ContentLength head)) eqn:Hlen; [done |].
    apply is_empty_false in Hlen.
    destruct (client_Do host (transfer_request "GET" (Url format)))
      as [resp|] eqn:Hget; [| done].
    destruct (io_Copy host filename resp) as [written err] eqn:Hcopy.
    injection H as <- <- ->.
    apply io_Copy_complete in Hcopy as (-> & Herr & Hroom).
    exists format, head, resp. repeat split; try done.
    by rewrite insert_insert_eq.
  - intros (Hopen & Hseek & format & head & resp & Hf & Hhead & Hs & Hlen & Hget
            & Herr & Hroom & -> & ->).
    rewrite (Download_served host files video index filename option resp Hopen Hseek);
      [| by exists format, head].
    by rewrite (io_Copy_complete_2 host filename resp Herr Hroom).
Qed.

(** X12. Resume does not resume: a download that resumes onto a file and
    succeeds has asked for, received and written the same complete body
    as a download that starts afresh, and has put it after the old
    content; unless the file was empty, it does not hold the body. *)
Theorem Download_resume_repeats_the_body (host : Host) (files files' : Files)
    (video video' : Video) (index : Z) (filename : string) (option : Option)
    (old : list ascii) :
  Resume option = true ->
  files !! filename = Some old ->
  Download host files video index filename option = (files', video', Returned None) ->
  exists body,
    Download host files video index filename (fresh option)
    = (<[filename := body]> files, video', Returned None) /\
    files' = <[filename := old ++ body]> files /\
    (old <> [] -> files' !! filename <> Some body).
Proof.
  intros Hr Hold H. unfold Download in H.
  destruct (os_OpenFile host filename) eqn:Hopen; [done |].
  rewrite Hr, Hold in H. cbn [default from_option] in H.
  destruct (file_Seek host filename); [done |].
  destruct (at_index (Formats video) index) as [format|] eqn:Hf; [| done].
  destruct (client_Do host (transfer_request "HEAD" (Url format)))
    as [head|] eqn:Hhead; [| done].
  destruct (Z.eqb_spec (tr_StatusCode head) 403); [done |].
  destruct (is_empty (tr_ContentLength head)) eqn:Hlen; [done |].
  apply is_empty_false in Hlen.
  destruct (client_Do host (transfer_request "GET" (Url format)))
    as [resp|] eqn:Hget; [| done].
  destruct (io_Copy host filename resp) as [written err] eqn:Hcopy.
  injection H as <- <- ->.
  exists written. split; [| split].
  - rewrite (Download_served host files video index filename (fresh option) resp Hopen);
      [| done | by exists format, head].
    by rewrite Hcopy.
  - by rewrite insert_insert_eq.
  - intros Hne. rewrite insert_insert_eq, lookup_insert_eq. intros [= Heq].
    apply (f_equal length) in Heq. rewrite length_app in Heq.
    destruct old; [done | simpl in Heq; lia].
Qed.

Lemma Download_resume_repeats_the_body_witness :
  Download SampleRest.plain_host SampleRest.partial_files SampleRest.video 0
    "abc.mp4" SampleRest.resume
  = ({[ "abc.mp4" := bytes "DADATA" ]},
     set_Filename SampleRest.video "abc.mp4", Returned None) /\
  Download SampleRest.plain_host SampleRest.partial_files SampleRest.video 0
    "abc.mp4" (fresh SampleRest.resume)
  = ({[ "abc.mp4" := bytes "DATA" ]},
     set_Filename SampleRest.video "abc.mp4", Returned None).
Proof.
  assert (Download SampleRest.plain_host SampleRest.partial_files SampleRest.video 0
            "abc.mp4" SampleRest.resume
          = (<[ "abc.mp4" := bytes "DADATA" ]> SampleRest.partial_files,
             set_Filename SampleRest.video "abc.mp4", Returned None)) as Hrun.
  { vm_compute. reflexivity. }
  destruct (Download_resume_repeats_the_body SampleRest.plain_host
              SampleRest.partial_files _ SampleRest.video _ 0 "abc.mp4"
              SampleRest.resume (bytes "DA") eq_refl eq_refl Hrun)
    as (body & Hfresh & Hfiles & _).
  apply (f_equal (fun m : Files => m !! "abc.mp4")) in Hfiles.
  rewrite !lookup_insert_eq in Hfiles. injection Hfiles as Hbody.
  subst body.
  split.
  - rewrite Hrun. unfold SampleRest.partial_files.
    by rewrite insert_singleton_eq.
  - rewrite Hfresh. unfold SampleRest.partial_files.
    by rewrite insert_singleton_eq.
Defined.

(** X13. A download that fails has changed no file but its own. If the
    file could not be opened, nothing has changed. Otherwise the file
    exists and holds the content the download started from, followed by
    what was written before the failure: a part of the served body, and
    nothing unless the body was served. So without Resume, a failure
    before the body (a forbidden video, a missing Content-Length, an
    index outside the formats, an unanswered request) leaves the file
    empty, whatever it held. *)
Theorem Download_failure_leaves_the_file_cut (host : Host) (files files' : Files)
    (video video' : Video) (index : Z) (filename : string) (option : Option)
    (st : status) :
  Download host files video index filename option = (files', video', st) ->
  st <> Returned None ->
  (forall name, name <> filename -> files' !! name = files !! name) /\
  (forall err, os_OpenFile host filename = Some err ->
     files' = files /\ video' = video /\ st = Returned (Some err)) /\
  (os_OpenFile host filename = None ->
     exists written,
       files' = <[filename := kept files filename option ++ written]> files /\
       (written <> [] ->
        exists resp, served host video index resp /\
                     written `prefix_of` tr_Body resp) /\
       (Resume option = false ->
        (forall resp, ~ served host video index resp) ->
        files' !! filename = Some [])).
Proof.
  intros H Hst. split; [| split].
  - intros name Hname. revert H. unfold Download, io_Copy. intros H.
    repeat match type of H with
           | context [match ?x with _ => _ end] => destruct x eqn:?
           end;
      injection H as <- <- <-; by rewrite ?lookup_insert_ne.
  - intros err Hopen. unfold Download in H. rewrite Hopen in H.
    by injection H as <- <- <-.
  - intros Hopen.
    destruct (if Resume option then file_Seek host filename else None) as [err|]
      eqn:Hseek.
    { destruct (Resume option) eqn:Hr; [| done].
      destruct (Download_not_served host files video index filename option
                  files' video' st Hopen H) as (-> & _ & _);
        [right; by exists err |].
      exists []. rewrite app_nil_r. split; [done |]. split; done. }
    assert (Resume option = true -> file_Seek host filename = None) as Hseek'.
    { by intros Hr; rewrite Hr in Hseek. }
    destruct (at_index (Formats video) index) as [format|] eqn:Hf; cycle 1.
    { destruct (Download_not_served host files video index filename option
                  files' video' st Hopen H) as (-> & _ & _).
      { left. intros resp (format & head & Hf' & _). congruence. }
      exists []. rewrite app_nil_r. split; [done |]. split; [done |].
      intros Hr _. unfold kept. by rewrite Hr, lookup_insert_eq. }
    destruct (client_Do host (transfer_request "HEAD" (Url format)))
      as [head|] eqn:Hhead; cycle 1.
    { destruct (Download_not_served host files video index filename option
                  files' video' st Hopen H) as (-> & _ & _).
      { left. intros resp (format' & head & Hf' & Hhead' & _). congruence. }
      exists []. rewrite app_nil_r. split; [done |]. split; [done |].
      intros Hr _. unfold kept. by rewrite Hr, lookup_insert_eq. }
    destruct (decide (tr_StatusCode head = 403%Z)) as [Hs|Hs].
    { destruct (Download_not_served host files video index filename option
                  files' video' st Hopen H) as (-> & _ & _).
      { left. intros resp (format' & head' & Hf' & Hhead' & Hs' & _). congruence. }
      exists []. rewrite app_nil_r. split; [done |]. split; [done |].
      intros Hr _. unfold kept. by rewrite Hr, lookup_insert_eq. }
    destruct (decide (tr_ContentLength head = EmptyString)) as [Hlen|Hlen].
    { destruct (Download_not_served host files video index filename option
                  files' video' st Hopen H) as (-> & _ & _).
      { left. intros resp (format' & head' & Hf' & Hhead' & _ & Hlen' & _).
        congruence. }
      exists []. rewrite app_nil_r. split; [done |]. split; [done |].
      intros Hr _. unfold kept. by rewrite Hr, lookup_insert_eq. }
    destruct (client_Do host (transfer_request "GET" (Url format)))
      as [resp|] eqn:Hget; cycle 1.
    { destruct (Download_not_served host files video index filename option
                  files' video' st Hopen H) as (-> & _ & _).
      { left. intros resp (format' & head' & Hf' & _ & _ & _ & Hget'). congruence. }
      exists []. rewrite app_nil_r. split; [done |]. split; [done |].
      intros Hr _. unfold kept. by rewrite Hr, lookup_insert_eq. }
    assert (served host video index resp) as Hserved by (by exists format, head).
    rewrite (Download_served host files video index filename option resp
               Hopen Hseek' Hserved) in H.
    injection H as <- <- <-.
    exists (io_Copy host filename resp).1. split; [done |]. split.
    + intros _. exists resp. split; [done |].
      destruct (io_Copy host filename resp) as [written err] eqn:Hcopy.
      by apply io_Copy_prefix in Hcopy.
    + intros _ Hnot. by destruct (Hnot resp).
Qed.

Lemma Download_failure_leaves_the_file_cut_witness :
  Download SampleRest.plain_host {[ "abc.webm" := bytes "OLD" ]} SampleRest.video 1
    "abc.webm" SampleRest.no_resume
  = (<[ "abc.webm" := [] ]> {[ "abc.webm" := bytes "OLD" ]},
     set_Filename SampleRest.video "abc.webm",
     Returned (Some "video forbidden")) /\
  (<[ "abc.webm" := [] ]> {[ "abc.webm" := bytes "OLD" ]} : Files) !! "abc.webm"
  = Some [].
Proof.
  assert (Download SampleRest.plain_host {[ "abc.webm" := bytes "OLD" ]}
            SampleRest.video 1 "abc.webm" SampleRest.no_resume
          = (<[ "abc.webm" := [] ]> {[ "abc.webm" := bytes "OLD" ]},
             set_Filename SampleRest.video "abc.webm",
             Returned (Some "video forbidden"))) as Hrun.
  { vm_compute. reflexivity. }
  destruct (Download_failure_leaves_the_file_cut SampleRest.plain_host
              _ _ SampleRest.video _ 1 "abc.webm" SampleRest.no_resume _ Hrun)
    as (_ & _ & Hcut); [done |].
  destruct (Hcut eq_refl) as (written & _ & _ & Hempty).
  split; [exact Hrun |]. apply Hempty; [reflexivity |].
  intros resp (format & head & Hf & Hhead & Hs & _).
  vm_compute in Hf. injection Hf as <-.
  vm_compute in Hhead. injection Hhead as <-. by apply Hs.
Defined.

(** ** downloadVideo *)

Section DownloadVideoFacts.

Variable host : Host.
Variables (files : Files) (video : Video) (index : Z).

Lemma Download_in_range (format : Format) filename option :
  at_index (Formats video) index = Some format ->
  (Download host files video index filename option).2 <> Panicked.
Proof.
  intros Hf. unfold Download. rewrite Hf.
  repeat match goal with
         | |- context [match ?x with _ => _ end] => destruct x
         end; done.
Qed.

Lemma Download_ignores_Rename_and_Mp3 filename (option option' : Option) :
  Resume option' = Resume option ->
  Download host files video index filename option'
  = Download host files video index filename option.
Proof. intros Hr. unfold Download. by rewrite Hr. Qed.

End DownloadVideoFacts.

(** X14. downloadVideo names the file by the video's identifier and the
    extension GetExtension gives, whatever the options are: Rename and
    Mp3 are never read. With an index outside the formats it panics
    before any file is touched or any program is run; otherwise it does
    not panic. Without yt-dlp (not asked for, or not found) it is the
    direct download to that file. With yt-dlp it runs the program once,
    with the format's itag, the file name and the watch URL of the
    identifier; if the program fails, the direct download to the same
    file follows, on the files the program left, and its error is the
    result. *)
Theorem downloadVideo_names_the_file_by_identifier (host : Host) (files : Files)
    (video : Video) (index : Z) (option : Option) (useYtDlp : bool) :
  (at_index (Formats video) index = None ->
   downloadVideo host files video index option useYtDlp = (files, Panicked)) /\
  (forall option', Resume option' = Resume option ->
     downloadVideo host files video index option' useYtDlp
     = downloadVideo host files video index option useYtDlp) /\
  (forall format, at_index (Formats video) index = Some format ->
     exists ext,
       let filename := Id video +:+ "." +:+ ext in
       GetExtension video index = Some ext /\
       ext ∈ Formats_var /\
       (downloadVideo host files video index option useYtDlp).2 <> Panicked /\
       (useYtDlp = false \/ exec_LookPath host "yt-dlp" <> None ->
        downloadVideo host files video index option useYtDlp
        = files_and_status (Download host files video index filename option)) /\
       (useYtDlp = true -> exec_LookPath host "yt-dlp" = None ->
        downloadVideo host files video index option useYtDlp
        = match cmd_Run host "yt-dlp" (ytdlp_args video format filename) files with
          | (files1, None) => (files1, Returned None)
          | (files1, Some _) =>
              files_and_status (Download host files1 video index filename option)
          end)).
Proof.
  split; [| split].
  - intros Hf. unfold downloadVideo, GetExtension. by rewrite Hf.
  - intros option' Hr. unfold downloadVideo.
    destruct (GetExtension video index) as [ext|]; [| done].
    destruct useYtDlp.
    + unfold DownloadWithYtDlp.
      destruct (checkYtDlpInstalled host).
      * by rewrite (Download_ignores_Rename_and_Mp3 host files video index _
                      option option' Hr).
      * destruct (at_index (Formats video) index) as [format|]; [| done].
        destruct (cmd_Run host _ _ files) as [files1 [err|]]; [| done].
        by rewrite (Download_ignores_Rename_and_Mp3 host files1 video index _
                      option option' Hr).
    + by rewrite (Download_ignores_Rename_and_Mp3 host files video index _
                    option option' Hr).
  - intros format Hf.
    exists (first_contained Formats_var (Video_type format)).
    cbn zeta.
    set (filename := Id video +:+ "." +:+ first_contained Formats_var (Video_type format)).
    assert (GetExtension video index
            = Some (first_contained Formats_var (Video_type format))) as Hext.
    { unfold GetExtension. by rewrite Hf. }
    split; [done |]. split.
    { destruct (first_contained_spec Formats_var (Video_type format))
        as [(i & Hi & _)|[Hdef _]].
      - by eapply list_elem_of_lookup_2.
      - rewrite Hdef. unfold Formats_var. do 4 right. left. }
    unfold downloadVideo. rewrite Hext. fold filename.
    unfold DownloadWithYtDlp, checkYtDlpInstalled. rewrite Hf.
    fold (ytdlp_args video format filename).
    split; [| split].
    + destruct useYtDlp.
      * destruct (exec_LookPath host "yt-dlp").
        -- pose proof (Download_in_range host files video index format filename
                         option Hf) as Hp.
           by destruct (Download host files video index filename option) as [[??]?].
        -- destruct (cmd_Run host _ _ files) as [files1 [err|]]; [| done].
           pose proof (Download_in_range host files1 video index format filename
                         option Hf) as Hp.
           by destruct (Download host files1 video index filename option) as [[??]?].
      * pose proof (Download_in_range host files video index format filename
                      option Hf) as Hp.
        by destruct (Download host files video index filename option) as [[??]?].
    + intros [-> | Hlook].
      * by destruct (Download host files video index filename option) as [[??]?].
      * destruct useYtDlp;
          [| by destruct (Download host files video index filename option) as [[??]?]].
        destruct (exec_LookPath host "yt-dlp"); [| done].
        by destruct (Download host files video index filename option) as [[??]?].
    + intros -> ->.
      destruct (cmd_Run host _ _ files) as [files1 [err|]]; [| done].
      by destruct (Download host files1 video index filename option) as [[??]?].
Qed.

(** ** parseVTT *)

Section SearchLeftmost.

(** A successful search, with what it says about the places skipped. *)
Lemma search_leftmost r (n : nat) (rest : list ascii) :
  forall pre b e caps,
    search r n pre rest = Some (b, e, caps) ->
    exists skipped rest' st,
      rest = skipped ++ rest' /\
      b = (length pre + length skipped)%nat /\
      head (run r ((reverse skipped ++ pre, rest'), replicate (S n) EmptyString))
      = Some st /\
      e = length st.1.1 /\
      forall s1 s2, skipped = s1 ++ s2 -> s2 <> [] ->
        run r ((reverse s1 ++ pre, s2 ++ rest'), replicate (S n) EmptyString) = [].
Proof.
  induction rest as [|a rest IH]; intros pre b e caps; simpl.
  - destruct (run r ((pre, []), EmptyString :: replicate n EmptyString))
      as [|st tl] eqn:Hrun; [done |].
    intros [= <- <- <-]. exists [], [], st. simpl. rewrite Hrun.
    repeat split; [lia |]. intros s1 s2 H. symmetry in H.
    apply app_eq_nil in H as [_ ->]. done.
  - destruct (run r ((pre, a :: rest), EmptyString :: replicate n EmptyString))
      as [|st tl] eqn:Hrun.
    + intros H. apply IH in H as (skipped & rest' & st & -> & -> & Hh & -> & Hleft).
      exists (a :: skipped), rest', st. simpl.
      rewrite reverse_cons, <- app_assoc. simpl.
      repeat split; [lia | done |].
      intros [|a' s1] s2 Hs Hne; simpl in Hs.
      * subst s2. exact Hrun.
      * injection Hs as <- ->.
        specialize (Hleft s1 s2 eq_refl Hne).
        rewrite reverse_cons, <- app_assoc. exact Hleft.
    + intros [= <- <- <-]. exists [], (a :: rest), st. simpl. rewrite Hrun.
      repeat split; [lia |]. intros s1 s2 H. symmetry in H.
      apply app_eq_nil in H as [_ ->]. done.
Qed.

End SearchLeftmost.

Section TagFacts.

Implicit Types (pre rest : list ascii) (caps : list string).

Lemma split_at_first (c : ascii) (l : list ascii) :
  Forall (fun a => a <> c) l \/
  exists x after, l = x ++ c :: after /\ Forall (fun a => a <> c) x.
Proof.
  induction l as [|a l IH]; [by left |].
  destruct (decide (a = c)) as [->|Ha].
  - right. by exists [], l.
  - destruct IH as [Hl|(x & after & -> & Hx)].
    + left. by constructor.
    + right. exists (a :: x), after. split; [done | by constructor].
Qed.

(** Where a tag opens and closes later, the pattern matches. *)
Lemma tag_matches pre (b c : list ascii) caps :
  run (expr tag_pattern) ((pre, "<"%char :: b ++ ">"%char :: c), caps) <> [].
Proof.
  destruct (split_at_first ">" (b ++ ">"%char :: c)) as [Hall|(x & after & Hx & Hplain)].
  { apply Forall_app in Hall as [_ Hall]. by inversion Hall. }
  assert (exists st, st ∈ run (expr tag_pattern)
                       ((pre, "<"%char :: b ++ ">"%char :: c), caps)) as [st Hst].
  { eexists. cbn [expr tag_pattern]. rewrite Hx.
    eapply run_Seq_here; [apply (run_Lit_here "<") |].
    eapply run_Seq_here; [| apply (run_Lit_here ">")].
    apply run_Rep_here; [| simpl; lia].
    eapply Forall_impl; [exact Hplain |]. intros a Ha. unfold cls_not.
    by destruct (Ascii.eqb_spec a ">"). }
  intros Hnil. rewrite Hnil in Hst. inversion Hst.
Qed.

(** What the pattern matches: an opening bracket, bytes other than the
    closing one, and the closing bracket. *)
Lemma tag_run pre rest caps (st : mstate) :
  st ∈ run (expr tag_pattern) ((pre, rest), caps) ->
  exists x,
    rest = ("<"%char :: x ++ [">"%char]) ++ st.1.2 /\
    st.1.1 = reverse ("<"%char :: x ++ [">"%char]) ++ pre.
Proof.
  intros Hrun.
  destruct (run_lang _ _ _ Hrun) as (w & [Ha Hb] & Hl & _).
  cbn [expr tag_pattern lang] in Hl.
  destruct Hl as (w1 & w2 & -> & -> & x & w3 & -> & _ & ->).
  exists x. simpl in Ha, Hb. by rewrite Ha, Hb.
Qed.

Lemma tag_free_skipped (skipped l : list ascii) :
  "<"%char ∉ skipped -> tag_free l -> tag_free (skipped ++ l).
Proof.
  intros Hs Hl a b c Heq.
  revert a Heq. induction skipped as [|s skipped IH]; intros a Heq.
  - by apply (Hl a b c).
  - destruct a as [|a0 a]; simpl in Heq.
    + injection Heq as -> _. apply Hs. by left.
    + injection Heq as _ Heq. apply (IH ltac:(by intros ?; apply Hs; right) a Heq).
Qed.

Lemma remove_matches_tag_free (fuel : nat) :
  forall pre rest,
    (length rest < fuel)%nat ->
    tag_free (remove_matches fuel tag_pattern pre rest).
Proof.
  induction fuel as [|fuel IH]; intros pre rest Hfuel; [lia |].
  cbn [remove_matches].
  destruct (search (expr tag_pattern) (ngroups tag_pattern) pre rest)
    as [[[b e] caps]|] eqn:Hsearch.
  - apply search_leftmost in Hsearch
      as (skipped & rest' & st & -> & -> & Hhead & -> & Hleft).
    assert (st ∈ run (expr tag_pattern)
                   ((reverse skipped ++ pre, rest'),
                    replicate (S (ngroups tag_pattern)) EmptyString)) as Hst.
    { destruct (run _ _) as [|st' tl]; [done |].
      injection Hhead as ->. by left. }
    apply tag_run in Hst as (x & Hrest' & Hpre).
    rewrite Hpre, Hrest'.
    set (tag := "<"%char :: x ++ [">"%char]).
    replace (length pre + length skipped - length pre)%nat
      with (length skipped) by lia.
    replace (length (reverse tag ++ reverse skipped ++ pre) - length pre)%nat
      with (length (skipped ++ tag))
      by (rewrite !length_app, !length_reverse; lia).
    rewrite take_app_length.
    rewrite (app_assoc skipped), take_app_length, drop_app_length.
    apply tag_free_skipped.
    + intros Hin. apply list_elem_of_split in Hin as (s1 & s2 & ->).
      specialize (Hleft s1 ("<"%char :: s2) eq_refl ltac:(done)).
      rewrite Hrest' in Hleft. revert Hleft. unfold tag.
      change (("<"%char :: s2) ++ ("<"%char :: x ++ [">"%char]) ++ st.1.2)
        with ("<"%char :: s2 ++ ("<"%char :: x ++ [">"%char]) ++ st.1.2).
      replace (s2 ++ ("<"%char :: x ++ [">"%char]) ++ st.1.2)
        with ((s2 ++ "<"%char :: x) ++ ">"%char :: st.1.2)
        by (simpl; rewrite <- !app_assoc; done).
      apply tag_matches.
    + apply IH. rewrite Hrest', !length_app in Hfuel.
      simpl in Hfuel. lia.
  - intros a b c ->.
    pose proof (proj1 (search_None _ _ _ _) Hsearch a _ eq_refl) as Hrun.
    by apply tag_matches in Hrun.
Qed.

Lemma ReplaceAllString_tag_free (s : string) :
  tag_free (bytes (ReplaceAllString_by_empty tag_pattern s)).
Proof.
  unfold ReplaceAllString_by_empty. rewrite bytes_of_bytes.
  apply remove_matches_tag_free. rewrite bytes_length. lia.
Qed.

Lemma tag_free_part (a l b : list ascii) : tag_free (a ++ l ++ b) -> tag_free l.
Proof.
  intros H a' b' c' ->. apply (H (a ++ a') b' (c' ++ b)).
  rewrite <- !app_assoc. simpl. by rewrite <- !app_assoc.
Qed.

End TagFacts.

Section FirstOccurrences.

Implicit Types (l P : list string).

Lemma joined_app P (x : string) : joined (P ++ [x]) = joined P +:+ (x +:+ " ").
Proof.
  induction P as [|p P IH]; simpl.
  - change (x +:+ " " +:+ EmptyString = x +:+ " ").
    rewrite <- (of_bytes_bytes (x +:+ " " +:+ EmptyString)).
    rewrite !bytes_app, app_nil_r, <- bytes_app. apply of_bytes_bytes.
  - change (p +:+ " " +:+ joined (P ++ [x]) = (p +:+ " " +:+ joined P) +:+ (x +:+ " ")).
    by rewrite IH, !append_assoc.
Qed.

Lemma filter_not_in_nil l : filter (fun x : string => x ∉ []) l = l.
Proof.
  induction l as [|y l IH]; [done |].
  rewrite filter_cons_True; [by rewrite IH |]. intros H. inversion H.
Qed.

Lemma first_occurrences_elem l (x : string) :
  x ∈ first_occurrences l <-> x ∈ l.
Proof.
  induction l as [|y l IH]; [done |]. cbn [first_occurrences].
  rewrite !elem_of_cons, list_elem_of_filter, IH.
  destruct (decide (x = y)); tauto.
Qed.

Lemma first_occurrences_NoDup l : NoDup (first_occurrences l).
Proof.
  induction l as [|y l IH]; [constructor |]. cbn [first_occurrences].
  constructor.
  - rewrite list_elem_of_filter. intros [H _]. by apply H.
  - by apply NoDup_filter.
Qed.

End FirstOccurrences.

Section ParseVTTFacts.

Variable text : Text.

Lemma parseVTT_loop (lines : list string) :
  forall P st,
    holds P st ->
    holds (P ++ filter (fun x => x ∉ P) (first_occurrences (omap (clean_line text) lines)))
          (foldl (parseVTT_line text) st lines).
Proof.
  induction lines as [|line lines IH]; intros P st Hst.
  - simpl. by rewrite app_nil_r.
  - cbn [foldl omap list_omap]. unfold parseVTT_line at 2.
    destruct (clean_line text line) as [c|] eqn:Hc; [| by apply IH].
    cbn [first_occurrences].
    destruct Hst as [Htext Hseen].
    destruct (default false (st.2 !! c)) eqn:Hsc; cbn [negb].
    + apply Hseen in Hsc.
      rewrite filter_cons_False by (by intros H; apply H).
      rewrite list_filter_filter.
      rewrite (list_filter_iff _ (fun x => x ∉ P));
        [by apply IH |].
      intros x. split; [by intros [? _] |]. intros Hx. split; [done |].
      by intros ->.
    + assert (c ∉ P) as HcP.
      { intros H. apply Hseen in H. congruence. }
      rewrite filter_cons_True by done.
      rewrite list_filter_filter.
      rewrite (list_filter_iff _ (fun x => x ∉ P ++ [c])); cycle 1.
      { intros x. rewrite elem_of_app, list_elem_of_singleton. tauto. }
      rewrite (cons_middle c), app_assoc.
      apply IH. split; cbn [fst snd].
      * by rewrite joined_app, Htext.
      * intros x. rewrite elem_of_app, list_elem_of_singleton.
        destruct (decide (x = c)) as [->|Hx].
        -- rewrite lookup_insert_eq. by split; [right |].
        -- rewrite lookup_insert_ne by done. rewrite Hseen. tauto.
Qed.

Lemma clean_line_nonempty (line c : string) :
  clean_line text line = Some c -> c <> EmptyString.
Proof.
  unfold clean_line.
  repeat match goal with
         | |- context [if ?b then _ else _] => destruct b eqn:?
         end; try done.
  intros [= <-]. by apply is_empty_false.
Qed.

Lemma clean_line_tag_free (line c : string) :
  trims text -> clean_line text line = Some c -> tag_free (bytes c).
Proof.
  intros Htrims. unfold clean_line.
  repeat match goal with
         | |- context [if ?b then _ else _] => destruct b eqn:?
         end; try done.
  intros [= <-].
  destruct (Htrims (ReplaceAllString_by_empty tag_pattern
                      (strings_TrimSpace text line))) as (a & b & Hab).
  eapply (tag_free_part a _ b). rewrite <- Hab.
  apply ReplaceAllString_tag_free.
Qed.

End ParseVTTFacts.

(** X15. parseVTT returns the error of os.ReadFile, or the kept lines'
    texts, each followed by one space, in the order of the file, where
    a text that occurs again anywhere later is left out: the
    duplicates removed are not only the consecutive ones. No text is
    empty and none occurs twice. *)
Theorem parseVTT_keeps_first_occurrences (text : Text) (filePath : string) :
  let pieces content :=
    first_occurrences (omap (clean_line text) (Split content newline_byte)) in
  parseVTT text filePath
  = match os_ReadFile text filePath with
    | Ok content => Ok (joined (pieces content))
    | Err err => Err err
    end /\
  forall content,
    NoDup (pieces content) /\
    (forall c, c ∈ pieces content
               <-> c ∈ omap (clean_line text) (Split content newline_byte)) /\
    (forall c, c ∈ pieces content -> c <> EmptyString) /\
    (forall (before after : list string) (c : string),
       first_occurrences (before ++ [c] ++ after ++ [c])
       = first_occurrences (before ++ [c] ++ after)).
Proof.
  intros pieces. split.
  - unfold parseVTT. destruct (os_ReadFile text filePath) as [content|]; [| done].
    cbn [mbind result_bind].
    destruct (parseVTT_loop text (Split content newline_byte) [] (EmptyString, ∅))
      as [Htext _].
    { split; [done |]. intros x. cbn [snd]. rewrite lookup_empty. cbn.
      split; [done |]. intros H. inversion H. }
    rewrite Htext. cbn [app]. f_equal. f_equal. unfold pieces.
    apply filter_not_in_nil.
  - intros content. unfold pieces. split; [apply first_occurrences_NoDup |].
    split; [intros c; apply first_occurrences_elem |]. split.
    + intros c Hc. rewrite first_occurrences_elem in Hc.
      apply list_elem_of_omap in Hc as (line & _ & Hline).
      by eapply clean_line_nonempty.
    + intros before after c.
      induction before as [|x before IH].
      * cbn [app first_occurrences]. f_equal.
        induction after as [|y after IHa].
        -- cbn [app first_occurrences]. rewrite filter_cons_False; [done |].
           by intros H; apply H.
        -- cbn [app first_occurrences].
           destruct (decide (y = c)) as [->|Hy].
           ++ rewrite !filter_cons_False by (by intros H; apply H).
              rewrite !list_filter_filter.
              rewrite !(list_filter_iff (fun x => x <> c /\ x <> c) (fun x => x <> c))
                by (intros; tauto).
              exact IHa.
           ++ rewrite !filter_cons_True by done. f_equal.
              rewrite !list_filter_filter.
              rewrite !(list_filter_iff (fun x => x <> c /\ x <> y)
                          (fun x => x <> y /\ x <> c)) by (intros; tauto).
              rewrite <- !list_filter_filter. by rewrite IHa.
      * cbn [app first_occurrences]. f_equal. cbn [app] in IH. by rewrite IH.
Qed.

Lemma drop_space_suffix (l : list ascii) :
  exists a, l = a ++ SampleRest.drop_space l.
Proof.
  induction l as [|c l [a IH]]; [by exists [] |]. cbn [SampleRest.drop_space].
  destruct (SampleRest.ascii_space c).
  - exists (c :: a). simpl. by rewrite <- IH.
  - by exists [].
Qed.

Lemma trim_ascii_trims : trims SampleRest.text.
Proof.
  intros s. cbn [strings_TrimSpace SampleRest.text]. unfold SampleRest.trim_ascii.
  rewrite bytes_of_bytes.
  destruct (drop_space_suffix (bytes s)) as [a Ha].
  destruct (drop_space_suffix (reverse (SampleRest.drop_space (bytes s)))) as [b Hb].
  exists a, (reverse b).
  rewrite <- reverse_app, <- Hb, reverse_involutive. exact Ha.
Qed.

(** X16. Provided strings.TrimSpace returns a part of its argument, no
    text that parseVTT keeps holds a tag any more: none has a [<]
    with a [>] anywhere after it, and none is empty. *)
Theorem parseVTT_strips_tags (text : Text) (filePath content : string) :
  trims text ->
  os_ReadFile text filePath = Ok content ->
  exists pieces,
    parseVTT text filePath = Ok (joined pieces) /\
    Forall (fun c => tag_free (bytes c) /\ c <> EmptyString) pieces.
Proof.
  intros Htrims Hread.
  exists (first_occurrences (omap (clean_line text) (Split content newline_byte))).
  split.
  - unfold parseVTT. rewrite Hread. cbn [mbind result_bind].
    destruct (parseVTT_loop text (Split content newline_byte) [] (EmptyString, ∅))
      as [Htext _].
    { split; [done |]. intros x. cbn [snd]. rewrite lookup_empty. cbn.
      split; [done |]. intros H. inversion H. }
    rewrite Htext. cbn [app]. by rewrite filter_not_in_nil.
  - apply Forall_forall. intros c Hc.
    rewrite first_occurrences_elem in Hc.
    apply list_elem_of_omap in Hc as (line & _ & Hline).
    split; [by eapply clean_line_tag_free | by eapply clean_line_nonempty].
Qed.

Lemma parseVTT_strips_tags_witness :
  parseVTT SampleRest.text "abc.en.vtt" = Ok "Hello world next line " /\
  exists pieces,
    parseVTT SampleRest.text "abc.en.vtt" = Ok (joined pieces) /\
    Forall (fun c => tag_free (bytes c) /\ c <> EmptyString) pieces.
Proof.
  split; [vm_compute; reflexivity |].
  exact (parseVTT_strips_tags SampleRest.text "abc.en.vtt" SampleRest.captions
           trim_ascii_trims eq_refl).
Defined.
